(** * gif_your_nifti: the normalisation and mosaic pipeline of [core.py]

    A shallow embedding of [src/gif_your_nifti/core.py].  Python values are
    modelled as follows.

    - A Python [int] (and a NumPy [int64] that stays far from its bounds) is a
      [Z].
    - A NumPy [float64] / [float32] is a [spec_float] of the Standard
      Library's IEEE-754 specification, with the operations instantiated at
      precision 53 / 24.
    - A NumPy array of rank 3 is a list of planes, a plane a list of rows, a
      row a list of elements (C order).  An array whose leading extent is zero
      therefore carries no trailing extents; the properties below are stated
      for volumes whose extents are all at least 1.
    - A raised exception is the [Raise] branch of [Py.result]; a list
      comprehension is [Py.mapM], which stops at the first exception.
    - A Python [str] is the list of its characters; [os.path] is
      [posixpath], with [/] as the separator.

    File access, the NIfTI reader and the GIF encoder are collaborators: the
    loaders below start from the voxel array the reader returned, and the
    writers end at the frame array handed to the encoder.  Of the encoder
    shim [mimwrite_] the choice of the timing argument is modelled. *)

From Stdlib Require String Ascii.
From Stdlib Require Import List ZArith Lia Bool PeanoNat.
From Stdlib Require Import SpecFloat.
Import ListNotations.
Import String.StringSyntax Ascii.AsciiSyntax.
Delimit Scope string_scope with string.
Delimit Scope char_scope with char.

(* ===================================================================== *)
(** * Python: exceptions, [range], indices and slices                     *)
(* ===================================================================== *)

Module Py.

(** The exceptions that can leave the modelled code.  The last three are
    the error kinds named by the specification; [core.py] defines none of
    them and has no [raise] statement. *)
Inductive exn : Set :=
| ValueError
| IndexError
| OverflowError
| UnboundLocalError
| AxisError
| DataError
| DimensionMismatchError
| ConfigError.

Inductive result (A : Type) : Type :=
| Ok (a : A)
| Raise (e : exn).

Arguments Ok {A} a.
Arguments Raise {A} e.

Definition bind {A B : Type} (r : result A) (k : A -> result B) : result B :=
  match r with
  | Ok a => k a
  | Raise e => Raise e
  end.

Definition returns {A : Type} (r : result A) : bool :=
  match r with Ok _ => true | Raise _ => false end.

(** [[f(x) for x in l]]: left to right, the first exception ends it. *)
Fixpoint mapM {A B : Type} (f : A -> result B) (l : list A) : result (list B) :=
  match l with
  | [] => Ok []
  | x :: t =>
      bind (f x) (fun y => bind (mapM f t) (fun ys => Ok (y :: ys)))
  end.

(** Elementwise combination of two lists of equal length. *)
Fixpoint zipM {A B C : Type} (f : A -> B -> result C)
         (l : list A) (r : list B) : result (list C) :=
  match l, r with
  | x :: l', y :: r' =>
      bind (f x y) (fun z => bind (zipM f l' r') (fun zs => Ok (z :: zs)))
  | _, _ => Ok []
  end.

(** [len(range(lo, hi, step))], as CPython computes it. *)
Definition range_len (lo hi step : Z) : Z :=
  if (0 <? step)%Z then
    if (lo <? hi)%Z then ((hi - lo - 1) / step + 1)%Z else 0%Z
  else
    if (hi <? lo)%Z then ((lo - hi - 1) / (- step) + 1)%Z else 0%Z.

(** [range(lo, hi, step)]; a zero step is a [ValueError]. *)
Definition range (lo hi step : Z) : result (list Z) :=
  if (step =? 0)%Z then Raise ValueError
  else Ok (map (fun k => (lo + Z.of_nat k * step)%Z)
               (seq 0 (Z.to_nat (range_len lo hi step)))).

(** An integer subscript on an axis of extent [n]: negative subscripts
    count from the end, anything outside is an [IndexError]. *)
Definition index (n : nat) (i : Z) : result nat :=
  let j := if (i <? 0)%Z then (i + Z.of_nat n)%Z else i in
  if ((0 <=? j) && (j <? Z.of_nat n))%Z then Ok (Z.to_nat j)
  else Raise IndexError.

(** One bound of a slice with step 1 on an axis of extent [n]
    ([slice.indices]): negative bounds count from the end, then the bound
    is clipped to [[0, n]]. *)
Definition clip (n : nat) (i : Z) : nat :=
  if (i <? 0)%Z then Z.to_nat (Z.max 0 (i + Z.of_nat n))
  else Z.to_nat (Z.min i (Z.of_nat n)).

(** [l[s:e]] *)
Definition getslice {A : Type} (l : list A) (s e : Z) : list A :=
  let lo := clip (length l) s in
  let hi := clip (length l) e in
  firstn (hi - lo) (skipn lo l).

End Py.

Import Py.

Declare Scope py_scope.
Notation "x <- c ;; k" := (Py.bind c (fun x => k))
  (at level 61, c at next level, right associativity) : py_scope.
Notation "' p <- c ;; k" := (Py.bind c (fun p => k))
  (at level 61, p pattern, c at next level, right associativity) : py_scope.
Open Scope py_scope.

(* ===================================================================== *)
(** * IEEE-754 values: [float64], [float32] and the conversions used      *)
(* ===================================================================== *)

Module Fl.

Definition prec64 : Z := 53.
Definition emax64 : Z := 1024.
Definition prec32 : Z := 24.
Definition emax32 : Z := 128.

(** An integer converted to a float of the given format, rounding to
    nearest even. *)
Definition of_Z (prec emax : Z) (n : Z) : spec_float :=
  binary_normalize prec emax n 0 false.

Definition f64_of_Z : Z -> spec_float := of_Z prec64 emax64.
Definition f32_of_Z : Z -> spec_float := of_Z prec32 emax32.

Definition mul64 : spec_float -> spec_float -> spec_float := SFmul prec64 emax64.
Definition div64 : spec_float -> spec_float -> spec_float := SFdiv prec64 emax64.
Definition mul32 : spec_float -> spec_float -> spec_float := SFmul prec32 emax32.
Definition div32 : spec_float -> spec_float -> spec_float := SFdiv prec32 emax32.

(** [float64] stored into a [float32] array. *)
Definition to_f32 (x : spec_float) : spec_float :=
  match x with
  | S754_finite s m e => binary_round prec32 emax32 s m e
  | _ => x
  end.

Definition one : spec_float := f64_of_Z 1.
Definition pzero : spec_float := S754_zero false.

Definition is_nan (x : spec_float) : bool :=
  match x with S754_nan => true | _ => false end.

Definition is_zero (x : spec_float) : bool :=
  match x with S754_zero _ => true | _ => false end.

Definition is_inf (x : spec_float) : bool :=
  match x with S754_infinity _ => true | _ => false end.

(** The integer part of a finite non-zero float, towards zero. *)
Definition trunc (s : bool) (m : positive) (e : Z) : Z :=
  cond_Zopp s
    match e with
    | Z0 => Zpos m
    | Zpos p => (Zpos m * 2 ^ Zpos p)%Z
    | Zneg p => (Zpos m / 2 ^ Zpos p)%Z
    end.

(** [int(x)]: truncation towards zero; [ValueError] on NaN,
    [OverflowError] on an infinity. *)
Definition py_int (x : spec_float) : result Z :=
  match x with
  | S754_nan => Raise ValueError
  | S754_infinity _ => Raise OverflowError
  | S754_zero _ => Ok 0%Z
  | S754_finite s m e => Ok (trunc s m e)
  end.

(** [x.astype(np.uint8)] on one element: the C conversion, which truncates
    a value in range.  The C standard leaves the other cases open; x86-64
    builds of NumPy convert through a signed integer of 32 bits and keep
    its low byte: a value whose integer part lies in [[-2^31, 2^31)] is
    reduced modulo 256, and every value beyond, a NaN and an infinity
    give 0. *)
Definition astype_uint8 (x : spec_float) : Z :=
  match x with
  | S754_finite s m e =>
      let t := trunc s m e in
      if ((-2147483648 <=? t) && (t <? 2147483648))%Z then (t mod 256)%Z
      else 0%Z
  | _ => 0%Z
  end.

(** [np.maximum] on two scalars: a NaN wins, otherwise the larger. *)
Definition maximum (x y : spec_float) : spec_float :=
  if is_nan x then x
  else if is_nan y then y
  else if SFltb x y then y else x.

(** A Python number as the size factor can be: the default [1] is an
    [int], the command line passes a [float]. *)
Inductive pynum : Set :=
| PyInt (z : Z)
| PyFloat (f : spec_float).

(** [size != 1] *)
Definition ne_one (size : pynum) : bool :=
  match size with
  | PyInt z => negb (z =? 1)%Z
  | PyFloat f => negb (SFeqb f one)
  end.

(** [int(size * maximum)], the product taken in that order. *)
Definition int_size_times (size : pynum) (maximum : Z) : result Z :=
  match size with
  | PyInt z => Ok (z * maximum)%Z
  | PyFloat f => py_int (mul64 f (f64_of_Z maximum))
  end.

(** [int(maximum * size)], the product taken in that order. *)
Definition int_times_size (maximum : Z) (size : pynum) : result Z :=
  match size with
  | PyInt z => Ok (maximum * z)%Z
  | PyFloat f => py_int (mul64 (f64_of_Z maximum) f)
  end.

End Fl.

(* ===================================================================== *)
(** * NumPy arrays as nested lists                                        *)
(* ===================================================================== *)

Module Np.

Definition mat (A : Type) : Type := list (list A).
Definition vol (A : Type) : Type := list (list (list A)).

Section Arrays.
Context {A : Type}.

(** [v.shape] of a rank-3 array. *)
Definition shape3 (v : vol A) : nat * nat * nat :=
  (length v, length (hd [] v), length (hd [] (hd [] v))).

Definition shape2 (m : mat A) : nat * nat :=
  (length m, length (hd [] m)).

(** The array is rectangular with the given extents. *)
Definition has_shape2 (r c : nat) (m : mat A) : bool :=
  (length m =? r) && forallb (fun row => length row =? c) m.

Definition has_shape3 (a b c : nat) (v : vol A) : bool :=
  (length v =? a) && forallb (has_shape2 b c) v.

Definition is_cube (n : nat) (v : vol A) : bool := has_shape3 n n n v.

(** Element access, [None] outside the array. *)
Definition get2 (m : mat A) (r c : nat) : option A :=
  match nth_error m r with
  | Some row => nth_error row c
  | None => None
  end.

Definition get3 (v : vol A) (i j k : nat) : option A :=
  match nth_error v i with
  | Some p => get2 p j k
  | None => None
  end.

(** [np.zeros] with a given fill value for the element type. *)
Definition full2 (r c : nat) (x : A) : mat A := repeat (repeat x c) r.
Definition full3 (a b c : nat) (x : A) : vol A := repeat (full2 b c x) a.

(** [v[i, :, :]] *)
Definition index0 (v : vol A) (i : Z) : result (mat A) :=
  k <- Py.index (length v) i ;;
  match nth_error v k with
  | Some p => Ok p
  | None => Raise IndexError
  end.

(** [v[:, j, :]] *)
Definition index1 (v : vol A) (j : Z) : result (mat A) :=
  k <- Py.index (snd (fst (shape3 v))) j ;;
  Py.mapM (fun p => match nth_error p k with
                    | Some row => Ok row
                    | None => Raise IndexError
                    end) v.

(** [v[:, :, k]] *)
Definition index2 (v : vol A) (k : Z) : result (mat A) :=
  n <- Py.index (snd (shape3 v)) k ;;
  Py.mapM (Py.mapM (fun row => match nth_error row n with
                               | Some x => Ok x
                               | None => Raise IndexError
                               end)) v.

(** [np.flip(m, 1)] on a rank-2 array: every row reversed. *)
Definition flip1 (m : mat A) : mat A := map (@rev A) m.

(** [np.hstack((a, b))] on rank-2 arrays: rows joined pairwise; the row
    counts must agree. *)
Definition hstack (a b : mat A) : result (mat A) :=
  if length a =? length b
  then Ok (map (fun '(r, s) => r ++ s) (combine a b))
  else Raise ValueError.

(** [np.array(frames)] on a list of rank-2 arrays: a rank-3 array when
    all shapes agree, a [ValueError] on a ragged list. *)
Definition array_of_frames (frames : list (mat A)) : result (vol A) :=
  match frames with
  | [] => Ok []
  | f :: _ =>
      if forallb (fun g => has_shape2 (fst (shape2 f)) (snd (shape2 f)) g) frames
      then Ok frames
      else Raise ValueError
  end.

End Arrays.

(** [m.T] with the row width given: the columns of [m] as rows. *)
Fixpoint transpose_w {X : Type} (w : nat) (m : list (list X)) : list (list X) :=
  match m with
  | [] => repeat [] w
  | r :: m' => map (fun '(x, col) => x :: col) (combine r (transpose_w w m'))
  end.

(** [m.T] on a rank-2 array. *)
Definition T {X : Type} (m : list (list X)) : list (list X) :=
  transpose_w (length (hd [] m)) m.

Definition map2 {A B : Type} (f : A -> B) (m : mat A) : mat B := map (map f) m.
Definition map3 {A B : Type} (f : A -> B) (v : vol A) : vol B := map (map2 f) v.

(** All elements in C order. *)
Definition ravel {A : Type} (v : vol A) : list A := concat (concat v).

(** [v.max()]: a reduction with [np.maximum]; an empty array is a
    [ValueError]. *)
Definition amax (v : vol spec_float) : result spec_float :=
  match ravel v with
  | [] => Raise ValueError
  | x :: t => Ok (fold_left Fl.maximum t x)
  end.

(** Assignment to a slice along one axis, [dst[s:e] = src], where
    [inner] assigns one item.  The code only ever assigns a block whose
    extent is that of the slice (see [pad_to_cube_legacy_spec] and
    [pad_to_cube_isotropic_spec] below), so the
    broadcasting of an axis of extent 1 is left out: any other extent is
    the [ValueError] NumPy raises for shapes that do not fit. *)
Definition assign_axis {X Y : Type} (inner : X -> Y -> result X)
           (dst : list X) (s e : Z) (src : list Y) : result (list X) :=
  let lo := Py.clip (length dst) s in
  let hi := Py.clip (length dst) e in
  if length src =? hi - lo then
    mid <- Py.zipM inner (firstn (hi - lo) (skipn lo dst)) src ;;
    Ok (firstn lo dst ++ mid ++ skipn (lo + (hi - lo)) dst)
  else Raise ValueError.

(** [out[s0:e0, s1:e1, s2:e2] = data], every element stored through
    [cast] (the conversion to the element type of [out]). *)
Definition setitem3 {A B : Type} (cast : B -> A) (out : vol A)
           (s0 e0 s1 e1 s2 e2 : Z) (data : vol B) : result (vol A) :=
  assign_axis
    (fun plane dplane =>
       assign_axis
         (fun row drow =>
            assign_axis (fun _ x => Ok (cast x)) row s2 e2 drow)
         plane s1 e1 dplane)
    out s0 e0 data.

End Np.

Import Np.

(** Arrays of rank 4 (a sequence of frames with a channel axis) are lists of
    rank-3 arrays. *)
Module Np4.

Section Stacks.
Context {A : Type}.

(** [np.array(stacks)] on a list of rank-3 arrays: rank 4 when all
    shapes agree, a [ValueError] on a ragged list (NumPy 1.24 and later).  The empty list gives
    an empty array of rank 1, also written [[]]. *)
Definition array_of_stacks (stacks : list (vol A)) : result (list (vol A)) :=
  match stacks with
  | [] => Ok []
  | s :: _ =>
      let '(k, h, w) := shape3 s in
      if forallb (has_shape3 k h w) stacks then Ok stacks
      else Raise ValueError
  end.

(** One item of [np.rollaxis(arr, 1, 4)]: extents [(k, h, w)] become
    [(h, w, k)]. *)
Definition roll (s : vol A) : vol A := map (@T A) (T s).

(** [np.rollaxis(arr, 1, 4)] on the result of [array_of_stacks].  The
    array must have rank 4.  An empty list is an array of rank 1; a list
    of empty stacks only arises from slices of an empty mosaic, which is
    an array of rank 1 too, so that the list is an array of rank 2: both
    are an [AxisError]. *)
Definition rollaxis_1_4 (arr : list (vol A)) : result (list (vol A)) :=
  match arr with
  | [] => Raise AxisError
  | s :: _ =>
      if length s =? 0 then Raise AxisError else Ok (map roll arr)
  end.

(** [arr[-1]] *)
Definition last_item (arr : list (vol A)) : result (vol A) :=
  k <- Py.index (length arr) (-1) ;;
  match nth_error arr k with
  | Some s => Ok s
  | None => Raise IndexError
  end.

End Stacks.

(** [np.zeros([3] + list(s.shape))] *)
Definition zeros3_like {A : Type} (s : vol A) : list (vol spec_float) :=
  let '(h, w, k) := shape3 s in
  repeat (full3 h w k Fl.pzero) 3.

End Np4.

Import Np4.

(** The element types the pipeline handles, with the conversion NumPy
    applies when such an array is joined with a [float64] array. *)
Class DType (A : Type) : Type := { to_float64 : A -> spec_float }.

(** [uint8] elements are integers in [[0, 255]]. *)
#[export] Instance DType_uint8 : DType Z := {| to_float64 := Fl.f64_of_Z |}.

#[export] Instance DType_float64 : DType spec_float := {| to_float64 := fun x => x |}.

(** An element of the array a loader returns: [uint8] when no resize took
    place, [float64] after the legacy loader's resize.  All elements of one
    array carry the same tag. *)
Inductive pixel : Type :=
| U8 (z : Z)
| F64 (x : spec_float).

#[export] Instance DType_pixel : DType pixel :=
  {| to_float64 := fun p => match p with U8 z => Fl.f64_of_Z z | F64 x => x end |}.

(** A colour of a colormap: red, green, blue, alpha. *)
Definition rgba : Type := spec_float * spec_float * spec_float * spec_float.

(* ===================================================================== *)
(** * Python strings and [os.path]                                        *)
(* ===================================================================== *)

Module Str.

(** A Python [str]: its characters. *)
Definition str : Type := list Ascii.ascii.

(** A literal. *)
Definition lit (s : String.string) : str := String.list_ascii_of_string s.

(** [ch in s] *)
Definition occurs (ch : Ascii.ascii) (s : str) : bool :=
  existsb (fun c => Ascii.eqb c ch) s.

(** [s == t] *)
Fixpoint eqb (s t : str) : bool :=
  match s, t with
  | [], [] => true
  | c :: s', d :: t' => Ascii.eqb c d && eqb s' t'
  | _, _ => false
  end.

(** [s.startswith(p)] *)
Fixpoint startswith (p s : str) : bool :=
  match p, s with
  | [], _ => true
  | c :: p', d :: s' => Ascii.eqb c d && startswith p' s'
  | _ :: _, [] => false
  end.

(** [s.split(ch)]: never an empty list. *)
Fixpoint split (ch : Ascii.ascii) (s : str) : list str :=
  match s with
  | [] => [[]]
  | c :: s' =>
      if Ascii.eqb c ch then [] :: split ch s'
      else match split ch s' with
           | h :: t => (c :: h) :: t
           | [] => [[c]]
           end
  end.

(** [s.split(ch, 1)]: one or two items. *)
Fixpoint split_once (ch : Ascii.ascii) (s : str) : list str :=
  match s with
  | [] => [[]]
  | c :: s' =>
      if Ascii.eqb c ch then [[]; s']
      else match split_once ch s' with
           | h :: t => (c :: h) :: t
           | [] => [[c]]
           end
  end.

(** [sep.join(l)] *)
Fixpoint join (sep : str) (l : list str) : str :=
  match l with
  | [] => []
  | [s] => s
  | s :: l' => s ++ sep ++ join sep l'
  end.

(** [s.rstrip(ch)] *)
Fixpoint rstrip (ch : Ascii.ascii) (s : str) : str :=
  match s with
  | [] => []
  | c :: s' =>
      match rstrip ch s' with
      | [] => if Ascii.eqb c ch then [] else [c]
      | r => c :: r
      end
  end.

(** [s[:s.rfind(ch) + 1]] *)
Fixpoint through_last (ch : Ascii.ascii) (s : str) : str :=
  match s with
  | [] => []
  | c :: s' =>
      if Ascii.eqb c ch || occurs ch s' then c :: through_last ch s' else []
  end.

End Str.

(** [os.path] on a POSIX system ([posixpath]). *)
Module PosixPath.

(** [os.sep] and [os.extsep] *)
Definition sep : Ascii.ascii := "/"%char.
Definition extsep : Ascii.ascii := "."%char.

Definition is_nil {X : Type} (l : list X) : bool :=
  match l with [] => true | _ => false end.

(** One round of the loop of [normpath] over the components: an empty
    component and [.] are skipped, [..] removes the component before it
    where there is one to remove. *)
Definition normpath_step (initial_slashes : nat) (new_comps : list Str.str)
           (comp : Str.str) : list Str.str :=
  if Str.eqb comp [] || Str.eqb comp [extsep] then new_comps
  else if negb (Str.eqb comp [extsep; extsep])
          || ((initial_slashes =? 0) && is_nil new_comps)
          || (negb (is_nil new_comps)
              && Str.eqb (last new_comps []) [extsep; extsep])
       then new_comps ++ [comp]
       else if negb (is_nil new_comps) then removelast new_comps
            else new_comps.

(** [os.path.normpath(path)] *)
Definition normpath (path : Str.str) : Str.str :=
  if Str.eqb path [] then [extsep]
  else
    let initial_slashes :=
      if Str.startswith [sep] path then
        if Str.startswith [sep; sep] path
           && negb (Str.startswith [sep; sep; sep] path)
        then 2 else 1
      else 0 in
    let comps := Str.split sep path in
    let comps := fold_left (normpath_step initial_slashes) comps [] in
    let path := Str.join [sep] comps in
    let path := repeat sep initial_slashes ++ path in
    if Str.eqb path [] then [extsep] else path.

(** [os.path.dirname(p)] *)
Definition dirname (p : Str.str) : Str.str :=
  let head := Str.through_last sep p in
  if negb (Str.eqb head []) && negb (forallb (fun c => Ascii.eqb c sep) head)
  then Str.rstrip sep head else head.

End PosixPath.

(* ===================================================================== *)
(** * The libraries the pipeline calls                                    *)
(* ===================================================================== *)

(** [scipy.ndimage.zoom], [skimage.transform.resize] and the colormaps
    registered with matplotlib.  Their interpolation is outside this
    development: the pipeline is stated for any implementation, of which
    only the shape of a resized array is required. *)
Class Libraries : Type := {
  (** [zoom(data, factors, order=1)] *)
  zoom : vol spec_float -> spec_float * spec_float * spec_float ->
         result (vol spec_float);
  (** [resize(img, [n] * 3, order=1, preserve_range=pr)]; the result is a
      [float64] array. *)
  resize : bool -> vol Z -> Z -> result (vol spec_float);
  (** The output has the shape that was asked for. *)
  resize_shape : forall pr img n out,
      resize pr img n = Ok out -> (0 <= n)%Z /\ is_cube (Z.to_nat n) out = true;
  (** The registered colormaps, by name. *)
  colormaps : list (String.string * (pixel -> rgba))
}.

(* ===================================================================== *)
(** * [core.py]                                                           *)
(* ===================================================================== *)

(** What the NIfTI reader hands over: the voxels ([get_fdata()], a
    [float64] array) and the voxel sizes of the three axes
    ([header.get_zooms()[:3]]). *)
Record nifti : Type := {
  dataobj : vol spec_float;
  zooms : spec_float * spec_float * spec_float
}.

(** ** File names *)

(** [parse_filename(filepath)]: directory, base name and extension.  The
    unpacking of [filename.split(os.extsep, 1)] into two names is a
    [ValueError] when the list has one item. *)
Definition parse_filename (filepath : Str.str)
  : result (Str.str * Str.str * Str.str) :=
  let path := PosixPath.normpath filepath in
  let dirname := PosixPath.dirname path in
  match Str.split PosixPath.sep path with
  | [] => Raise IndexError
  | comps =>
      let filename := last comps [] in
      match Str.split_once PosixPath.extsep filename with
      | [basename; ext] => Ok (dirname, basename, ext)
      | _ => Raise ValueError
      end
  end.

(** ** Padding to a cube *)

(** [int(x)] for [x] of [(list(data.shape) - maximum) / -2]: the extent
    minus the maximum, as a [float64], divided by [-2.0], then truncated. *)
Definition legacy_start (maximum dim : Z) : result Z :=
  Fl.py_int (Fl.div64 (Fl.f64_of_Z (dim - maximum)) (Fl.f64_of_Z (-2))).

(** One component of [(maximum - shape) // 2]. *)
Definition isotropic_start (maximum dim : Z) : Z := ((maximum - dim) / 2)%Z.

(** Lines 59-69 of [load_and_prepare_image]: the zero cube and the slice
    assignment.  Returns the cube and [maximum]. *)
Definition pad_to_cube_legacy (data : vol spec_float) : result (vol spec_float * Z) :=
  let '(a, b, c) := shape3 data in
  let n := Nat.max a (Nat.max b c) in
  let maximum := Z.of_nat n in
  let out_img := full3 n n n Fl.pzero in
  x <- legacy_start maximum (Z.of_nat a) ;;
  y <- legacy_start maximum (Z.of_nat b) ;;
  z <- legacy_start maximum (Z.of_nat c) ;;
  out_img <- setitem3 (fun v => v) out_img
               x (Z.of_nat a + x) y (Z.of_nat b + y) z (Z.of_nat c + z) data ;;
  Ok (out_img, maximum).

(** Lines 96-103 of [load_and_prepare_image_isotropic]: the [float32] zero
    cube and the slice assignment, which converts every voxel to
    [float32]. *)
Definition pad_to_cube_isotropic (data_iso : vol spec_float) : result (vol spec_float * Z) :=
  let '(a, b, c) := shape3 data_iso in
  let n := Nat.max a (Nat.max b c) in
  let maximum := Z.of_nat n in
  let out_img := full3 n n n Fl.pzero in
  let sx := isotropic_start maximum (Z.of_nat a) in
  let sy := isotropic_start maximum (Z.of_nat b) in
  let sz := isotropic_start maximum (Z.of_nat c) in
  let ex := (sx + Z.of_nat a)%Z in
  let ey := (sy + Z.of_nat b)%Z in
  let ez := (sz + Z.of_nat c)%Z in
  out_img <- setitem3 Fl.to_f32 out_img sx ex sy ey sz ez data_iso ;;
  Ok (out_img, maximum).

(** ** Intensities *)

(** [out_img *= 255 / out_img.max()] on a [float64] array. *)
Definition rescale64 (out_img : vol spec_float) : result (vol spec_float) :=
  m <- amax out_img ;;
  let factor := Fl.div64 (Fl.f64_of_Z 255) m in
  Ok (map3 (fun v => Fl.mul64 v factor) out_img).

(** [out_img *= 255.0 / out_img.max()] on a [float32] array; the quotient
    is a [float32] (NumPy 2 promotion). *)
Definition rescale32 (out_img : vol spec_float) : result (vol spec_float) :=
  m <- amax out_img ;;
  let factor := Fl.div32 (Fl.f32_of_Z 255) m in
  Ok (map3 (fun v => Fl.mul32 v factor) out_img).

(** ** The loaders *)

Section Loaders.
Context {L : Libraries}.

(** [load_and_prepare_image(filename, size)], from the loaded voxels. *)
Definition load_and_prepare_image (data : vol spec_float) (size : Fl.pynum)
  : result (vol pixel * Z) :=
  '(out_img, maximum) <- pad_to_cube_legacy data ;;
  out_img <- rescale64 out_img ;;
  let out_img := map3 Fl.astype_uint8 out_img in
  out_img <- (if Fl.ne_one size then
                n <- Fl.int_size_times size maximum ;;
                r <- resize false out_img n ;;
                Ok (map3 F64 r)
              else Ok (map3 U8 out_img)) ;;
  maximum <- Fl.int_times_size maximum size ;;
  Ok (out_img, maximum).

(** Lines 96-114 of [load_and_prepare_image_isotropic], from the resampled
    voxels. *)
Definition prepare_isotropic (data_iso : vol spec_float) (size : Fl.pynum)
  : result (vol Z * Z) :=
  '(out_img, maximum) <- pad_to_cube_isotropic data_iso ;;
  out_img <- rescale32 out_img ;;
  let out_img := map3 Fl.astype_uint8 out_img in
  if Fl.ne_one size then
    n <- Fl.int_size_times size maximum ;;
    r <- resize true out_img n ;;
    let out_img := map3 Fl.astype_uint8 r in
    Ok (out_img, Z.of_nat (length out_img))
  else Ok (out_img, maximum).

(** [zooms.min()] *)
Definition min_zoom (z : spec_float * spec_float * spec_float) : spec_float :=
  let '(zx, zy, zz) := z in
  let minimum x y :=
    if Fl.is_nan x then x else if Fl.is_nan y then y
    else if SFltb y x then y else x in
  minimum (minimum zx zy) zz.

(** [zooms / float(target_spacing)], the target being the smallest voxel
    size when none is given. *)
Definition zoom_factors (img : nifti) (target_spacing : option spec_float)
  : spec_float * spec_float * spec_float :=
  let target :=
    match target_spacing with
    | None => min_zoom (zooms img)
    | Some t => t
    end in
  let '(zx, zy, zz) := zooms img in
  (Fl.div64 zx target, Fl.div64 zy target, Fl.div64 zz target).

(** [load_and_prepare_image_isotropic(filename, size, target_spacing)],
    from the reoriented image. *)
Definition load_and_prepare_image_isotropic (img : nifti) (size : Fl.pynum)
           (target_spacing : option spec_float) : result (vol Z * Z) :=
  let factors := zoom_factors img target_spacing in
  data_iso <- zoom (dataobj img) factors ;;
  prepare_isotropic data_iso size.

End Loaders.

(** ** Mosaics *)

Section Mosaics.
Context {A : Type}.

(** The frame of depth index [i]: the three panels side by side. *)
Definition mosaic_frame (out_img : vol A) (maximum i : Z) : result (mat A) :=
  p0 <- index0 out_img i ;;
  p1 <- index1 out_img (maximum - i - 1) ;;
  left <- hstack (T (flip1 p0)) (T (flip1 p1)) ;;
  p2 <- index2 out_img (maximum - i - 1) ;;
  hstack left (T (flip1 p2)).

(** [create_mosaic_normal(out_img, maximum, frameskip)] *)
Definition create_mosaic_normal (out_img : vol A) (maximum frameskip : Z)
  : result (vol A) :=
  idx <- Py.range 0 maximum frameskip ;;
  frames <- Py.mapM (mosaic_frame out_img maximum) idx ;;
  array_of_frames frames.

Context {D : DType A}.

(** [create_mosaic_depth(out_img, maximum, frameskip)]: a sequence of
    frames of [uint8] triples. *)
Definition create_mosaic_depth (out_img : vol A) (maximum frameskip : Z)
  : result (list (vol Z)) :=
  new_img <- create_mosaic_normal out_img maximum frameskip ;;
  idx <- Py.range 0 (maximum - 3) 1 ;;
  let rgb_img := map (fun i => Py.getslice new_img i (i + 3)) idx in
  arr <- array_of_stacks rgb_img ;;
  out_img <- rollaxis_1_4 arr ;;
  l <- last_item out_img ;;
  let stacked := map (map3 to_float64) out_img ++ zeros3_like l in
  Ok (map (map3 Fl.astype_uint8) stacked).

(** [create_mosaic_RGB(out_img1, out_img2, out_img3, maximum, frameskip)]:
    a sequence of frames of [float64] triples. *)
Definition create_mosaic_RGB (out_img1 out_img2 out_img3 : vol A)
           (maximum frameskip : Z) : result (list (vol spec_float)) :=
  new_img1 <- create_mosaic_normal out_img1 maximum frameskip ;;
  new_img2 <- create_mosaic_normal out_img2 maximum frameskip ;;
  new_img3 <- create_mosaic_normal out_img3 maximum frameskip ;;
  idx <- Py.range 0 maximum 1 ;;
  rgb_img <- Py.mapM (fun i =>
               f1 <- index0 new_img1 i ;;
               f2 <- index0 new_img2 i ;;
               f3 <- index0 new_img3 i ;;
               Ok [f1; f2; f3]) idx ;;
  arr <- array_of_stacks rgb_img ;;
  out_img <- rollaxis_1_4 arr ;;
  l <- last_item out_img ;;
  Ok (map (map3 to_float64) out_img ++ zeros3_like l).

End Mosaics.

(** ** The writers, up to the frames handed to the encoder *)

Section Writers.
Context {L : Libraries}.

(** [write_gif_normal] *)
Definition write_gif_normal (img : nifti) (size : Fl.pynum) (frameskip : Z)
  : result (vol Z) :=
  '(out_img, maximum) <- load_and_prepare_image_isotropic img size None ;;
  create_mosaic_normal out_img maximum frameskip.

(** [write_gif_depth] *)
Definition write_gif_depth (data : vol spec_float) (size : Fl.pynum)
           (frameskip : Z) : result (list (vol Z)) :=
  '(out_img, maximum) <- load_and_prepare_image data size ;;
  create_mosaic_depth out_img maximum frameskip.

(** [write_gif_rgb].  The local [maximum] is bound only inside the [if];
    reading it unbound is an [UnboundLocalError]. *)
Definition write_gif_rgb (data1 data2 data3 : vol spec_float)
           (size : Fl.pynum) (frameskip : Z) : result (list (vol spec_float)) :=
  '(out_img1, maximum1) <- load_and_prepare_image data1 size ;;
  '(out_img2, maximum2) <- load_and_prepare_image data2 size ;;
  '(out_img3, maximum3) <- load_and_prepare_image data3 size ;;
  let maximum :=
    if ((maximum1 =? maximum2) && (maximum1 =? maximum3))%Z
    then Some maximum1 else None in
  match maximum with
  | None => Raise UnboundLocalError
  | Some maximum =>
      create_mosaic_RGB out_img1 out_img2 out_img3 maximum frameskip
  end.

(** [get_cmap(name)] of matplotlib: the registered colormap of that name,
    a [ValueError] when there is none. *)
Fixpoint lookup_cmap (name : String.string)
         (reg : list (String.string * (pixel -> rgba)))
  : result (pixel -> rgba) :=
  match reg with
  | [] => Raise ValueError
  | (n, f) :: reg' => if String.eqb name n then Ok f else lookup_cmap name reg'
  end.

Definition get_cmap (name : String.string) : result (pixel -> rgba) :=
  lookup_cmap name colormaps.

Definition registered (name : String.string) : bool :=
  existsb (fun e => String.eqb name (fst e)) colormaps.

(** Lines 340-342 of [write_gif_pseudocolor]: the colormap applied to the
    frames [0 .. maximum-1], the alpha channel deleted, the rest scaled
    to [uint8].  [np.delete(..., 3, 3)] needs an array of rank 4, which an
    empty list of frames is not. *)
Definition apply_colormap (colormap : String.string) (new_img : vol pixel)
           (maximum : Z) : result (list (mat (Z * Z * Z))) :=
  cmap <- get_cmap colormap ;;
  idx <- Py.range 0 maximum 1 ;;
  color_transformed <-
    Py.mapM (fun i => f <- index0 new_img i ;; Ok (map2 cmap f)) idx ;;
  match color_transformed with
  | [] => Raise AxisError
  | _ =>
      let to_u8 x := Fl.astype_uint8 (Fl.mul64 (Fl.f64_of_Z 255) x) in
      Ok (map (map2 (fun '(r, g, b, _) => (to_u8 r, to_u8 g, to_u8 b)))
              color_transformed)
  end.

(** [write_gif_pseudocolor] *)
Definition write_gif_pseudocolor (data : vol spec_float) (size : Fl.pynum)
           (colormap : String.string) (frameskip : Z)
  : result (list (mat (Z * Z * Z))) :=
  '(out_img, maximum) <- load_and_prepare_image data size ;;
  new_img <- create_mosaic_normal out_img maximum frameskip ;;
  apply_colormap colormap new_img maximum.

End Writers.

(** ** The encoder shim *)

(** The timing keyword [mimwrite_] calls imageio's [mimwrite] with: the
    duration of a frame in milliseconds, or the frame rate. *)
Inductive timing : Set :=
| Duration (ms : Z)
| Fps (fps : Z).

(** What can leave [mimwrite_] before the call: the [ZeroDivisionError] of
    [1000 / fps], or an exception of [int]. *)
Inductive shim_exn : Set :=
| ZeroDivisionError
| Conversion (e : Py.exn).

(** [t > u] on tuples of ints: the first position that differs decides,
    and a proper prefix is the smaller tuple. *)
Fixpoint tuple_gt (t u : list Z) : bool :=
  match t, u with
  | [], _ => false
  | _ :: _, [] => true
  | x :: t', y :: u' => if (x =? y)%Z then tuple_gt t' u' else (y <? x)%Z
  end.

(** [mimwrite_(filename, img, fps, **kwargs)], from the version of imageio
    as the tuple of ints that line 354 compares.  [1000 / fps] is the
    quotient of two ints as a [float64]: both convert exactly when [fps]
    is below [2 ^ 53], and beyond that the quotient is below 1 in
    magnitude however it is rounded, so that [int] gives 0. *)
Definition mimwrite_ (version : list Z) (fps : Z) : timing + shim_exn :=
  if tuple_gt version [2; 28]%Z then
    if (fps =? 0)%Z then inr ZeroDivisionError
    else
      match Fl.py_int (Fl.div64 (Fl.f64_of_Z 1000) (Fl.f64_of_Z fps)) with
      | Ok ms => inl (Duration ms)
      | Raise e => inr (Conversion e)
      end
  else inl (Fps fps).

(** ** A reference implementation of the libraries

    Nearest-neighbour resampling and a linear grey ramp: enough to run the
    pipeline on concrete volumes.  The theorems below hold for every
    instance of [Libraries], not only for this one. *)

Definition tabulate3 {A : Type} (a b c : nat) (f : nat -> nat -> nat -> A) : vol A :=
  map (fun i => map (fun j => map (fun k => f i j k) (seq 0 c)) (seq 0 b)) (seq 0 a).

Definition nearest {A : Type} (d : A) (v : vol A) (a b c : nat) : vol A :=
  let '(a0, b0, c0) := shape3 v in
  tabulate3 a b c
    (fun i j k =>
       match get3 v (i * a0 / a) (j * b0 / b) (k * c0 / c) with
       | Some x => x
       | None => d
       end).

Definition reference_zoom (data : vol spec_float)
           (factors : spec_float * spec_float * spec_float)
  : result (vol spec_float) :=
  let '(fx, fy, fz) := factors in
  let '(a, b, c) := shape3 data in
  let half := Fl.div64 (Fl.f64_of_Z 1) (Fl.f64_of_Z 2) in
  let extent n f :=
    Fl.py_int (SFadd Fl.prec64 Fl.emax64
                 (Fl.mul64 (Fl.f64_of_Z (Z.of_nat n)) f) half) in
  a' <- extent a fx ;;
  b' <- extent b fy ;;
  c' <- extent c fz ;;
  if ((a' <? 0) || (b' <? 0) || (c' <? 0))%Z then Raise ValueError
  else Ok (nearest Fl.pzero data (Z.to_nat a') (Z.to_nat b') (Z.to_nat c')).

Definition reference_resize (pr : bool) (img : vol Z) (n : Z)
  : result (vol spec_float) :=
  if (n <? 0)%Z then Raise ValueError
  else
    let value z :=
      if pr then Fl.f64_of_Z z
      else Fl.div64 (Fl.f64_of_Z z) (Fl.f64_of_Z 255) in
    let k := Z.to_nat n in
    Ok (map3 value (nearest 0%Z img k k k)).

Definition grey_ramp (p : pixel) : rgba :=
  let v := match p with
           | U8 z => Fl.div64 (Fl.f64_of_Z z) (Fl.f64_of_Z 255)
           | F64 x => x
           end in
  (v, v, v, Fl.one).

(** A volume of the given extents with every voxel [1.0]. *)
Definition ones (a b c : nat) : vol spec_float := full3 a b c (Fl.f64_of_Z 1).

(** The voxels of a cube of side [n] numbered in C order, as [uint8]. *)
Definition numbered (n : nat) : vol Z :=
  tabulate3 n n n (fun i j k => Z.of_nat (n * n * i + n * j + k)).

(** One half, a size factor that triggers the resize. *)
Definition half : spec_float := Fl.div64 (Fl.f64_of_Z 1) (Fl.f64_of_Z 2).

(* ===================================================================== *)
(** * Definitions used to state the properties                            *)
(* ===================================================================== *)

(** [ceil (n / d)] for a positive [d]: the least [q] with [n <= q * d]
    (lemma [ceil_div_least]). *)
Definition ceil_div (n d : Z) : Z := ((n + d - 1) / d)%Z.

(** A slice [s] of side [n], flipped along its axis 1 and then transposed:
    the element at row [r], column [c]. *)
Definition flip_transposed {A : Type} (n : nat) (s : nat -> nat -> option A)
  : nat -> nat -> option A :=
  fun r c => s c (n - 1 - r).

(** The frame of depth index [i], element by element: left the slice
    [v[i, :, :]], in the middle [v[:, n-1-i, :]], right [v[:, :, n-1-i]]. *)
Definition expected_frame {A : Type} (v : vol A) (n i : nat) (r c : nat) : option A :=
  if c <? n then
    flip_transposed n (fun y z => get3 v i y z) r c
  else if c <? 2 * n then
    flip_transposed n (fun x z => get3 v x (n - 1 - i) z) r (c - n)
  else
    flip_transposed n (fun x y => get3 v x y (n - 1 - i)) r (c - 2 * n).

(** The frame the source builds for index [i], or an empty array should the
    computation raise. *)
Definition frame_at {A : Type} (v : vol A) (maximum i : Z) : mat A :=
  match mosaic_frame v maximum i with
  | Ok f => f
  | Raise _ => []
  end.

(** The three frames of index [t], one per volume. *)
Definition stack_at {A : Type} (v1 v2 v3 : vol A) (n : nat) (t : nat) : vol A :=
  [frame_at v1 (Z.of_nat n) (Z.of_nat t);
   frame_at v2 (Z.of_nat n) (Z.of_nat t);
   frame_at v3 (Z.of_nat n) (Z.of_nat t)].

(** Three consecutive frames of the normal mosaic of stride 1, from index
    [t]. *)
Definition window_at {A : Type} (v : vol A) (n : nat) (t : nat) : vol A :=
  map (fun i => frame_at v (Z.of_nat n) (Z.of_nat i)) (seq t 3).

(** One pixel of the pseudocolor output: the colormap's red, green and
    blue, each scaled by 255 and cast to [uint8]; the alpha is dropped. *)
Definition rgb8 (cmap : pixel -> rgba) (p : pixel) : Z * Z * Z :=
  let '(r, g, b, _) := cmap p in
  (Fl.astype_uint8 (Fl.mul64 (Fl.f64_of_Z 255) r),
   Fl.astype_uint8 (Fl.mul64 (Fl.f64_of_Z 255) g),
   Fl.astype_uint8 (Fl.mul64 (Fl.f64_of_Z 255) b)).

(** [mid] placed at offset [before] on an axis of extent [n] that is
    otherwise filled with [z]. *)
Definition pad_axis {X : Type} (z : X) (n before : nat) (mid : list X) : list X :=
  repeat z before ++ mid ++ repeat z (n - before - length mid).

(** The block [data], every element converted by [cast], placed at offsets
    [(sx, sy, sz)] in a cube of side [n] filled with [z]. *)
Definition embed3 {A B : Type} (cast : B -> A) (z : A) (n sx sy sz : nat)
           (data : vol B) : vol A :=
  pad_axis (full2 n n z) n sx
    (map (fun p =>
            pad_axis (repeat z n) n sy
              (map (fun r => pad_axis z n sz (map cast r)) p))
         data).

(** The index lies in the block on one axis. *)
Definition inside (start extent i : nat) : bool :=
  (start <=? i) && (i <? start + extent).

(** The side of the cube for a volume of extents [(a, b, c)], and the
    offset that centres an extent [d] in it, rounding down. *)
Definition cube_side (a b c : nat) : nat := Nat.max a (Nat.max b c).
Definition centre (n d : nat) : nat := (n - d) / 2.

(** A rectangular volume none of whose axes is empty, and the side of the
    cube it is padded to. *)
Definition rectangular {A : Type} (v : vol A) : bool :=
  let '(a, b, c) := shape3 v in
  has_shape3 a b c v && (1 <=? a) && (1 <=? b) && (1 <=? c).

Definition side {A : Type} (v : vol A) : nat :=
  let '(a, b, c) := shape3 v in cube_side a b c.

(** A path component that [normpath] keeps: not empty, neither [.] nor
    [..], and without a separator. *)
Definition plain (c : Str.str) : bool :=
  negb (Str.eqb c []) && negb (Str.eqb c [PosixPath.extsep])
  && negb (Str.eqb c [PosixPath.extsep; PosixPath.extsep])
  && negb (Str.occurs PosixPath.sep c).


(** The values of a [uint8]. *)
Definition byte (k : Z) : Prop := (0 <= k <= 255)%Z.

Definition bytes : list Z := map Z.of_nat (seq 0 256).

(** An integer voxel as the [float32] array of the isotropic loader holds
    it. *)
Definition f32_voxel (k : Z) : spec_float := Fl.to_f32 (Fl.f64_of_Z k).

(** The same float, bit for bit. *)
Definition same_float (x y : spec_float) : bool :=
  match x, y with
  | S754_zero s, S754_zero t => Bool.eqb s t
  | S754_infinity s, S754_infinity t => Bool.eqb s t
  | S754_nan, S754_nan => true
  | S754_finite s m e, S754_finite t n f =>
      Bool.eqb s t && (m =? n)%positive && (e =? f)%Z
  | _, _ => false
  end.

(** A float that holds an integer of less than 54 bits exactly: the
    mantissa has 53 digits and encodes [n * 2 ^ (- e)]. *)
Definition holds (n : positive) (m : positive) (e : Z) : Prop :=
  Zpos (digits2_pos m) = 53%Z /\ (-52 <= e <= 0)%Z /\
  Zpos m = (Zpos n * 2 ^ (- e))%Z.

(** The rank of a float in the order [np.maximum] follows: negative,
    zero, positive, NaN. *)
Definition klass (x : spec_float) : nat :=
  match x with
  | S754_nan => 3
  | S754_zero _ => 1
  | S754_infinity s => if s then 0 else 2
  | S754_finite s _ _ => if s then 0 else 2
  end.

(* ===================================================================== *)
(** * The reference libraries satisfy the interface                       *)
(* ===================================================================== *)

Lemma length_tabulate_row {A : Type} (f : nat -> A) (n : nat) :
  length (map f (seq 0 n)) = n.
Proof. now rewrite length_map, length_seq. Qed.

Lemma is_cube_tabulate3 {A : Type} (n : nat) (f : nat -> nat -> nat -> A) :
  is_cube n (tabulate3 n n n f) = true.
Proof.
  unfold is_cube, has_shape3, tabulate3.
  rewrite length_tabulate_row, Nat.eqb_refl; simpl.
  apply forallb_forall; intros p Hp.
  apply in_map_iff in Hp as (i & <- & _).
  unfold has_shape2.
  rewrite length_tabulate_row, Nat.eqb_refl; simpl.
  apply forallb_forall; intros r Hr.
  apply in_map_iff in Hr as (j & <- & _).
  now rewrite length_tabulate_row, Nat.eqb_refl.
Qed.

Lemma forallb_map_pointwise {A B : Type} (p : B -> bool) (q : A -> bool)
      (f : A -> B) (l : list A) :
  (forall x, p (f x) = q x) -> forallb p (map f l) = forallb q l.
Proof.
  intros H. induction l as [|x l IH]; simpl; [reflexivity|].
  now rewrite H, IH.
Qed.

Lemma has_shape2_map2 {A B : Type} (f : A -> B) (b c : nat) (m : mat A) :
  has_shape2 b c (map2 f m) = has_shape2 b c m.
Proof.
  unfold has_shape2, map2.
  rewrite length_map; f_equal.
  apply forallb_map_pointwise; intros r. now rewrite length_map.
Qed.

Lemma has_shape3_map3 {A B : Type} (f : A -> B) (a b c : nat) (v : vol A) :
  has_shape3 a b c (map3 f v) = has_shape3 a b c v.
Proof.
  unfold has_shape3, map3.
  rewrite length_map; f_equal.
  apply forallb_map_pointwise; intros p. apply has_shape2_map2.
Qed.

Lemma reference_resize_shape (pr : bool) (img : vol Z) (n : Z) (out : vol spec_float) :
  reference_resize pr img n = Ok out ->
  (0 <= n)%Z /\ is_cube (Z.to_nat n) out = true.
Proof.
  unfold reference_resize.
  destruct (n <? 0)%Z eqn:Hn; [discriminate|].
  intros [= <-]. split; [lia|].
  unfold is_cube. rewrite has_shape3_map3.
  unfold nearest. destruct (shape3 img) as [[a0 b0] c0].
  apply is_cube_tabulate3.
Qed.

#[export] Instance reference_libraries : Libraries := {|
  zoom := reference_zoom;
  resize := reference_resize;
  resize_shape := reference_resize_shape;
  colormaps := [("gray"%string, grey_ramp)]
|}.

(* ===================================================================== *)
(** * Facts about the Python and NumPy layer                              *)
(* ===================================================================== *)

Lemma has_shape2_spec {A : Type} (r c : nat) (m : mat A) :
  has_shape2 r c m = true <->
  length m = r /\ Forall (fun row => length row = c) m.
Proof.
  unfold has_shape2. rewrite andb_true_iff, Nat.eqb_eq, forallb_forall, Forall_forall.
  split; intros [H1 H2]; split; trivial; intros x Hx.
  - now apply Nat.eqb_eq, H2.
  - now apply Nat.eqb_eq, H2.
Qed.

Lemma has_shape3_spec {A : Type} (a b c : nat) (v : vol A) :
  has_shape3 a b c v = true <->
  length v = a /\ Forall (fun p => has_shape2 b c p = true) v.
Proof.
  unfold has_shape3. rewrite andb_true_iff, Nat.eqb_eq, forallb_forall, Forall_forall.
  tauto.
Qed.

Lemma has_shape2_row {A : Type} {r c : nat} {m : mat A} (i : nat) {row : list A} :
  has_shape2 r c m = true -> nth_error m i = Some row -> length row = c.
Proof.
  intros H Hn. apply has_shape2_spec in H as [_ H].
  rewrite Forall_forall in H. eapply H, nth_error_In, Hn.
Qed.

Lemma has_shape3_plane {A : Type} {a b c : nat} {v : vol A} (i : nat) {p : mat A} :
  has_shape3 a b c v = true -> nth_error v i = Some p -> has_shape2 b c p = true.
Proof.
  intros H Hn. apply has_shape3_spec in H as [_ H].
  rewrite Forall_forall in H. eapply H, nth_error_In, Hn.
Qed.

Lemma nth_error_lt_Some {A : Type} (l : list A) (n : nat) :
  n < length l -> exists x, nth_error l n = Some x.
Proof.
  intros H. destruct (nth_error l n) eqn:E; [eauto|].
  apply nth_error_None in E. lia.
Qed.

Lemma nth_error_Some_lt {A : Type} (l : list A) (n : nat) (x : A) :
  nth_error l n = Some x -> n < length l.
Proof. intros H. apply nth_error_Some. congruence. Qed.

Lemma get2_in_shape {A : Type} (r c : nat) (m : mat A) (i j : nat) :
  has_shape2 r c m = true -> i < r -> j < c -> exists x, get2 m i j = Some x.
Proof.
  intros H Hi Hj. unfold get2.
  pose proof H as H'. apply has_shape2_spec in H' as [Hl _].
  destruct (nth_error_lt_Some m i) as [row Hrow]; [lia|].
  rewrite Hrow. apply nth_error_lt_Some.
  erewrite has_shape2_row; eauto.
Qed.

Lemma get3_in_shape {A : Type} {a b c : nat} (v : vol A) (i j k : nat) :
  has_shape3 a b c v = true -> i < a -> j < b -> k < c ->
  exists x, get3 v i j k = Some x.
Proof.
  intros H Hi Hj Hk. unfold get3.
  pose proof H as H'. apply has_shape3_spec in H' as [Hl _].
  destruct (nth_error_lt_Some v i) as [p Hp]; [lia|].
  rewrite Hp. eapply get2_in_shape; eauto using has_shape3_plane.
Qed.

Lemma nth_error_combine {A B : Type} (l1 : list A) (l2 : list B) (n : nat) :
  nth_error (combine l1 l2) n =
  match nth_error l1 n, nth_error l2 n with
  | Some a, Some b => Some (a, b)
  | _, _ => None
  end.
Proof.
  revert l2 n. induction l1 as [|a l1 IH]; intros [|b l2] [|n]; simpl; trivial.
  now destruct (nth_error l1 n).
Qed.

(** ** The result monad *)

Lemma mapM_map {A B : Type} (f : A -> result B) (g : A -> B) (l : list A) :
  (forall x, In x l -> f x = Ok (g x)) -> Py.mapM f l = Ok (map g l).
Proof.
  induction l as [|x l IH]; intros H; simpl; [reflexivity|].
  rewrite H by now left. simpl.
  rewrite IH by (intros; apply H; now right). reflexivity.
Qed.

(** ** [range] *)

Lemma ceil_div_least (n d : Z) :
  (0 < d)%Z ->
  (n <= ceil_div n d * d)%Z /\ (forall q, (n <= q * d)%Z -> (ceil_div n d <= q)%Z).
Proof.
  intros Hd. unfold ceil_div. split.
  - pose proof (Z.mod_pos_bound (n + d - 1) d Hd).
    pose proof (Z.div_mod (n + d - 1) d ltac:(lia)). nia.
  - intros q Hq.
    assert ((n + d - 1) / d < q + 1)%Z; [|lia].
    apply Z.div_lt_upper_bound; nia.
Qed.

Lemma range_len_ceil (n step : Z) :
  (0 <= n)%Z -> (1 <= step)%Z -> Py.range_len 0 n step = ceil_div n step.
Proof.
  intros Hn Hs. unfold Py.range_len, ceil_div.
  destruct (0 <? step)%Z eqn:E; [|lia].
  destruct (0 <? n)%Z eqn:E'.
  - replace (n + step - 1)%Z with (n - 0 - 1 + 1 * step)%Z by lia.
    rewrite Z.div_add by lia. reflexivity.
  - assert (n = 0)%Z by lia. subst.
    symmetry. apply Z.div_small. lia.
Qed.

Lemma range_spec (n step : Z) :
  (0 <= n)%Z -> (1 <= step)%Z ->
  Py.range 0 n step =
  Ok (map (fun k => (Z.of_nat k * step)%Z) (seq 0 (Z.to_nat (ceil_div n step)))).
Proof.
  intros Hn Hs. unfold Py.range.
  destruct (step =? 0)%Z eqn:E; [lia|].
  now rewrite range_len_ceil.
Qed.

Lemma ceil_div_nonneg (n step : Z) :
  (0 <= n)%Z -> (1 <= step)%Z -> (0 <= ceil_div n step)%Z.
Proof. intros. unfold ceil_div. apply Z.div_pos; lia. Qed.

Lemma range_index_bound (n step : Z) (k : nat) :
  (0 <= n)%Z -> (1 <= step)%Z -> (Z.of_nat k < ceil_div n step)%Z ->
  (0 <= Z.of_nat k * step < n)%Z.
Proof.
  intros Hn Hs Hk. split; [nia|].
  destruct (Z_lt_le_dec (Z.of_nat k * step) n) as [|H]; trivial.
  assert (Hd : (0 < step)%Z) by lia.
  apply (proj2 (ceil_div_least n step Hd)) in H. lia.
Qed.

(** ** Subscripts, flips, transposes and joins *)

Lemma index_in_range (n : nat) (i : Z) :
  (0 <= i < Z.of_nat n)%Z -> Py.index n i = Ok (Z.to_nat i).
Proof.
  intros H. unfold Py.index.
  destruct (i <? 0)%Z eqn:E; [lia|].
  destruct (0 <=? i)%Z eqn:E1; [|lia].
  destruct (i <? Z.of_nat n)%Z eqn:E2; [reflexivity|lia].
Qed.

Lemma transpose_w_spec {X : Type} (w : nat) (m : list (list X)) :
  Forall (fun row => length row = w) m ->
  length (transpose_w w m) = w /\
  forall c, c < w ->
    exists col, nth_error (transpose_w w m) c = Some col /\
                length col = length m /\
                forall r, nth_error col r = get2 m r c.
Proof.
  induction m as [|row m IH]; intros Hm; simpl.
  - split; [apply repeat_length|].
    intros c Hc. exists []. rewrite nth_error_repeat by trivial.
    repeat split. intros r. unfold get2. now rewrite !nth_error_nil.
  - inversion Hm as [|? ? Hrow Hm']; subst.
    destruct (IH Hm') as [Hlen Hcols].
    split.
    + rewrite length_map, length_combine, Hlen. lia.
    + intros c Hc.
      destruct (Hcols c Hc) as (col & Hcol & Hl & Hget).
      destruct (nth_error_lt_Some row c Hc) as [x Hx].
      exists (x :: col).
      rewrite nth_error_map. rewrite nth_error_combine. rewrite Hx, Hcol. simpl.
      repeat split; [now rewrite Hl|].
      intros [|r]; unfold get2; simpl; [now rewrite Hx|]. apply Hget.
Qed.

Section PanelFacts.
Context {A : Type}.

Lemma shape3_of_has_shape (a b c : nat) (v : vol A) :
  has_shape3 a b c v = true -> 1 <= a -> 1 <= b -> shape3 v = (a, b, c).
Proof.
  intros H Ha Hb. unfold shape3.
  pose proof H as H'. apply has_shape3_spec in H' as [Hl _].
  destruct v as [|p v]; simpl in *; [lia|].
  assert (Hp : has_shape2 b c p = true) by (eapply (has_shape3_plane 0); eauto).
  pose proof Hp as Hp'. apply has_shape2_spec in Hp' as [Hlp _].
  destruct p as [|row p]; simpl in *; [lia|].
  rewrite (has_shape2_row 0 Hp eq_refl). congruence.
Qed.

Lemma index0_spec {a b c : nat} (v : vol A) (i : Z) :
  has_shape3 a b c v = true -> (0 <= i < Z.of_nat a)%Z ->
  exists p, index0 v i = Ok p /\ nth_error v (Z.to_nat i) = Some p /\
            has_shape2 b c p = true.
Proof.
  intros H Hi. unfold index0.
  pose proof H as H'. apply has_shape3_spec in H' as [Hl _].
  rewrite index_in_range by lia. simpl.
  destruct (nth_error_lt_Some v (Z.to_nat i)) as [p Hp]; [lia|].
  rewrite Hp. eauto using has_shape3_plane.
Qed.

Lemma index1_spec {a b c : nat} (v : vol A) (j : Z) :
  has_shape3 a b c v = true -> 1 <= a -> (0 <= j < Z.of_nat b)%Z ->
  index1 v j = Ok (map (fun p => nth (Z.to_nat j) p []) v).
Proof.
  intros H Ha Hj. unfold index1.
  rewrite (shape3_of_has_shape a b c v H) by lia. simpl.
  rewrite index_in_range by lia. simpl.
  apply mapM_map. intros p Hp.
  apply In_nth_error in Hp as [n Hn].
  pose proof (has_shape3_plane _ H Hn) as Hs.
  apply has_shape2_spec in Hs as [Hl _].
  rewrite (nth_error_nth' p []) by lia. reflexivity.
Qed.

Lemma index2_spec {a b c : nat} (v : vol A) (k : Z) (d : A) :
  has_shape3 a b c v = true -> 1 <= a -> 1 <= b -> (0 <= k < Z.of_nat c)%Z ->
  index2 v k = Ok (map (map (fun row => nth (Z.to_nat k) row d)) v).
Proof.
  intros H Ha Hb Hk. unfold index2.
  rewrite (shape3_of_has_shape a b c v H) by lia. simpl.
  rewrite index_in_range by lia. simpl.
  apply mapM_map. intros p Hp.
  apply In_nth_error in Hp as [n Hn].
  pose proof (has_shape3_plane _ H Hn) as Hs.
  apply mapM_map. intros row Hrow.
  apply In_nth_error in Hrow as [n' Hn'].
  rewrite (nth_error_nth' row d); [reflexivity|].
  rewrite (has_shape2_row _ Hs Hn'). lia.
Qed.

Lemma get2_index1 {a b c : nat} (v : vol A) {j : nat} (x z : nat) :
  has_shape3 a b c v = true -> j < b ->
  get2 (map (fun p => nth j p []) v) x z = get3 v x j z.
Proof.
  intros H Hj. unfold get2, get3. rewrite nth_error_map.
  destruct (nth_error v x) as [p|] eqn:Hp; simpl; [|reflexivity].
  pose proof (has_shape3_plane _ H Hp) as Hs.
  apply has_shape2_spec in Hs as [Hl _].
  unfold get2. rewrite (nth_error_nth' p []) by lia. reflexivity.
Qed.

Lemma get2_index2 {a b c : nat} (v : vol A) {k : nat} (x y : nat) (d : A) :
  has_shape3 a b c v = true -> k < c ->
  get2 (map (map (fun row => nth k row d)) v) x y = get3 v x y k.
Proof.
  intros H Hk. unfold get2, get3. rewrite nth_error_map.
  destruct (nth_error v x) as [p|] eqn:Hp; simpl; [|reflexivity].
  pose proof (has_shape3_plane _ H Hp) as Hs.
  unfold get2. rewrite nth_error_map.
  destruct (nth_error p y) as [row|] eqn:Hrow; simpl; [|reflexivity].
  rewrite (nth_error_nth' row d); [reflexivity|].
  rewrite (has_shape2_row _ Hs Hrow). lia.
Qed.

Lemma has_shape2_index1 {a b c : nat} (v : vol A) (j : nat) :
  has_shape3 a b c v = true -> j < b ->
  has_shape2 a c (map (fun p => nth j p []) v) = true.
Proof.
  intros H Hj. apply has_shape2_spec.
  pose proof H as H'. apply has_shape3_spec in H' as [Hl Hall].
  rewrite length_map. split; trivial.
  apply Forall_map. rewrite Forall_forall in *. intros p Hp.
  specialize (Hall p Hp). pose proof Hall as Hs.
  apply has_shape2_spec in Hs as [Hlp _].
  destruct (nth_error_lt_Some p j) as [row Hrow]; [lia|].
  rewrite (nth_error_nth p j [] Hrow).
  eapply has_shape2_row; eauto.
Qed.

Lemma has_shape2_index2 {a b c : nat} (v : vol A) (k : nat) (d : A) :
  has_shape3 a b c v = true ->
  has_shape2 a b (map (map (fun row => nth k row d)) v) = true.
Proof.
  intros H. apply has_shape2_spec.
  apply has_shape3_spec in H as [Hl Hall].
  rewrite length_map. split; trivial.
  apply Forall_map. rewrite Forall_forall in *. intros p Hp.
  specialize (Hall p Hp). apply has_shape2_spec in Hall as [Hlp _].
  now rewrite length_map.
Qed.

Lemma flip1_spec {r c : nat} {m : mat A} :
  has_shape2 r c m = true ->
  has_shape2 r c (flip1 m) = true /\
  forall i j, j < c -> get2 (flip1 m) i j = get2 m i (c - 1 - j).
Proof.
  intros H. split.
  - apply has_shape2_spec. apply has_shape2_spec in H as [Hl Hall].
    unfold flip1. rewrite length_map. split; trivial.
    apply Forall_map. rewrite Forall_forall in *. intros row Hrow.
    rewrite length_rev. auto.
  - intros i j Hj. unfold get2, flip1. rewrite nth_error_map.
    destruct (nth_error m i) as [row|] eqn:Hrow; simpl; [|reflexivity].
    rewrite nth_error_rev, (has_shape2_row _ H Hrow).
    destruct (j <? c) eqn:E; [|apply Nat.ltb_ge in E; lia].
    f_equal. lia.
Qed.

Lemma T_spec {r c : nat} {m : mat A} :
  has_shape2 r c m = true -> 1 <= r ->
  has_shape2 c r (T m) = true /\
  forall i j, j < c -> get2 (T m) j i = get2 m i j.
Proof.
  intros H Hr. pose proof H as H'. apply has_shape2_spec in H' as [Hl Hall].
  assert (Hw : length (hd [] m) = c).
  { destruct m as [|row m]; simpl in *; [lia|]. now inversion Hall. }
  unfold T. rewrite Hw.
  destruct (transpose_w_spec c m Hall) as [Hlen Hcols].
  split.
  - apply has_shape2_spec. split; trivial.
    apply Forall_forall. intros col Hcol.
    apply In_nth_error in Hcol as [j Hj].
    destruct (Hcols j) as (col' & Hc' & Hl' & _).
    { rewrite <- Hlen. eapply nth_error_Some_lt; eauto. }
    congruence.
  - intros i j Hj. destruct (Hcols j Hj) as (col & Hc & _ & Hget).
    unfold get2 at 1. rewrite Hc. apply Hget.
Qed.

Lemma hstack_spec {r c1 c2 : nat} {a b : mat A} :
  has_shape2 r c1 a = true -> has_shape2 r c2 b = true ->
  exists h, hstack a b = Ok h /\ has_shape2 r (c1 + c2) h = true /\
            forall i j, get2 h i j =
                        if j <? c1 then get2 a i j else get2 b i (j - c1).
Proof.
  intros Ha Hb. unfold hstack.
  pose proof Ha as Ha'. apply has_shape2_spec in Ha' as [Hla Halla].
  pose proof Hb as Hb'. apply has_shape2_spec in Hb' as [Hlb Hallb].
  rewrite Hla, Hlb, Nat.eqb_refl.
  eexists; split; [reflexivity|]. split.
  - apply has_shape2_spec. rewrite length_map, length_combine.
    split; [lia|]. apply Forall_map, Forall_forall.
    intros [x y] Hxy. rewrite length_app.
    rewrite Forall_forall in Halla, Hallb.
    rewrite (Halla x), (Hallb y); eauto using in_combine_l, in_combine_r.
  - intros i j. unfold get2. rewrite nth_error_map, nth_error_combine.
    destruct (nth_error a i) as [x|] eqn:Hx.
    + destruct (nth_error b i) as [y|] eqn:Hy; simpl.
      * pose proof (has_shape2_row _ Ha Hx) as Hlx.
        destruct (j <? c1) eqn:E.
        -- apply Nat.ltb_lt in E. apply nth_error_app1. lia.
        -- apply Nat.ltb_ge in E. rewrite nth_error_app2 by lia. now rewrite Hlx.
      * apply nth_error_None in Hy. apply nth_error_Some_lt in Hx. lia.
    + simpl. apply nth_error_None in Hx.
      destruct (j <? c1); trivial.
      destruct (nth_error b i) eqn:Hy; trivial.
      apply nth_error_Some_lt in Hy. lia.
Qed.

End PanelFacts.

(** ** The frames of the normal mosaic *)

Section MosaicFacts.
Context {A : Type}.

Lemma shape2_of_has_shape {r c : nat} {m : mat A} :
  has_shape2 r c m = true -> 1 <= r -> shape2 m = (r, c).
Proof.
  intros H Hr. unfold shape2.
  pose proof H as H'. apply has_shape2_spec in H' as [Hl _].
  destruct m as [|row m]; simpl in *; [lia|].
  rewrite (has_shape2_row 0 H eq_refl). congruence.
Qed.

Lemma panel_spec {n : nat} {p : mat A} :
  has_shape2 n n p = true -> 1 <= n ->
  has_shape2 n n (T (flip1 p)) = true /\
  forall r c, r < n -> get2 (T (flip1 p)) r c = get2 p c (n - 1 - r).
Proof.
  intros H Hn.
  destruct (flip1_spec H) as [Hf Hfg].
  destruct (T_spec Hf Hn) as [Ht Htg].
  split; trivial.
  intros r c Hr. rewrite Htg by trivial. now apply Hfg.
Qed.

Lemma mosaic_frame_spec (v : vol A) {n : nat} (i : Z) :
  is_cube n v = true -> (0 <= i < Z.of_nat n)%Z ->
  exists f, mosaic_frame v (Z.of_nat n) i = Ok f /\
            has_shape2 n (3 * n) f = true /\
            forall r c, r < n -> c < 3 * n ->
                        get2 f r c = expected_frame v n (Z.to_nat i) r c.
Proof.
  intros Hv Hi. unfold is_cube in Hv.
  assert (Hn : 1 <= n) by lia.
  destruct (get3_in_shape v 0 0 0 Hv) as [d _]; try lia.
  unfold mosaic_frame.
  destruct (index0_spec v i Hv Hi) as (p0 & -> & Hp0 & Hs0). cbn [Py.bind].
  rewrite (index1_spec v (Z.of_nat n - i - 1) Hv) by lia. cbn [Py.bind].
  set (j := Z.to_nat (Z.of_nat n - i - 1)).
  assert (Hj : j = n - 1 - Z.to_nat i) by lia.
  assert (Hjn : j < n) by lia.
  pose proof (has_shape2_index1 v j Hv Hjn) as Hs1.
  destruct (panel_spec Hs0 Hn) as [Hq0 Hg0].
  destruct (panel_spec Hs1 Hn) as [Hq1 Hg1].
  destruct (hstack_spec Hq0 Hq1) as (h & -> & Hh & Hgh). cbn [Py.bind].
  rewrite (index2_spec v (Z.of_nat n - i - 1) d Hv) by lia. cbn [Py.bind].
  fold j.
  pose proof (has_shape2_index2 v j d Hv) as Hs2.
  destruct (panel_spec Hs2 Hn) as [Hq2 Hg2].
  destruct (hstack_spec Hh Hq2) as (f & -> & Hf & Hgf).
  exists f. split; [reflexivity|]. split.
  - replace (3 * n) with (n + n + n) by lia. exact Hf.
  - intros r c Hr Hc. rewrite Hgf. unfold expected_frame, flip_transposed.
    destruct (c <? n + n) eqn:E1.
    + rewrite Hgh. destruct (c <? n) eqn:E2.
      * rewrite Hg0 by trivial. unfold get3. now rewrite Hp0.
      * apply Nat.ltb_lt in E1.
        replace (c <? 2 * n) with true by (symmetry; apply Nat.ltb_lt; lia).
        rewrite Hg1 by trivial.
        rewrite (get2_index1 v (c - n) (n - 1 - r) Hv Hjn). now rewrite Hj.
    + apply Nat.ltb_ge in E1.
      replace (c <? n) with false by (symmetry; apply Nat.ltb_ge; lia).
      replace (c <? 2 * n) with false by (symmetry; apply Nat.ltb_ge; lia).
      rewrite Hg2 by trivial.
      replace (c - (n + n)) with (c - 2 * n) by lia.
      rewrite (get2_index2 v (c - 2 * n) (n - 1 - r) d Hv Hjn). now rewrite Hj.
Qed.

Lemma array_of_frames_same_shape {r c : nat} {frames : list (mat A)} :
  1 <= r -> Forall (fun f => has_shape2 r c f = true) frames ->
  array_of_frames frames = Ok frames.
Proof.
  intros Hr Hall. unfold array_of_frames.
  destruct frames as [|f frames]; [reflexivity|].
  assert (Hf : has_shape2 r c f = true) by now inversion Hall.
  rewrite (shape2_of_has_shape Hf Hr). cbn [fst snd].
  rewrite (proj2 (forallb_forall _ _)); [reflexivity|].
  now apply Forall_forall.
Qed.

Lemma create_mosaic_normal_spec (v : vol A) (n : nat) (frameskip : Z) :
  is_cube n v = true -> 1 <= n -> (1 <= frameskip)%Z ->
  create_mosaic_normal v (Z.of_nat n) frameskip =
  Ok (map (fun t => frame_at v (Z.of_nat n) (Z.of_nat t * frameskip))
          (seq 0 (Z.to_nat (ceil_div (Z.of_nat n) frameskip)))).
Proof.
  intros Hv Hn Hfs. unfold create_mosaic_normal.
  rewrite range_spec by lia. simpl.
  assert (Hok : forall t, In t (seq 0 (Z.to_nat (ceil_div (Z.of_nat n) frameskip))) ->
                exists f, mosaic_frame v (Z.of_nat n) (Z.of_nat t * frameskip) = Ok f /\
                          has_shape2 n (3 * n) f = true).
  { intros t Ht. apply in_seq in Ht.
    destruct (mosaic_frame_spec v (Z.of_nat t * frameskip) Hv) as (f & Hf & Hs & _).
    - apply range_index_bound; lia.
    - eauto. }
  rewrite (mapM_map _ (frame_at v (Z.of_nat n))).
  - simpl. rewrite map_map.
    apply (array_of_frames_same_shape (r := n) (c := 3 * n)); trivial.
    apply Forall_map, Forall_forall. intros t Ht.
    destruct (Hok t Ht) as (f & Hf & Hs). unfold frame_at. now rewrite Hf.
  - intros i Hin. apply in_map_iff in Hin as (t & <- & Ht).
    destruct (Hok t Ht) as (f & Hf & _). unfold frame_at. now rewrite Hf.
Qed.

End MosaicFacts.

(** ** Slice assignment into a constant array *)

Lemma firstn_repeat {X : Type} (x : X) (k n : nat) :
  k <= n -> firstn k (repeat x n) = repeat x k.
Proof.
  revert n. induction k as [|k IH]; intros [|n] H; simpl; trivial; [lia|].
  f_equal. apply IH. lia.
Qed.

Lemma skipn_repeat {X : Type} (x : X) (k n : nat) :
  skipn k (repeat x n) = repeat x (n - k).
Proof.
  revert n. induction k as [|k IH]; intros [|n]; simpl; trivial.
Qed.

Lemma zipM_repeat {X Y : Type} (inner : X -> Y -> result X) (g : Y -> X)
      (z : X) (src : list Y) :
  (forall y, In y src -> inner z y = Ok (g y)) ->
  Py.zipM inner (repeat z (length src)) src = Ok (map g src).
Proof.
  induction src as [|y src IH]; intros H; simpl; [reflexivity|].
  rewrite H by now left. simpl.
  rewrite IH by (intros; apply H; now right). reflexivity.
Qed.

Lemma clip_in_range (n : nat) (i : Z) :
  (0 <= i <= Z.of_nat n)%Z -> Py.clip n i = Z.to_nat i.
Proof.
  intros H. unfold Py.clip.
  destruct (i <? 0)%Z eqn:E; [lia|]. f_equal. lia.
Qed.

Lemma assign_axis_repeat {X Y : Type} (inner : X -> Y -> result X) (g : Y -> X)
      (z : X) (n lo : nat) (src : list Y) :
  lo + length src <= n ->
  (forall y, In y src -> inner z y = Ok (g y)) ->
  assign_axis inner (repeat z n) (Z.of_nat lo) (Z.of_nat lo + Z.of_nat (length src)) src
  = Ok (pad_axis z n lo (map g src)).
Proof.
  intros Hle Hin. unfold assign_axis.
  rewrite repeat_length.
  rewrite !clip_in_range by lia.
  replace (Z.to_nat (Z.of_nat lo + Z.of_nat (length src)) - Z.to_nat (Z.of_nat lo))
    with (length src) by lia.
  rewrite Nat2Z.id, Nat.eqb_refl.
  rewrite skipn_repeat, firstn_repeat by lia.
  rewrite (zipM_repeat inner g z src Hin). simpl.
  rewrite skipn_repeat, firstn_repeat by lia.
  unfold pad_axis. rewrite length_map.
  replace (n - (lo + length src)) with (n - lo - length src) by lia.
  reflexivity.
Qed.

Lemma setitem3_embed {A B : Type} (cast : B -> A) (z : A) (n sx sy sz : nat)
      (a b c : nat) (data : vol B) :
  has_shape3 a b c data = true ->
  sx + a <= n -> sy + b <= n -> sz + c <= n ->
  setitem3 cast (full3 n n n z)
           (Z.of_nat sx) (Z.of_nat sx + Z.of_nat a)
           (Z.of_nat sy) (Z.of_nat sy + Z.of_nat b)
           (Z.of_nat sz) (Z.of_nat sz + Z.of_nat c) data
  = Ok (embed3 cast z n sx sy sz data).
Proof.
  intros Hd Hx Hy Hz.
  pose proof Hd as Hd'. apply has_shape3_spec in Hd' as [Hla Hall].
  unfold setitem3, full3, embed3. rewrite <- Hla.
  apply assign_axis_repeat; [lia|].
  intros p Hp. rewrite Forall_forall in Hall.
  pose proof (Hall p Hp) as Hs. pose proof Hs as Hs'.
  apply has_shape2_spec in Hs' as [Hlb Hrows].
  unfold full2. rewrite <- Hlb.
  apply assign_axis_repeat; [lia|].
  intros r Hr. rewrite Forall_forall in Hrows.
  rewrite <- (Hrows r Hr).
  apply assign_axis_repeat; [rewrite (Hrows r Hr); lia|].
  reflexivity.
Qed.

Lemma nth_error_pad_axis {X : Type} (z : X) (n before : nat) (mid : list X) (i : nat) :
  before + length mid <= n -> i < n ->
  nth_error (pad_axis z n before mid) i =
  if (before <=? i) && (i <? before + length mid)
  then nth_error mid (i - before) else Some z.
Proof.
  intros Hle Hi. unfold pad_axis.
  destruct (before <=? i) eqn:E1; simpl.
  - apply Nat.leb_le in E1.
    rewrite nth_error_app2; rewrite repeat_length; [|lia].
    destruct (i <? before + length mid) eqn:E2.
    + apply Nat.ltb_lt in E2. apply nth_error_app1. lia.
    + apply Nat.ltb_ge in E2. rewrite nth_error_app2 by lia.
      apply nth_error_repeat. lia.
  - apply Nat.leb_gt in E1. rewrite nth_error_app1 by (rewrite repeat_length; lia).
    now apply nth_error_repeat.
Qed.

Lemma length_pad_axis {X : Type} (z : X) (n before : nat) (mid : list X) :
  before + length mid <= n -> length (pad_axis z n before mid) = n.
Proof.
  intros H. unfold pad_axis. rewrite !length_app, !repeat_length. lia.
Qed.

Lemma has_shape2_full2 {A : Type} (r c : nat) (z : A) :
  has_shape2 r c (full2 r c z) = true.
Proof.
  apply has_shape2_spec. unfold full2. rewrite repeat_length. split; trivial.
  apply Forall_forall. intros row Hrow. apply repeat_spec in Hrow. subst.
  apply repeat_length.
Qed.

Lemma get2_full2 {A : Type} (r c : nat) (z : A) (i j : nat) :
  i < r -> j < c -> get2 (full2 r c z) i j = Some z.
Proof.
  intros Hi Hj. unfold get2, full2.
  rewrite nth_error_repeat by trivial. now apply nth_error_repeat.
Qed.

Lemma Forall_repeat {X : Type} (P : X -> Prop) (z : X) (n : nat) :
  P z -> Forall P (repeat z n).
Proof.
  intros Hz. apply Forall_forall. intros x Hx.
  apply repeat_spec in Hx. now subst.
Qed.

Lemma Forall_pad_axis {X : Type} (P : X -> Prop) (z : X) (n before : nat) (mid : list X) :
  P z -> Forall P mid -> Forall P (pad_axis z n before mid).
Proof.
  intros Hz Hm. unfold pad_axis.
  apply Forall_app. split; [now apply Forall_repeat|].
  apply Forall_app. split; [trivial|now apply Forall_repeat].
Qed.

Section EmbedFacts.
Context {A B : Type} (cast : B -> A) (z : A).
Context (n sx sy sz a b c : nat) (data : vol B).
Hypothesis Hdata : has_shape3 a b c data = true.
Hypothesis Hx : sx + a <= n.
Hypothesis Hy : sy + b <= n.
Hypothesis Hz : sz + c <= n.

Lemma is_cube_embed3 : is_cube n (embed3 cast z n sx sy sz data) = true.
Proof.
  pose proof Hdata as Hd. apply has_shape3_spec in Hd as [Hla Hall].
  apply has_shape3_spec. unfold embed3. split.
  - apply length_pad_axis. rewrite length_map. lia.
  - apply Forall_pad_axis; [apply has_shape2_full2|].
    apply Forall_map. rewrite Forall_forall in *. intros p Hp.
    specialize (Hall p Hp). apply has_shape2_spec in Hall as [Hlb Hrows].
    apply has_shape2_spec. split.
    + apply length_pad_axis. rewrite length_map. lia.
    + apply Forall_pad_axis; [apply repeat_length|].
      apply Forall_map. rewrite Forall_forall in *. intros r Hr.
      apply length_pad_axis. rewrite length_map, (Hrows r Hr). lia.
Qed.

Lemma get3_embed3 (i j k : nat) :
  i < n -> j < n -> k < n ->
  get3 (embed3 cast z n sx sy sz data) i j k =
  if inside sx a i && inside sy b j && inside sz c k
  then option_map cast (get3 data (i - sx) (j - sy) (k - sz))
  else Some z.
Proof.
  intros Hi Hj Hk.
  pose proof Hdata as Hd. apply has_shape3_spec in Hd as [Hla Hall].
  unfold get3 at 1, embed3, inside.
  rewrite nth_error_pad_axis by (rewrite ?length_map; lia).
  rewrite length_map, Hla.
  destruct ((sx <=? i) && (i <? sx + a)) eqn:Ei; simpl;
    [|now apply get2_full2].
  rewrite nth_error_map. unfold get3.
  apply andb_true_iff in Ei as [Ei1 Ei2].
  apply Nat.leb_le in Ei1. apply Nat.ltb_lt in Ei2.
  destruct (nth_error_lt_Some data (i - sx)) as [p Hp]; [lia|].
  rewrite Hp. simpl.
  pose proof (has_shape3_plane _ Hdata Hp) as Hs. pose proof Hs as Hs'.
  apply has_shape2_spec in Hs' as [Hlb Hrows].
  unfold get2 at 1.
  rewrite nth_error_pad_axis by (rewrite ?length_map; lia).
  rewrite length_map, Hlb.
  destruct ((sy <=? j) && (j <? sy + b)) eqn:Ej; simpl;
    [|now apply nth_error_repeat].
  rewrite nth_error_map. unfold get2.
  apply andb_true_iff in Ej as [Ej1 Ej2].
  apply Nat.leb_le in Ej1. apply Nat.ltb_lt in Ej2.
  destruct (nth_error_lt_Some p (j - sy)) as [r Hr]; [lia|].
  rewrite Hr. simpl.
  pose proof (has_shape2_row _ Hs Hr) as Hlc.
  rewrite nth_error_pad_axis by (rewrite ?length_map; lia).
  rewrite length_map, Hlc.
  destruct ((sz <=? k) && (k <? sz + c)) eqn:Ek; simpl; [|reflexivity].
  apply nth_error_map.
Qed.

End EmbedFacts.

(* ===================================================================== *)
(** * Facts about the float layer                                         *)
(* ===================================================================== *)

(** Integers below [2 ^ 53] convert to [float64] without rounding, and a
    product with [1.0] or a quotient by [-2.0] of such a value is exact.
    The extents of an array are of this kind: NumPy holds at most
    [2 ^ 63] bytes in one array. *)

Lemma iter_pos_iter {X : Type} (f : X -> X) (p : positive) (x : X) :
  iter_pos f p x = Pos.iter f x p.
Proof.
  revert x. induction p as [p IH|p IH|]; intros x; simpl.
  - rewrite !IH. now rewrite <- !Pos.iter_swap.
  - now rewrite !IH.
  - reflexivity.
Qed.

Lemma Zpos_iter_xO (p k : positive) :
  Zpos (Pos.iter xO p k) = (Zpos p * 2 ^ Zpos k)%Z.
Proof.
  rewrite <- Z.shiftl_mul_pow2 by lia. simpl.
  apply (Pos.iter_swap_gen _ _ Zpos xO (Z.mul 2)). reflexivity.
Qed.

Lemma digits2_iter_xO (p k : positive) :
  digits2_pos (Pos.iter xO p k) = (digits2_pos p + k)%positive.
Proof.
  induction k as [|k IH] using Pos.peano_ind.
  - simpl. lia.
  - rewrite Pos.iter_succ. simpl. rewrite IH. lia.
Qed.

Lemma shr_iter_xO (m k : positive) :
  Pos.iter shr_1 (Build_shr_record (Zpos (Pos.iter xO m k)) false false) k =
  Build_shr_record (Zpos m) false false.
Proof.
  induction k as [|k IH] using Pos.peano_ind.
  - reflexivity.
  - rewrite Pos.iter_succ_r, Pos.iter_succ. simpl. exact IH.
Qed.

Lemma digits2_bounds (p : positive) :
  (2 ^ (Zpos (digits2_pos p) - 1) <= Zpos p < 2 ^ Zpos (digits2_pos p))%Z.
Proof.
  induction p as [p IH|p IH|]; simpl digits2_pos.
  - rewrite Pos2Z.inj_succ.
    replace (Z.succ (Zpos (digits2_pos p)) - 1)%Z with (Z.succ (Zpos (digits2_pos p) - 1)) by lia.
    rewrite !Z.pow_succ_r by lia. lia.
  - rewrite Pos2Z.inj_succ.
    replace (Z.succ (Zpos (digits2_pos p)) - 1)%Z with (Z.succ (Zpos (digits2_pos p) - 1)) by lia.
    rewrite !Z.pow_succ_r by lia. lia.
  - simpl. lia.
Qed.

Section Round.
Variables prec emax : Z.
Hypothesis Hprec : (0 < prec)%Z.

(** A mantissa of [prec] digits followed by [k] zero bits rounds to
    itself. *)
Lemma binary_round_aux_shifted (s : bool) (m k : positive) (e : Z) :
  Zpos (digits2_pos m) = prec ->
  (emin prec emax <= e + Zpos k <= emax - prec)%Z ->
  binary_round_aux prec emax s (Zpos (Pos.iter xO m k)) e loc_Exact =
  S754_finite s m (e + Zpos k).
Proof.
  intros Hd He. unfold binary_round_aux.
  assert (H1 : shr_fexp prec emax (Zpos (Pos.iter xO m k)) e loc_Exact =
               (Build_shr_record (Zpos m) false false, (e + Zpos k)%Z)).
  { unfold shr_fexp, fexp. simpl Zdigits2. rewrite digits2_iter_xO.
    rewrite Pos2Z.inj_add, Hd.
    replace (Z.max (prec + Zpos k + e - prec) (emin prec emax) - e)%Z with (Zpos k) by lia.
    unfold shr. rewrite iter_pos_iter. simpl shr_record_of_loc.
    now rewrite shr_iter_xO. }
  rewrite H1. cbn [shr_m loc_of_shr_record round_nearest_even].
  assert (H2 : shr_fexp prec emax (Zpos m) (e + Zpos k) loc_Exact =
               (Build_shr_record (Zpos m) false false, (e + Zpos k)%Z)).
  { unfold shr_fexp, fexp. simpl Zdigits2. rewrite Hd.
    replace (Z.max (prec + (e + Zpos k) - prec) (emin prec emax) - (e + Zpos k))%Z with 0%Z by lia.
    reflexivity. }
  rewrite H2. cbn [shr_m].
  destruct (e + Zpos k <=? emax - prec)%Z eqn:E; [reflexivity|lia].
Qed.

Lemma binary_round_aux_exact (s : bool) (m : positive) (e : Z) :
  Zpos (digits2_pos m) = prec ->
  (emin prec emax <= e <= emax - prec)%Z ->
  binary_round_aux prec emax s (Zpos m) e loc_Exact = S754_finite s m e.
Proof.
  intros Hd He. unfold binary_round_aux.
  assert (H2 : shr_fexp prec emax (Zpos m) e loc_Exact =
               (Build_shr_record (Zpos m) false false, e)).
  { unfold shr_fexp, fexp. simpl Zdigits2. rewrite Hd.
    replace (Z.max (prec + e - prec) (emin prec emax) - e)%Z with 0%Z by lia.
    reflexivity. }
  rewrite H2. cbn [shr_m loc_of_shr_record round_nearest_even]. rewrite H2. cbn [shr_m].
  destruct (e <=? emax - prec)%Z eqn:E; [reflexivity|lia].
Qed.
End Round.

Lemma binary_round_integer (s : bool) (p : positive) :
  (Zpos p < 2 ^ 53)%Z ->
  exists m e, binary_round Fl.prec64 Fl.emax64 s p 0 = S754_finite s m e /\ holds p m e.
Proof.
  intros Hp.
  pose proof (digits2_bounds p) as [Hlo Hhi].
  assert (Hd : (Zpos (digits2_pos p) <= 53)%Z).
  { destruct (Z_le_gt_dec (Zpos (digits2_pos p)) 53) as [|Hgt]; trivial.
    assert (2 ^ 53 <= 2 ^ (Zpos (digits2_pos p) - 1))%Z
      by (apply Z.pow_le_mono_r; lia). lia. }
  unfold binary_round, shl_align.
  replace (fexp Fl.prec64 Fl.emax64 (Zpos (digits2_pos p) + 0) - 0)%Z
    with (Zpos (digits2_pos p) - 53)%Z
    by (unfold fexp, emin, Fl.prec64, Fl.emax64; lia).
  replace (fexp Fl.prec64 Fl.emax64 (Zpos (digits2_pos p) + 0))
    with (Zpos (digits2_pos p) - 53)%Z
    by (unfold fexp, emin, Fl.prec64, Fl.emax64; lia).
  destruct (Zpos (digits2_pos p) - 53)%Z as [|q|q] eqn:E; [|lia|].
  - exists p, 0%Z. split.
    + apply binary_round_aux_exact; unfold emin, Fl.prec64, Fl.emax64; lia.
    + unfold holds. repeat split; try lia.
  - exists (Pos.iter xO p q), (Zneg q). split.
    + rewrite <- E. apply binary_round_aux_exact.
      * rewrite digits2_iter_xO, Pos2Z.inj_add. unfold Fl.prec64. lia.
      * unfold emin, Fl.prec64, Fl.emax64. lia.
    + unfold holds. rewrite digits2_iter_xO, Pos2Z.inj_add, Zpos_iter_xO.
      repeat split; try lia.
Qed.

Lemma mul_one_exact (s : bool) (m : positive) (e : Z) :
  Zpos (digits2_pos m) = 53%Z -> (-52 <= e <= 0)%Z ->
  SFmul Fl.prec64 Fl.emax64 (S754_finite s m e) (binary_round Fl.prec64 Fl.emax64 false 1 0)
  = S754_finite s m e.
Proof.
  intros Hd He.
  change (binary_round Fl.prec64 Fl.emax64 false 1 0)
    with (S754_finite false 4503599627370496 (-52)).
  unfold SFmul. rewrite xorb_false_r.
  rewrite Pos.mul_comm.
  change (4503599627370496 * m)%positive with (Pos.iter xO m 52).
  replace e with (e + -52 + 52)%Z at 2 by lia.
  apply binary_round_aux_shifted; unfold emin, Fl.prec64, Fl.emax64; lia.
Qed.

Lemma div_minus_two_exact (s : bool) (m : positive) (e : Z) :
  Zpos (digits2_pos m) = 53%Z -> (-52 <= e <= 0)%Z ->
  SFdiv Fl.prec64 Fl.emax64 (S754_finite s m e) (binary_round Fl.prec64 Fl.emax64 true 2 0)
  = S754_finite (negb s) m (e - 1).
Proof.
  intros Hd He.
  change (binary_round Fl.prec64 Fl.emax64 true 2 0)
    with (S754_finite true 4503599627370496 (-51)).
  unfold SFdiv, SFdiv_core_binary. rewrite xorb_true_r.
  simpl Zdigits2. rewrite Hd.
  change (Zpos (digits2_pos 4503599627370496)) with 53%Z.
  replace (Z.min (fexp Fl.prec64 Fl.emax64 (53 + e - (53 + -51))) (e - -51))
    with (e - 2)%Z by (unfold fexp, emin, Fl.prec64, Fl.emax64; lia).
  replace (e - -51 - (e - 2))%Z with 53%Z by lia.
  rewrite Z.shiftl_mul_pow2 by lia.
  pose proof (Z_div_mod (Zpos m * 2 ^ 53) 4503599627370496 eq_refl) as Hdm.
  destruct (Z.div_eucl (Zpos m * 2 ^ 53) 4503599627370496) as [q r].
  assert (Hq : q = Zpos (xO m) /\ r = 0%Z).
  { destruct Hdm as [Heq Hr].
    change (2 ^ 53)%Z with (2 * 4503599627370496)%Z in Heq.
    assert (r = 4503599627370496 * (2 * Zpos m - q))%Z by lia.
    assert (2 * Zpos m - q = 0)%Z by nia. split; lia. }
  destruct Hq as [-> ->].
  change (new_location 4503599627370496 0) with loc_Exact.
  change (Zpos m~0) with (Zpos (Pos.iter xO m 1)).
  replace (e - 1)%Z with (e - 2 + 1)%Z by lia.
  apply binary_round_aux_shifted; unfold emin, Fl.prec64, Fl.emax64; lia.
Qed.

Lemma trunc_holds (s : bool) {n m : positive} {e : Z} :
  holds n m e -> Fl.trunc s m e = cond_Zopp s (Zpos n).
Proof.
  intros (_ & He & Hm). unfold Fl.trunc. f_equal.
  destruct e as [|q|q]; [| lia |].
  - simpl in Hm. lia.
  - rewrite Hm. change (- Zneg q)%Z with (Zpos q).
    apply Z.div_mul. apply Z.pow_nonzero; lia.
Qed.

Lemma trunc_half (s : bool) {n m : positive} {e : Z} :
  holds n m e -> Fl.trunc s m (e - 1) = cond_Zopp s (Zpos n / 2).
Proof.
  intros (_ & He & Hm). unfold Fl.trunc. f_equal.
  destruct (e - 1)%Z as [|q|q] eqn:E; [lia | lia |].
  rewrite Hm.
  replace (Zpos q) with (1 + - e)%Z by lia.
  rewrite Z.pow_add_r by lia. change (2 ^ 1)%Z with 2%Z.
  apply Z.div_mul_cancel_r; [lia|]. apply Z.pow_nonzero; lia.
Qed.

Lemma SFmul_comm (prec emax : Z) (x y : spec_float) :
  SFmul prec emax x y = SFmul prec emax y x.
Proof.
  destruct x as [sx|sx| |sx mx ex], y as [sy|sy| |sy my ey]; simpl;
    try reflexivity; try (now rewrite xorb_comm).
  now rewrite (xorb_comm sx sy), (Pos.mul_comm mx my), (Z.add_comm ex ey).
Qed.

Lemma legacy_start_exact (maximum dim : Z) :
  (0 <= dim <= maximum)%Z -> (maximum < 2 ^ 53)%Z ->
  legacy_start maximum dim = Ok ((maximum - dim) / 2)%Z.
Proof.
  intros Hd Hm. unfold legacy_start, Fl.div64, Fl.f64_of_Z, Fl.of_Z.
  destruct (dim - maximum)%Z as [|p|p] eqn:E; [| lia |].
  - replace (maximum - dim)%Z with 0%Z by lia. reflexivity.
  - replace (maximum - dim)%Z with (Zpos p) by lia.
    cbn [binary_normalize].
    destruct (binary_round_integer true p) as (m & e & -> & Hh); [lia|].
    pose proof Hh as (Hdg & He & _).
    rewrite (div_minus_two_exact true m e Hdg He).
    cbn [Fl.py_int negb]. now rewrite (trunc_half false Hh).
Qed.

Lemma int_times_size_one (maximum : Z) :
  (0 <= maximum < 2 ^ 53)%Z ->
  Fl.int_times_size maximum (Fl.PyFloat Fl.one) = Ok maximum.
Proof.
  intros Hm. unfold Fl.int_times_size, Fl.mul64, Fl.one, Fl.f64_of_Z, Fl.of_Z.
  destruct maximum as [|p|p]; [reflexivity | | lia].
  cbn [binary_normalize].
  destruct (binary_round_integer false p) as (m & e & -> & Hh); [lia|].
  pose proof Hh as (Hdg & He & _).
  rewrite (mul_one_exact false m e Hdg He).
  cbn [Fl.py_int]. now rewrite (trunc_holds false Hh).
Qed.

Lemma ne_one_float (f : spec_float) :
  Fl.ne_one (Fl.PyFloat f) = false -> f = Fl.one.
Proof.
  unfold Fl.ne_one, SFeqb. intros H. apply negb_false_iff in H.
  change Fl.one with (S754_finite false 4503599627370496 (-52)) in *.
  destruct f as [s|s| |s m e]; cbn [SFcompare] in H; try discriminate.
  - destruct s; discriminate.
  - destruct s; [discriminate|].
    destruct (e ?= -52)%Z eqn:Ee; try discriminate.
    apply Z.compare_eq in Ee. subst e.
    destruct (Pos.compare_cont Eq m 4503599627370496) eqn:Em; try discriminate.
    apply Pos.compare_eq in Em. now subst m.
Qed.

Lemma int_size_times_comm (size : Fl.pynum) (maximum : Z) :
  Fl.int_size_times size maximum = Fl.int_times_size maximum size.
Proof.
  destruct size as [z|f]; simpl.
  - now rewrite Z.mul_comm.
  - unfold Fl.mul64. now rewrite SFmul_comm.
Qed.

(* ===================================================================== *)
(** * Facts about the loaders                                             *)
(* ===================================================================== *)

Lemma centre_fits (n d : nat) : d <= n -> centre n d + d <= n.
Proof.
  intros H. unfold centre.
  pose proof (Nat.Div0.div_le_upper_bound (n - d) 2 (n - d)). lia.
Qed.

Lemma isotropic_start_centre (n d : nat) :
  d <= n -> isotropic_start (Z.of_nat n) (Z.of_nat d) = Z.of_nat (centre n d).
Proof.
  intros H. unfold isotropic_start, centre.
  rewrite Nat2Z.inj_div, Nat2Z.inj_sub by trivial. reflexivity.
Qed.

Lemma legacy_start_centre (n d : nat) :
  d <= n -> (Z.of_nat n < 2 ^ 53)%Z ->
  legacy_start (Z.of_nat n) (Z.of_nat d) = Ok (Z.of_nat (centre n d)).
Proof.
  intros H Hn. rewrite legacy_start_exact by lia.
  now rewrite <- isotropic_start_centre.
Qed.

Section PadFacts.
Context (a b c : nat) (data : vol spec_float).
Hypothesis Hdata : has_shape3 a b c data = true.
Hypothesis Ha : 1 <= a.
Hypothesis Hb : 1 <= b.
Hypothesis Hc : 1 <= c.

Let n := cube_side a b c.

Lemma pad_to_cube_isotropic_spec :
  pad_to_cube_isotropic data =
  Ok (embed3 Fl.to_f32 Fl.pzero n (centre n a) (centre n b) (centre n c) data,
      Z.of_nat n).
Proof.
  unfold pad_to_cube_isotropic.
  rewrite (shape3_of_has_shape a b c data Hdata Ha Hb).
  fold (cube_side a b c). fold n.
  assert (a <= n /\ b <= n /\ c <= n) as (Han & Hbn & Hcn)
      by (unfold n, cube_side; lia).
  rewrite !isotropic_start_centre by trivial.
  rewrite (setitem3_embed Fl.to_f32 Fl.pzero n _ _ _ a b c data Hdata);
    auto using centre_fits.
Qed.

Lemma pad_to_cube_legacy_spec :
  (Z.of_nat n < 2 ^ 53)%Z ->
  pad_to_cube_legacy data =
  Ok (embed3 (fun v => v) Fl.pzero n (centre n a) (centre n b) (centre n c) data,
      Z.of_nat n).
Proof.
  intros Hn. unfold pad_to_cube_legacy.
  rewrite (shape3_of_has_shape a b c data Hdata Ha Hb).
  fold (cube_side a b c). fold n.
  assert (a <= n /\ b <= n /\ c <= n) as (Han & Hbn & Hcn)
      by (unfold n, cube_side; lia).
  rewrite !legacy_start_centre by trivial. cbn [Py.bind].
  rewrite !(Z.add_comm (Z.of_nat _) (Z.of_nat (centre n _))).
  rewrite (setitem3_embed (fun v => v) Fl.pzero n _ _ _ a b c data Hdata);
    auto using centre_fits.
Qed.

End PadFacts.

Lemma amax_nonempty {n : nat} (v : vol spec_float) :
  is_cube n v = true -> 1 <= n -> exists m, amax v = Ok m.
Proof.
  intros Hv Hn. unfold amax, ravel.
  destruct (get3_in_shape v 0 0 0 Hv) as [x Hx]; try lia.
  unfold get3, get2 in Hx.
  destruct v as [|[|[|y r] p] v]; simpl in Hx; try discriminate.
  simpl. eauto.
Qed.

Lemma rescale_returns {n : nat} (v : vol spec_float) :
  is_cube n v = true -> 1 <= n ->
  (exists w, rescale64 v = Ok w /\ is_cube n w = true) /\
  (exists w, rescale32 v = Ok w /\ is_cube n w = true).
Proof.
  intros Hv Hn. destruct (amax_nonempty v Hv Hn) as [m Hm].
  unfold rescale64, rescale32. rewrite Hm. cbn [Py.bind].
  split; eexists; (split; [reflexivity|]);
    unfold is_cube; now rewrite has_shape3_map3.
Qed.

Section LoaderFacts.
Context {L : Libraries}.
Context (a b c : nat) (data : vol spec_float).
Hypothesis Hdata : has_shape3 a b c data = true.
Hypothesis Ha : 1 <= a.
Hypothesis Hb : 1 <= b.
Hypothesis Hc : 1 <= c.

Let n := cube_side a b c.

Lemma side_positive : 1 <= n.
Proof. unfold n, cube_side. lia. Qed.

Lemma legacy_returns_cube (size : Fl.pynum) (out : vol pixel) (m : Z) :
  (Z.of_nat n < 2 ^ 53)%Z ->
  load_and_prepare_image data size = Ok (out, m) ->
  (0 <= m)%Z /\ is_cube (Z.to_nat m) out = true.
Proof.
  intros Hn. unfold load_and_prepare_image.
  rewrite (pad_to_cube_legacy_spec a b c data Hdata Ha Hb Hc Hn).
  fold n. cbn [Py.bind].
  pose proof (is_cube_embed3 (fun v => v) Fl.pzero n (centre n a) (centre n b)
                (centre n c) a b c data Hdata) as Hcube.
  assert (a <= n /\ b <= n /\ c <= n) as (Han & Hbn & Hcn)
      by (unfold n, cube_side; lia).
  specialize (Hcube (centre_fits n a Han) (centre_fits n b Hbn) (centre_fits n c Hcn)).
  destruct (rescale_returns _ Hcube side_positive) as [(w & -> & Hw) _].
  cbn [Py.bind].
  destruct (Fl.ne_one size) eqn:Hs.
  - rewrite int_size_times_comm.
    destruct (Fl.int_times_size (Z.of_nat n) size) as [k|] eqn:Hk;
      cbn [Py.bind]; [|discriminate].
    destruct (resize false (map3 Fl.astype_uint8 w) k) as [r|] eqn:Hr;
      cbn [Py.bind]; [|discriminate].
    intros [= <- <-].
    apply resize_shape in Hr as [Hk0 Hr]. split; trivial.
    unfold is_cube. now rewrite has_shape3_map3.
  - cbn [Py.bind].
    assert (Hm : Fl.int_times_size (Z.of_nat n) size = Ok (Z.of_nat n)).
    { destruct size as [z|f].
      - simpl in Hs. apply negb_false_iff, Z.eqb_eq in Hs. subst z.
        simpl. now rewrite Z.mul_1_r.
      - apply ne_one_float in Hs. subst f.
        apply int_times_size_one. lia. }
    rewrite Hm. cbn [Py.bind]. intros [= <- <-].
    split; [lia|]. rewrite Nat2Z.id.
    unfold is_cube. now rewrite !has_shape3_map3.
Qed.

Lemma isotropic_returns_cube (size : Fl.pynum) (out : vol Z) (m : Z) :
  prepare_isotropic data size = Ok (out, m) ->
  (0 <= m)%Z /\ is_cube (Z.to_nat m) out = true.
Proof.
  unfold prepare_isotropic.
  rewrite (pad_to_cube_isotropic_spec a b c data Hdata Ha Hb Hc).
  fold n. cbn [Py.bind].
  pose proof (is_cube_embed3 Fl.to_f32 Fl.pzero n (centre n a) (centre n b)
                (centre n c) a b c data Hdata) as Hcube.
  assert (a <= n /\ b <= n /\ c <= n) as (Han & Hbn & Hcn)
      by (unfold n, cube_side; lia).
  specialize (Hcube (centre_fits n a Han) (centre_fits n b Hbn) (centre_fits n c Hcn)).
  destruct (rescale_returns _ Hcube side_positive) as [_ (w & -> & Hw)].
  cbn [Py.bind].
  destruct (Fl.ne_one size) eqn:Hs.
  - destruct (Fl.int_size_times size (Z.of_nat n)) as [k|] eqn:Hk;
      cbn [Py.bind]; [|discriminate].
    destruct (resize true (map3 Fl.astype_uint8 w) k) as [r|] eqn:Hr;
      cbn [Py.bind]; [|discriminate].
    intros [= <- <-].
    apply resize_shape in Hr as [Hk0 Hr]. split; [lia|].
    rewrite Nat2Z.id.
    pose proof Hr as Hr'. apply has_shape3_spec in Hr' as [Hl _].
    replace (length (map3 Fl.astype_uint8 r)) with (Z.to_nat k)
      by (unfold map3; now rewrite length_map).
    unfold is_cube. now rewrite has_shape3_map3.
  - intros [= <- <-]. split; [lia|]. rewrite Nat2Z.id.
    unfold is_cube. now rewrite has_shape3_map3.
Qed.

End LoaderFacts.

(** ** Volumes whose maximum is zero *)

Lemma klass_zero (x : spec_float) : Fl.is_zero x = true <-> klass x = 1.
Proof.
  destruct x as [s|s| |s m e]; simpl; split; intros H;
    try reflexivity; try discriminate; destruct s; discriminate.
Qed.

Lemma klass_maximum (x y : spec_float) :
  klass (Fl.maximum x y) = Nat.max (klass x) (klass y).
Proof.
  unfold Fl.maximum, SFltb.
  destruct x as [sx|sx| |sx mx ex], y as [sy|sy| |sy my ey];
    try destruct sx; try destruct sy; cbn [Fl.is_nan SFcompare klass Nat.max];
    try reflexivity;
    destruct (ex ?= ey)%Z; try reflexivity;
    destruct (Pos.compare_cont Eq mx my); reflexivity.
Qed.

Lemma klass_fold_maximum (t : list spec_float) (x : spec_float) :
  klass (fold_left Fl.maximum t x) = list_max (map klass (x :: t)).
Proof.
  revert x. induction t as [|y t IH]; intros x; simpl.
  - lia.
  - rewrite IH. simpl. rewrite klass_maximum. lia.
Qed.

Lemma klass_amax (v : vol spec_float) {m : spec_float} :
  amax v = Ok m -> klass m = list_max (map klass (ravel v)).
Proof.
  unfold amax. destruct (ravel v) as [|x t]; [discriminate|].
  intros [= <-]. apply klass_fold_maximum.
Qed.

Lemma list_max_one_inv (l : list nat) :
  list_max l = 1 -> Forall (fun k => k <= 1) l /\ In 1 l.
Proof.
  intros H. split.
  - apply list_max_le. lia.
  - induction l as [|k l IH]; simpl in *; [discriminate|].
    destruct (Nat.max_spec k (list_max l)) as [[_ E]|[_ E]]; rewrite E in H; auto.
Qed.

Lemma list_max_one (l : list nat) :
  Forall (fun k => k <= 1) l -> In 1 l -> list_max l = 1.
Proof.
  intros Hle Hin. apply list_max_le in Hle.
  assert (Hge : Forall (fun k => k <= list_max l) l) by now apply list_max_le.
  rewrite Forall_forall in Hge. specialize (Hge 1 Hin). lia.
Qed.

Lemma ravel_map3 {A B : Type} (f : A -> B) (v : vol A) :
  ravel (map3 f v) = map f (ravel v).
Proof.
  unfold ravel, map3, map2. now rewrite !concat_map.
Qed.

Lemma In_pad_axis_mid {X : Type} (z : X) (n before : nat) (mid : list X) (x : X) :
  In x mid -> In x (pad_axis z n before mid).
Proof.
  intros H. unfold pad_axis. apply in_or_app. right. apply in_or_app. now left.
Qed.

Lemma In_pad_axis_inv {X : Type} (z : X) (n before : nat) (mid : list X) (x : X) :
  In x (pad_axis z n before mid) -> x = z \/ In x mid.
Proof.
  unfold pad_axis. intros H.
  apply in_app_or in H as [H|H]; [left; now apply repeat_spec in H|].
  apply in_app_or in H as [H|H]; [now right|left; now apply repeat_spec in H].
Qed.

Section RavelEmbed.
Context {A B : Type} (cast : B -> A) (z : A) (n sx sy sz : nat) (data : vol B).

Lemma In_ravel_embed3 (x : B) :
  In x (ravel data) -> In (cast x) (ravel (embed3 cast z n sx sy sz data)).
Proof.
  unfold ravel. intros H.
  apply in_concat in H as (row & Hrow & Hx).
  apply in_concat in Hrow as (p & Hp & Hrow).
  apply in_concat.
  exists (pad_axis z n sz (map cast row)). split.
  - apply in_concat.
    exists (pad_axis (repeat z n) n sy
              (map (fun r => pad_axis z n sz (map cast r)) p)).
    split.
    + unfold embed3. apply In_pad_axis_mid.
      now apply (in_map (fun p =>
                 pad_axis (repeat z n) n sy
                   (map (fun r => pad_axis z n sz (map cast r)) p))).
    + apply In_pad_axis_mid.
      now apply (in_map (fun r => pad_axis z n sz (map cast r))).
  - apply In_pad_axis_mid. now apply in_map.
Qed.

Lemma In_ravel_embed3_inv (y : A) :
  In y (ravel (embed3 cast z n sx sy sz data)) ->
  y = z \/ exists x, In x (ravel data) /\ y = cast x.
Proof.
  unfold ravel. intros H.
  apply in_concat in H as (row & Hrow & Hy).
  apply in_concat in Hrow as (p & Hp & Hrow).
  unfold embed3 in Hp. apply In_pad_axis_inv in Hp as [->|Hp].
  - left. unfold full2 in Hrow. apply repeat_spec in Hrow. subst row.
    now apply repeat_spec in Hy.
  - apply in_map_iff in Hp as (p0 & <- & Hp0).
    apply In_pad_axis_inv in Hrow as [->|Hrow];
      [left; now apply repeat_spec in Hy|].
    apply in_map_iff in Hrow as (r0 & <- & Hr0).
    apply In_pad_axis_inv in Hy as [->|Hy]; [now left|].
    apply in_map_iff in Hy as (x & <- & Hx).
    right. exists x. split; trivial.
    apply in_concat. exists r0. split; trivial.
    apply in_concat. eauto.
Qed.

End RavelEmbed.

(** A mantissa stays non-negative through the shifts of a rounding. *)
Lemma shr_1_nonneg (mrs : shr_record) :
  (0 <= shr_m mrs)%Z -> (0 <= shr_m (shr_1 mrs))%Z.
Proof.
  destruct mrs as [m r s]. simpl.
  destruct m as [|[p|p|]|p]; simpl; lia.
Qed.

Lemma shr_nonneg (mrs : shr_record) (e k : Z) :
  (0 <= shr_m mrs)%Z -> (0 <= shr_m (fst (shr mrs e k)))%Z.
Proof.
  intros H. unfold shr. destruct k as [|p|p]; simpl; trivial.
  rewrite iter_pos_iter. apply Pos.iter_invariant; trivial.
  intros x. apply shr_1_nonneg.
Qed.

Lemma shr_fexp_nonneg (prec emax m e : Z) (l : location) :
  (0 <= m)%Z -> (0 <= shr_m (fst (shr_fexp prec emax m e l)))%Z.
Proof.
  intros H. unfold shr_fexp. apply shr_nonneg.
  destruct l as [|[| |]]; simpl; lia.
Qed.

Lemma klass_binary_round_aux (prec emax : Z) (m : positive) (e : Z) (l : location) :
  klass (binary_round_aux prec emax true (Zpos m) e l) <= 1.
Proof.
  unfold binary_round_aux.
  pose proof (shr_fexp_nonneg prec emax (Zpos m) e l) as H1.
  destruct (shr_fexp prec emax (Zpos m) e l) as [mrs' e'].
  simpl fst in H1. specialize (H1 ltac:(lia)).
  set (m1 := round_nearest_even (shr_m mrs') (loc_of_shr_record mrs')).
  assert (Hm1 : (0 <= m1)%Z).
  { unfold m1, round_nearest_even.
    destruct (loc_of_shr_record mrs') as [|[| |]]; try lia.
    destruct (Z.even (shr_m mrs')); lia. }
  pose proof (shr_fexp_nonneg prec emax m1 e' loc_Exact Hm1) as H2.
  destruct (shr_fexp prec emax m1 e' loc_Exact) as [mrs'' e''].
  simpl fst in H2.
  destruct (shr_m mrs'') as [|q|q]; [simpl; lia | | lia].
  destruct (e'' <=? emax - prec)%Z; simpl; lia.
Qed.

Lemma klass_to_f32 (x : spec_float) :
  (klass x <= 1 -> klass (Fl.to_f32 x) <= 1) /\
  (klass x = 1 -> klass (Fl.to_f32 x) = 1).
Proof.
  destruct x as [s|s| |s m e]; try destruct s;
    cbn [klass Fl.to_f32]; split; intros H; trivial; try lia.
  unfold binary_round.
  destruct (shl_align m e _) as [mz ez]. apply klass_binary_round_aux.
Qed.

Lemma mul_infinity_special (prec emax : Z) (x : spec_float) (s : bool) :
  let y := SFmul prec emax x (S754_infinity s) in
  Fl.is_nan y || Fl.is_inf y = true.
Proof. destruct x; reflexivity. Qed.

Lemma factor_of_zero (m : spec_float) :
  Fl.is_zero m = true ->
  Fl.is_inf (Fl.div64 (Fl.f64_of_Z 255) m) = true /\
  Fl.is_inf (Fl.div32 (Fl.f32_of_Z 255) m) = true.
Proof.
  destruct m as [s|s| |s mm e]; try discriminate. intros _.
  split; reflexivity.
Qed.

(** The padded cube of a volume whose maximum is a zero has a zero as its
    maximum too. *)
Lemma amax_embed3_zero (cast : spec_float -> spec_float)
      (n sx sy sz a b c : nat) (data : vol spec_float) (m : spec_float) :
  (forall x, (klass x <= 1 -> klass (cast x) <= 1) /\
             (klass x = 1 -> klass (cast x) = 1)) ->
  has_shape3 a b c data = true ->
  sx + a <= n -> sy + b <= n -> sz + c <= n -> 1 <= n ->
  amax data = Ok m -> Fl.is_zero m = true ->
  exists m', amax (embed3 cast Fl.pzero n sx sy sz data) = Ok m' /\
             Fl.is_zero m' = true.
Proof.
  intros Hcast Hd Hx Hy Hz Hn Hm Hzero.
  pose proof (is_cube_embed3 cast Fl.pzero n sx sy sz a b c data Hd Hx Hy Hz) as Hcube.
  destruct (amax_nonempty _ Hcube Hn) as [m' Hm'].
  exists m'. split; trivial.
  apply klass_zero. rewrite (klass_amax _ Hm').
  apply klass_zero in Hzero. rewrite (klass_amax _ Hm) in Hzero.
  apply list_max_one_inv in Hzero as [Hle Hin].
  rewrite Forall_forall in Hle.
  apply in_map_iff in Hin as (x0 & Hk0 & Hx0).
  apply list_max_one.
  - apply Forall_forall. intros k Hk.
    apply in_map_iff in Hk as (y & <- & Hy').
    apply In_ravel_embed3_inv in Hy' as [->|(x & Hxin & ->)]; [simpl; lia|].
    apply (proj1 (Hcast x)). apply Hle. now apply in_map.
  - apply in_map_iff. exists (cast x0). split.
    + now apply (proj2 (Hcast x0)).
    + now apply In_ravel_embed3.
Qed.

(** ** Frames with a channel axis *)

Section RollFacts.
Context {A : Type}.

Lemma roll_spec (k h w : nat) (s : vol A) :
  has_shape3 k h w s = true -> 1 <= k -> 1 <= h ->
  has_shape3 h w k (roll s) = true /\
  forall r c ch, r < h -> c < w -> get3 (roll s) r c ch = get3 s ch r c.
Proof.
  intros Hs Hk Hh.
  pose proof Hs as Hs'. apply has_shape3_spec in Hs' as [Hl Hall].
  assert (Hs2 : has_shape2 k h s = true).
  { apply has_shape2_spec. split; trivial.
    eapply Forall_impl; [|exact Hall].
    intros f Hf. now apply has_shape2_spec in Hf as [Hf _]. }
  destruct (T_spec Hs2 Hk) as [Ht Htg].
  assert (Hrows : forall r X, nth_error (T s) r = Some X ->
                              has_shape2 k w X = true /\
                              forall ch c, get2 X ch c = get3 s ch r c).
  { intros r X HX.
    assert (Hr : r < h).
    { apply has_shape2_spec in Ht as [Hlt _]. rewrite <- Hlt.
      eapply nth_error_Some_lt; eauto. }
    assert (HXg : forall ch, nth_error X ch = get2 s ch r).
    { intros ch. specialize (Htg ch r Hr). unfold get2 at 1 in Htg.
      now rewrite HX in Htg. }
    split.
    - apply has_shape2_spec. split; [eapply has_shape2_row; eauto|].
      apply Forall_forall. intros e He.
      apply In_nth_error in He as [ch Hch].
      rewrite HXg in Hch. unfold get2 in Hch.
      destruct (nth_error s ch) as [f|] eqn:Hf; [|discriminate].
      eapply has_shape2_row; [|exact Hch].
      eapply has_shape3_plane; eauto.
    - intros ch c. unfold get2 at 1. rewrite HXg.
      unfold get3, get2. destruct (nth_error s ch); trivial. }
  split.
  - apply has_shape3_spec. unfold roll. rewrite length_map. split.
    + now apply has_shape2_spec in Ht as [Hlt _].
    + apply Forall_map, Forall_forall. intros X HX.
      apply In_nth_error in HX as [r HX].
      destruct (Hrows r X HX) as [HXs _].
      now destruct (T_spec HXs Hk).
  - intros r c ch Hr Hc. unfold get3 at 1, roll. rewrite nth_error_map.
    destruct (nth_error_lt_Some (T s) r) as [X HX].
    { apply has_shape2_spec in Ht as [Hlt _]. lia. }
    rewrite HX. simpl.
    destruct (Hrows r X HX) as [HXs HXg].
    destruct (T_spec HXs Hk) as [_ Hg]. rewrite Hg by trivial.
    apply HXg.
Qed.

Lemma index0_nth (l : vol A) (t : nat) (p : mat A) :
  nth_error l t = Some p -> index0 l (Z.of_nat t) = Ok p.
Proof.
  intros H. unfold index0.
  rewrite index_in_range by (apply nth_error_Some_lt in H; lia).
  cbn [Py.bind]. now rewrite Nat2Z.id, H.
Qed.

Lemma frame_at_shape (v : vol A) (n : nat) (i : Z) :
  is_cube n v = true -> (0 <= i < Z.of_nat n)%Z ->
  has_shape2 n (3 * n) (frame_at v (Z.of_nat n) i) = true.
Proof.
  intros Hv Hi. destruct (mosaic_frame_spec v i Hv Hi) as (f & Hf & Hs & _).
  unfold frame_at. now rewrite Hf.
Qed.

End RollFacts.

Lemma index_last (k : nat) : 1 <= k -> Py.index k (-1) = Ok (k - 1).
Proof.
  intros Hk. unfold Py.index. cbn [Z.ltb Z.compare].
  destruct (0 <=? -1 + Z.of_nat k)%Z eqn:E1; [|lia].
  destruct (-1 + Z.of_nat k <? Z.of_nat k)%Z eqn:E2; [|lia].
  cbn [andb]. f_equal. lia.
Qed.

Lemma seq_head (k : nat) : 1 <= k -> seq 0 k = 0 :: seq 1 (k - 1).
Proof.
  destruct k as [|k]; [lia|]. intros _. simpl. now rewrite Nat.sub_0_r.
Qed.

Section RGBFacts.
Context {A : Type} {D : DType A}.
Context (v1 v2 v3 : vol A) (n : nat).
Hypothesis H1 : is_cube n v1 = true.
Hypothesis H2 : is_cube n v2 = true.
Hypothesis H3 : is_cube n v3 = true.
Hypothesis Hn : 1 <= n.

Lemma stack_at_shape (t : nat) :
  t < n -> has_shape3 3 n (3 * n) (stack_at v1 v2 v3 n t) = true.
Proof.
  intros Ht. apply has_shape3_spec. split; [reflexivity|].
  repeat constructor; apply frame_at_shape; trivial; lia.
Qed.

Lemma mosaic_normal_unit_stride (v : vol A) :
  is_cube n v = true ->
  create_mosaic_normal v (Z.of_nat n) 1 =
  Ok (map (fun t => frame_at v (Z.of_nat n) (Z.of_nat t)) (seq 0 n)).
Proof.
  intros Hv. rewrite create_mosaic_normal_spec by (trivial; lia).
  unfold ceil_div. replace (Z.of_nat n + 1 - 1)%Z with (Z.of_nat n) by lia.
  rewrite Z.div_1_r, Nat2Z.id. f_equal.
  apply map_ext. intros t. now rewrite Z.mul_1_r.
Qed.

Lemma index0_mosaic (v : vol A) (t : nat) :
  t < n ->
  index0 (map (fun t => frame_at v (Z.of_nat n) (Z.of_nat t)) (seq 0 n)) (Z.of_nat t)
  = Ok (frame_at v (Z.of_nat n) (Z.of_nat t)).
Proof.
  intros Ht. apply index0_nth.
  rewrite nth_error_map, nth_error_seq.
  destruct (t <? n) eqn:E; [reflexivity|apply Nat.ltb_ge in E; lia].
Qed.

Lemma create_mosaic_RGB_spec :
  create_mosaic_RGB v1 v2 v3 (Z.of_nat n) 1 =
  Ok (map (fun t => map3 to_float64 (roll (stack_at v1 v2 v3 n t))) (seq 0 n)
      ++ repeat (full3 n (3 * n) 3 Fl.pzero) 3).
Proof.
  unfold create_mosaic_RGB.
  rewrite !mosaic_normal_unit_stride by trivial. cbn [Py.bind].
  rewrite range_spec by lia. cbn [Py.bind].
  unfold ceil_div. replace (Z.of_nat n + 1 - 1)%Z with (Z.of_nat n) by lia.
  rewrite Z.div_1_r, Nat2Z.id.
  rewrite (mapM_map _ (fun i => stack_at v1 v2 v3 n (Z.to_nat i))).
  2:{ intros i Hi. apply in_map_iff in Hi as (t & <- & Ht).
      apply in_seq in Ht. rewrite Z.mul_1_r.
      rewrite !index0_mosaic by lia.
      cbn [Py.bind]. now rewrite Nat2Z.id. }
  cbn [Py.bind]. rewrite map_map.
  rewrite (map_ext _ (stack_at v1 v2 v3 n)) by (intros t; now rewrite Z.mul_1_r, Nat2Z.id).
  assert (Hall : forall s, In s (map (stack_at v1 v2 v3 n) (seq 0 n)) ->
                           has_shape3 3 n (3 * n) s = true).
  { intros s Hs. apply in_map_iff in Hs as (t & <- & Ht).
    apply in_seq in Ht. apply stack_at_shape. lia. }
  rewrite (seq_head n Hn) in *.
  cbn [map] in *.
  unfold array_of_stacks.
  rewrite (shape3_of_has_shape 3 n (3 * n) (stack_at v1 v2 v3 n 0)) by (auto with datatypes; lia).
  rewrite (proj2 (forallb_forall _ _) Hall). cbn [Py.bind].
  unfold rollaxis_1_4.
  change (length (stack_at v1 v2 v3 n 0) =? 0) with false. cbn [Py.bind map].
  set (rolled := roll (stack_at v1 v2 v3 n 0) :: map roll (map (stack_at v1 v2 v3 n) (seq 1 (n - 1)))).
  assert (Hroll : forall s, In s rolled -> has_shape3 n (3 * n) 3 s = true).
  { intros s Hs.
    change rolled with (map roll (stack_at v1 v2 v3 n 0 :: map (stack_at v1 v2 v3 n) (seq 1 (n - 1)))) in Hs.
    apply in_map_iff in Hs as (s0 & <- & Hs0).
    apply roll_spec; auto. }
  destruct (nth_error_lt_Some rolled (length rolled - 1)) as [l Hl];
    [unfold rolled; simpl; lia|].
  unfold last_item.
  rewrite index_last by (unfold rolled; simpl; lia). cbn [Py.bind]. rewrite Hl. cbn [Py.bind].
  unfold zeros3_like.
  rewrite (shape3_of_has_shape n (3 * n) 3 l) by
      (try apply Hroll; try (eapply nth_error_In; eauto); lia).
  unfold rolled. cbn [map]. rewrite !map_map. reflexivity.
Qed.

End RGBFacts.

Lemma get3_map3 {A B : Type} (g : A -> B) (v : vol A) (i j k : nat) :
  get3 (map3 g v) i j k = option_map g (get3 v i j k).
Proof.
  unfold get3, get2, map3, map2, vol, mat in *. rewrite nth_error_map.
  destruct (nth_error v i) as [p|]; simpl; trivial.
  rewrite nth_error_map.
  destruct (nth_error p j) as [r|]; simpl; trivial.
  apply nth_error_map.
Qed.

Lemma astype_mul_zero (prec emax : Z) (f : spec_float) :
  Fl.astype_uint8 (SFmul prec emax Fl.pzero f) = 0%Z.
Proof. destruct f; reflexivity. Qed.

Lemma int_times_unit_size (maximum : Z) (size : Fl.pynum) :
  Fl.ne_one size = false -> (0 <= maximum < 2 ^ 53)%Z ->
  Fl.int_times_size maximum size = Ok maximum.
Proof.
  intros Hs Hm. destruct size as [z|f].
  - simpl in Hs. apply negb_false_iff, Z.eqb_eq in Hs. subst z.
    simpl. now rewrite Z.mul_1_r.
  - apply ne_one_float in Hs. subst f. now apply int_times_size_one.
Qed.

(** The cast of a value whose integer part is a byte is that integer
    part. *)
Lemma astype_in_range (s : bool) (m : positive) (e : Z) :
  (0 <= Fl.trunc s m e <= 255)%Z ->
  Fl.astype_uint8 (S754_finite s m e) = Fl.trunc s m e.
Proof.
  intros H. unfold Fl.astype_uint8. cbv zeta.
  destruct (-2147483648 <=? Fl.trunc s m e)%Z eqn:E1; [|lia].
  destruct (Fl.trunc s m e <? 2147483648)%Z eqn:E2; [|lia].
  cbn [andb]. apply Z.mod_small. lia.
Qed.

(** The cast of a value whose integer part does not fit a signed integer
    of 32 bits is 0. *)
Lemma astype_out_of_range (s : bool) (m : positive) (e : Z) :
  (Fl.trunc s m e < - 2 ^ 31 \/ 2 ^ 31 <= Fl.trunc s m e)%Z ->
  Fl.astype_uint8 (S754_finite s m e) = 0%Z.
Proof.
  intros H. unfold Fl.astype_uint8. cbv zeta.
  change (2 ^ 31)%Z with 2147483648%Z in H.
  destruct (-2147483648 <=? Fl.trunc s m e)%Z eqn:E1; [|reflexivity].
  destruct (Fl.trunc s m e <? 2147483648)%Z eqn:E2; [lia|reflexivity].
Qed.

(* ===================================================================== *)
(** * The claims                                                          *)
(* ===================================================================== *)

(** ** Isotropic normaliser: centring *)

(** C1.  For a resampled volume of extents [(a, b, c)], all at least 1, and
    size factor 1 (the [int] or the [float]), the isotropic normaliser
    builds a cube of side [n = max a b c] that is zero everywhere except
    for the volume's voxels (stored as [float32]), which occupy
    [[start, start + extent)] on every axis with
    [start = (n - extent) / 2] rounded down; the pad after the content is
    the pad before it or one more.  It returns that cube rescaled and cast
    to [uint8], together with [n]: the returned array is a cube of side
    [n] that holds 0 outside the block and, at [(i + sx, j + sy, k + sz)],
    the voxel [(i, j, k)] of the volume multiplied by [255 / max] and
    cast, which is the integer part of the product where that is a
    byte. *)
Theorem isotropic_padding_centred {L : Libraries}
        (data_iso : vol spec_float) (a b c : nat) (size : Fl.pynum) :
  has_shape3 a b c data_iso = true -> 1 <= a -> 1 <= b -> 1 <= c ->
  Fl.ne_one size = false ->
  let n := cube_side a b c in
  let sx := (n - a) / 2 in
  let sy := (n - b) / 2 in
  let sz := (n - c) / 2 in
  exists cube scaled m out,
    pad_to_cube_isotropic data_iso = Ok (cube, Z.of_nat n) /\
    is_cube n cube = true /\
    (forall i j k, i < n -> j < n -> k < n ->
       get3 cube i j k =
       if inside sx a i && inside sy b j && inside sz c k
       then option_map Fl.to_f32 (get3 data_iso (i - sx) (j - sy) (k - sz))
       else Some Fl.pzero) /\
    (sx <= n - (sx + a) <= sx + 1 /\
     sy <= n - (sy + b) <= sy + 1 /\
     sz <= n - (sz + c) <= sz + 1) /\
    amax cube = Ok m /\
    rescale32 cube = Ok scaled /\
    out = map3 Fl.astype_uint8 scaled /\
    prepare_isotropic data_iso size = Ok (out, Z.of_nat n) /\
    (forall img target_spacing,
       zoom (dataobj img) (zoom_factors img target_spacing) = Ok data_iso ->
       load_and_prepare_image_isotropic img size target_spacing
       = Ok (out, Z.of_nat n)) /\
    is_cube n out = true /\
    (forall i j k, i < n -> j < n -> k < n ->
       get3 out i j k =
       if inside sx a i && inside sy b j && inside sz c k
       then option_map
              (fun x => Fl.astype_uint8
                          (Fl.mul32 (Fl.to_f32 x)
                                    (Fl.div32 (Fl.f32_of_Z 255) m)))
              (get3 data_iso (i - sx) (j - sy) (k - sz))
       else Some 0%Z) /\
    (forall i j k x s mt e,
       i < a -> j < b -> k < c ->
       get3 data_iso i j k = Some x ->
       Fl.mul32 (Fl.to_f32 x) (Fl.div32 (Fl.f32_of_Z 255) m)
       = S754_finite s mt e ->
       (0 <= Fl.trunc s mt e <= 255)%Z ->
       get3 out (i + sx) (j + sy) (k + sz) = Some (Fl.trunc s mt e)).
Proof.
  intros Hd Ha Hb Hc Hsize n sx sy sz.
  change sx with (centre n a). change sy with (centre n b).
  change sz with (centre n c).
  assert (a <= n /\ b <= n /\ c <= n) as (Han & Hbn & Hcn)
      by (unfold n, cube_side; lia).
  pose proof (centre_fits n a Han) as Fa.
  pose proof (centre_fits n b Hbn) as Fb.
  pose proof (centre_fits n c Hcn) as Fc.
  pose proof (is_cube_embed3 Fl.to_f32 Fl.pzero n _ _ _ a b c data_iso Hd Fa Fb Fc)
    as Hcube.
  assert (Hn : 1 <= n) by lia.
  destruct (amax_nonempty _ Hcube Hn) as [m Hm].
  set (cube := embed3 Fl.to_f32 Fl.pzero n (centre n a) (centre n b)
                      (centre n c) data_iso) in *.
  set (factor := Fl.div32 (Fl.f32_of_Z 255) m).
  set (scaled := map3 (fun v => Fl.mul32 v factor) cube).
  assert (Hscaled : rescale32 cube = Ok scaled)
    by (unfold rescale32; now rewrite Hm).
  assert (Hprep : prepare_isotropic data_iso size
                  = Ok (map3 Fl.astype_uint8 scaled, Z.of_nat n)).
  { unfold prepare_isotropic.
    rewrite (pad_to_cube_isotropic_spec a b c data_iso Hd Ha Hb Hc).
    fold n. fold cube. cbn [Py.bind]. rewrite Hscaled. cbn [Py.bind].
    now rewrite Hsize. }
  assert (Hget : forall i j k, i < n -> j < n -> k < n ->
            get3 (map3 Fl.astype_uint8 scaled) i j k =
            if inside (centre n a) a i && inside (centre n b) b j
               && inside (centre n c) c k
            then option_map
                   (fun x => Fl.astype_uint8 (Fl.mul32 (Fl.to_f32 x) factor))
                   (get3 data_iso (i - centre n a) (j - centre n b)
                         (k - centre n c))
            else Some 0%Z).
  { intros i j k Hi Hj Hk. unfold scaled, cube.
    rewrite !get3_map3.
    rewrite (get3_embed3 Fl.to_f32 Fl.pzero n _ _ _ a b c data_iso Hd Fa Fb Fc)
      by trivial.
    destruct (inside (centre n a) a i && inside (centre n b) b j
              && inside (centre n c) c k).
    - now destruct (get3 data_iso (i - centre n a) (j - centre n b)
                         (k - centre n c)).
    - cbn [option_map]. unfold Fl.mul32. now rewrite astype_mul_zero. }
  exists cube, scaled, m, (map3 Fl.astype_uint8 scaled).
  split; [apply (pad_to_cube_isotropic_spec a b c data_iso Hd Ha Hb Hc)|].
  split; [exact Hcube|].
  split; [intros i j k; now apply get3_embed3|].
  split.
  { unfold centre.
    pose proof (Nat.div_mod_eq (n - a) 2). pose proof (Nat.mod_upper_bound (n - a) 2).
    pose proof (Nat.div_mod_eq (n - b) 2). pose proof (Nat.mod_upper_bound (n - b) 2).
    pose proof (Nat.div_mod_eq (n - c) 2). pose proof (Nat.mod_upper_bound (n - c) 2).
    lia. }
  split; [exact Hm|]. split; [exact Hscaled|]. split; [reflexivity|].
  split; [exact Hprep|].
  split.
  { intros img target_spacing Hzoom. unfold load_and_prepare_image_isotropic.
    rewrite Hzoom. exact Hprep. }
  split; [unfold is_cube, scaled; rewrite !has_shape3_map3; exact Hcube|].
  split; [exact Hget|].
  intros i j k x s mt e Hi Hj Hk Hx Hprod Hbyte.
  rewrite Hget by lia.
  unfold inside.
  replace (centre n a <=? i + centre n a) with true
    by (symmetry; apply Nat.leb_le; lia).
  replace (i + centre n a <? centre n a + a) with true
    by (symmetry; apply Nat.ltb_lt; lia).
  replace (centre n b <=? j + centre n b) with true
    by (symmetry; apply Nat.leb_le; lia).
  replace (j + centre n b <? centre n b + b) with true
    by (symmetry; apply Nat.ltb_lt; lia).
  replace (centre n c <=? k + centre n c) with true
    by (symmetry; apply Nat.leb_le; lia).
  replace (k + centre n c <? centre n c + c) with true
    by (symmetry; apply Nat.ltb_lt; lia).
  cbn [andb]. rewrite !Nat.add_sub, Hx. cbn [option_map].
  fold factor in Hprod. rewrite Hprod. f_equal. now apply astype_in_range.
Qed.

Lemma isotropic_padding_centred_witness :
  let data := [[[Fl.f64_of_Z 3; Fl.f64_of_Z 5]]] in
  let img := {| dataobj := data; zooms := (Fl.one, Fl.one, Fl.one) |} in
  (has_shape3 1 1 2 data = true /\ Fl.ne_one (Fl.PyInt 1) = false) /\
  (exists out,
     prepare_isotropic (L := reference_libraries) data (Fl.PyInt 1)
     = Ok (out, 2%Z) /\
     load_and_prepare_image_isotropic (L := reference_libraries) img
                                      (Fl.PyInt 1) None
     = Ok (out, 2%Z) /\
     is_cube 2 out = true /\
     get3 out 0 0 0 = Some 153%Z /\ get3 out 0 0 1 = Some 255%Z /\
     get3 out 0 1 0 = Some 0%Z /\ get3 out 1 0 1 = Some 0%Z) /\
  prepare_isotropic (L := reference_libraries) data (Fl.PyInt 1)
  = Ok ([[[153; 255]; [0; 0]]; [[0; 0]; [0; 0]]]%Z, 2%Z).
Proof.
  split; [split; reflexivity|]. split; [|vm_compute; reflexivity].
  destruct (isotropic_padding_centred (L := reference_libraries)
              [[[Fl.f64_of_Z 3; Fl.f64_of_Z 5]]] 1 1 2 (Fl.PyInt 1))
    as (cube & scaled & m & out & Hpad & _ & _ & _ & Hm & _ & _ & Hprep
        & Hload & Hcube & Hget & Hbyte);
    [reflexivity | lia | lia | lia | reflexivity |].
  exists out.
  split; [exact Hprep|].
  split; [apply Hload; vm_compute; reflexivity|].
  split; [exact Hcube|].
  vm_compute in Hpad. injection Hpad as <-.
  vm_compute in Hm. injection Hm as <-.
  split; [|split; [|split]].
  - apply (Hbyte 0 0 0 (Fl.f64_of_Z 3) false 10027008%positive (-16)%Z);
      try lia; try reflexivity; vm_compute; split; discriminate.
  - apply (Hbyte 0 0 1 (Fl.f64_of_Z 5) false 16711680%positive (-16)%Z);
      try lia; try reflexivity; vm_compute; split; discriminate.
  - rewrite (Hget 0 1 0) by (vm_compute; lia). reflexivity.
  - rewrite (Hget 1 0 1) by (vm_compute; lia). reflexivity.
Defined.

(** ** Normal mosaic *)

(** C2.  For a cube of side [n >= 1] and a stride [frameskip >= 1] the
    normal mosaic has [ceil (n / frameskip)] frames: the least count whose
    multiple of [frameskip] reaches [n].  Frame [t] is the frame of depth
    index [t * frameskip], these indices lie below [n], and every multiple
    of [frameskip] below [n] is one of them. *)
Theorem mosaic_normal_frame_count {A : Type} (v : vol A) (n : nat) (frameskip : Z) :
  is_cube n v = true -> 1 <= n -> (1 <= frameskip)%Z ->
  exists frames,
    create_mosaic_normal v (Z.of_nat n) frameskip = Ok frames /\
    Z.of_nat (length frames) = ceil_div (Z.of_nat n) frameskip /\
    ((Z.of_nat (length frames) - 1) * frameskip < Z.of_nat n
     <= Z.of_nat (length frames) * frameskip)%Z /\
    (forall t, t < length frames ->
       (0 <= Z.of_nat t * frameskip < Z.of_nat n)%Z /\
       exists f, nth_error frames t = Some f /\
                 mosaic_frame v (Z.of_nat n) (Z.of_nat t * frameskip) = Ok f) /\
    (forall i, (0 <= i < Z.of_nat n)%Z -> (i mod frameskip = 0)%Z ->
       exists t, t < length frames /\ i = (Z.of_nat t * frameskip)%Z).
Proof.
  intros Hv Hn Hfs.
  eexists. split; [apply create_mosaic_normal_spec; trivial|].
  rewrite length_map, length_seq.
  pose proof (ceil_div_nonneg (Z.of_nat n) frameskip ltac:(lia) Hfs) as Hc.
  assert (Hd : (0 < frameskip)%Z) by lia.
  destruct (ceil_div_least (Z.of_nat n) frameskip Hd) as [Hup Hleast].
  rewrite Z2Nat.id by trivial.
  split; [reflexivity|]. split.
  { split; trivial.
    destruct (Z_lt_le_dec ((ceil_div (Z.of_nat n) frameskip - 1) * frameskip)
                          (Z.of_nat n)) as [|Hge]; trivial.
    apply Hleast in Hge. lia. }
  split.
  - intros t Ht.
    assert (Hb : (0 <= Z.of_nat t * frameskip < Z.of_nat n)%Z)
      by (apply range_index_bound; lia).
    split; trivial.
    destruct (mosaic_frame_spec v _ Hv Hb) as (f & Hf & _).
    exists f. split; trivial.
    rewrite nth_error_map, nth_error_seq.
    destruct (t <? Z.to_nat (ceil_div (Z.of_nat n) frameskip)) eqn:E;
      [|apply Nat.ltb_ge in E; lia].
    simpl. unfold frame_at. now rewrite Hf.
  - intros i Hi Hmod.
    exists (Z.to_nat (i / frameskip)).
    pose proof (Z.div_mod i frameskip ltac:(lia)) as Hdm.
    assert (0 <= i / frameskip)%Z by (apply Z.div_pos; lia).
    rewrite Z2Nat.id by trivial.
    split; [|lia].
    assert (i / frameskip < ceil_div (Z.of_nat n) frameskip)%Z; [|lia].
    destruct (Z_lt_le_dec (i / frameskip) (ceil_div (Z.of_nat n) frameskip))
      as [|Hge]; trivial.
    nia.
Qed.

Lemma mosaic_normal_frame_count_witness :
  let v := tabulate3 3 3 3 (fun i j k => Z.of_nat (9 * i + 3 * j + k)) in
  is_cube 3 v = true /\
  exists frames,
    create_mosaic_normal v 3 2 = Ok frames /\
    Z.of_nat (length frames) = ceil_div 3 2 /\
    ((Z.of_nat (length frames) - 1) * 2 < 3 <= Z.of_nat (length frames) * 2)%Z /\
    (forall t, t < length frames ->
       (0 <= Z.of_nat t * 2 < 3)%Z /\
       exists f, nth_error frames t = Some f /\
                 mosaic_frame v 3 (Z.of_nat t * 2) = Ok f) /\
    (forall i, (0 <= i < 3)%Z -> (i mod 2 = 0)%Z ->
       exists t, t < length frames /\ i = (Z.of_nat t * 2)%Z).
Proof.
  split; [reflexivity|].
  apply (mosaic_normal_frame_count
           (tabulate3 3 3 3 (fun i j k => Z.of_nat (9 * i + 3 * j + k))) 3 2);
    [reflexivity | lia | lia].
Defined.

(** C3.  The normal mosaic of a cube of side [n] has a frame for every
    depth index [i] in [0, frameskip, 2 * frameskip, ...] below [n], and
    no other frame: frame [i / frameskip] has [n] rows and [3 * n] columns
    and is the slice [v[i, :, :]] next to [v[:, n-1-i, :]] next to
    [v[:, :, n-1-i]], each flipped along its axis 1 and then transposed:
    the panel's element at row [r], column [c] is the slice's element at
    [(c, n - 1 - r)]. *)
Theorem mosaic_normal_frame_layout {A : Type} (v : vol A) (n : nat) (frameskip : Z) :
  is_cube n v = true -> 1 <= n -> (1 <= frameskip)%Z ->
  exists frames,
    create_mosaic_normal v (Z.of_nat n) frameskip = Ok frames /\
    Z.of_nat (length frames) = ceil_div (Z.of_nat n) frameskip /\
    (forall i, i < n -> (Z.of_nat i mod frameskip = 0)%Z ->
       exists f,
         nth_error frames (Z.to_nat (Z.of_nat i / frameskip)) = Some f /\
         has_shape2 n (3 * n) f = true /\
         forall r c, r < n -> c < 3 * n ->
           get2 f r c =
           if c <? n then
             flip_transposed n (fun y z => get3 v i y z) r c
           else if c <? 2 * n then
             flip_transposed n (fun x z => get3 v x (n - 1 - i) z) r (c - n)
           else
             flip_transposed n (fun x y => get3 v x y (n - 1 - i)) r (c - 2 * n)) /\
    (forall t f, nth_error frames t = Some f ->
       let i := Z.to_nat (Z.of_nat t * frameskip) in
       i < n /\
       has_shape2 n (3 * n) f = true /\
       forall r c, r < n -> c < 3 * n ->
         get2 f r c =
         if c <? n then
           flip_transposed n (fun y z => get3 v i y z) r c
         else if c <? 2 * n then
           flip_transposed n (fun x z => get3 v x (n - 1 - i) z) r (c - n)
         else
           flip_transposed n (fun x y => get3 v x y (n - 1 - i)) r (c - 2 * n)).
Proof.
  intros Hv Hn Hfs.
  pose proof (ceil_div_nonneg (Z.of_nat n) frameskip ltac:(lia) Hfs) as Hc.
  assert (Hd : (0 < frameskip)%Z) by lia.
  destruct (ceil_div_least (Z.of_nat n) frameskip Hd) as [Hup Hleast].
  assert (Hframe : forall t, t < Z.to_nat (ceil_div (Z.of_nat n) frameskip) ->
            let i := Z.to_nat (Z.of_nat t * frameskip) in
            i < n /\
            has_shape2 n (3 * n) (frame_at v (Z.of_nat n) (Z.of_nat t * frameskip))
            = true /\
            forall r c, r < n -> c < 3 * n ->
              get2 (frame_at v (Z.of_nat n) (Z.of_nat t * frameskip)) r c
              = expected_frame v n i r c).
  { intros t Ht i.
    assert (Hb : (0 <= Z.of_nat t * frameskip < Z.of_nat n)%Z)
      by (apply range_index_bound; lia).
    destruct (mosaic_frame_spec v _ Hv Hb) as (g & Hg & Hs & Hget).
    unfold frame_at. rewrite Hg.
    split; [unfold i; lia|]. split; [exact Hs|].
    intros r c Hr Hcc. now apply Hget. }
  eexists. split; [apply create_mosaic_normal_spec; trivial|].
  split; [rewrite length_map, length_seq; lia|].
  split.
  - intros i Hi Hmod.
    set (t := Z.to_nat (Z.of_nat i / frameskip)).
    assert (Hq : (Z.of_nat i = frameskip * (Z.of_nat i / frameskip))%Z).
    { pose proof (Z.div_mod (Z.of_nat i) frameskip ltac:(lia)). lia. }
    assert (Hq0 : (0 <= Z.of_nat i / frameskip)%Z)
      by (apply Z.div_pos; lia).
    assert (Hti : (Z.of_nat t * frameskip = Z.of_nat i)%Z) by (unfold t; lia).
    assert (Ht : t < Z.to_nat (ceil_div (Z.of_nat n) frameskip)).
    { assert (Z.of_nat t < ceil_div (Z.of_nat n) frameskip)%Z; [|lia].
      apply Z.mul_lt_mono_pos_r with (p := frameskip); lia. }
    destruct (Hframe t Ht) as (_ & Hs & Hget).
    rewrite Hti in Hs, Hget. rewrite Nat2Z.id in Hget.
    exists (frame_at v (Z.of_nat n) (Z.of_nat i)). split.
    + rewrite nth_error_map, nth_error_seq.
      replace (t <? Z.to_nat (ceil_div (Z.of_nat n) frameskip)) with true
        by (symmetry; now apply Nat.ltb_lt).
      cbn [option_map]. now rewrite Nat.add_0_l, Hti.
    + split; [exact Hs|]. intros r c Hr Hcc. now apply Hget.
  - intros t f Hf i.
    assert (Ht : t < Z.to_nat (ceil_div (Z.of_nat n) frameskip)).
    { apply nth_error_Some_lt in Hf. now rewrite length_map, length_seq in Hf. }
    rewrite nth_error_map, nth_error_seq in Hf.
    destruct (t <? Z.to_nat (ceil_div (Z.of_nat n) frameskip)) eqn:E;
      [|apply Nat.ltb_ge in E; lia].
    simpl in Hf. injection Hf as <-.
    destruct (Hframe t Ht) as (Hi & Hs & Hget).
    split; [exact Hi|]. split; [exact Hs|].
    intros r c Hr Hcc. now apply Hget.
Qed.

Lemma mosaic_normal_frame_layout_witness :
  let v := tabulate3 3 3 3 (fun i j k => Z.of_nat (9 * i + 3 * j + k)) in
  is_cube 3 v = true /\
  (exists frames,
     create_mosaic_normal v 3 2 = Ok frames /\
     Z.of_nat (length frames) = ceil_div 3 2 /\
     (forall i, i < 3 -> (Z.of_nat i mod 2 = 0)%Z ->
        exists f,
          nth_error frames (Z.to_nat (Z.of_nat i / 2)) = Some f /\
          has_shape2 3 (3 * 3) f = true /\
          forall r c, r < 3 -> c < 3 * 3 ->
            get2 f r c =
            if c <? 3 then
              flip_transposed 3 (fun y z => get3 v i y z) r c
            else if c <? 2 * 3 then
              flip_transposed 3 (fun x z => get3 v x (3 - 1 - i) z) r (c - 3)
            else
              flip_transposed 3 (fun x y => get3 v x y (3 - 1 - i)) r (c - 2 * 3)) /\
     (forall t f, nth_error frames t = Some f ->
        let i := Z.to_nat (Z.of_nat t * 2) in
        i < 3 /\
        has_shape2 3 (3 * 3) f = true /\
        forall r c, r < 3 -> c < 3 * 3 ->
          get2 f r c =
          if c <? 3 then
            flip_transposed 3 (fun y z => get3 v i y z) r c
          else if c <? 2 * 3 then
            flip_transposed 3 (fun x z => get3 v x (3 - 1 - i) z) r (c - 3)
          else
            flip_transposed 3 (fun x y => get3 v x y (3 - 1 - i)) r (c - 2 * 3))) /\
  create_mosaic_normal v 3 2
  = Ok [[[2; 5; 8; 8; 17; 26; 8; 17; 26];
         [1; 4; 7; 7; 16; 25; 5; 14; 23];
         [0; 3; 6; 6; 15; 24; 2; 11; 20]];
        [[20; 23; 26; 2; 11; 20; 6; 15; 24];
         [19; 22; 25; 1; 10; 19; 3; 12; 21];
         [18; 21; 24; 0; 9; 18; 0; 9; 18]]]%Z.
Proof.
  split; [reflexivity|]. split; [|vm_compute; reflexivity].
  apply (mosaic_normal_frame_layout
           (tabulate3 3 3 3 (fun i j k => Z.of_nat (9 * i + 3 * j + k))) 3 2);
    [reflexivity | lia | lia].
Defined.

(** ** Depth mosaic *)

(** C4.  At a cube of side 4 and stride 2 the depth mosaic does not have
    the frame count of the normal mosaic: [range(maximum - 3)] does not
    follow the stride, so the single stack of the two frames that exist
    is joined by three zero frames.  The normal mosaic has 2 frames, the
    depth mosaic 4, each with 2 channels. *)
Theorem depth_mosaic_stride_two_frame_count :
  exists depth normal,
    create_mosaic_depth (numbered 4) 4 2 = Ok depth /\
    create_mosaic_normal (numbered 4) 4 2 = Ok normal /\
    length normal = 2 /\
    length depth = 4 /\
    Forall (fun f => has_shape3 4 12 2 f = true) depth.
Proof.
  eexists. eexists.
  split; [vm_compute; reflexivity|].
  split; [vm_compute; reflexivity|].
  split; [reflexivity|]. split; [reflexivity|].
  repeat constructor.
Qed.

(** With stride 1 the same cube gives as many frames as the normal mosaic,
    the last three of them zero; with stride 2 a cube of side 5 gives a
    ragged list of stacks, which [np.array] rejects. *)
Lemma depth_mosaic_examples :
  (exists depth normal,
     create_mosaic_depth (numbered 4) 4 1 = Ok depth /\
     create_mosaic_normal (numbered 4) 4 1 = Ok normal /\
     length depth = length normal /\
     skipn 1 depth = repeat (full3 4 12 3 0%Z) 3) /\
  create_mosaic_depth (numbered 5) 5 2 = Raise ValueError /\
  create_mosaic_depth (numbered 3) 3 1 = Raise AxisError.
Proof.
  split.
  - eexists. eexists.
    split; [vm_compute; reflexivity|].
    split; [vm_compute; reflexivity|].
    split; reflexivity.
  - split; vm_compute; reflexivity.
Qed.

(** ** Legacy padding offsets *)

(** C5, as stated, fails: no shape whose cube side is below [2 ^ 53] has an
    axis with an odd pad on which the legacy offset differs from the
    isotropic one.  (The legacy path allocates [np.zeros([maximum] * 3)]
    before it computes the offsets, which NumPy refuses from a side of
    [2 ^ 20] on.) *)
Lemma legacy_offset_never_differs :
  ~ exists a b c : nat,
      let n := cube_side a b c in
      (Z.of_nat n < 2 ^ 53)%Z /\
      exists d, In d [a; b; c] /\ Nat.odd (n - d) = true /\
                legacy_start (Z.of_nat n) (Z.of_nat d) <>
                Ok (isotropic_start (Z.of_nat n) (Z.of_nat d)).
Proof.
  intros (a & b & c & Hn & d & Hd & _ & Hne).
  apply Hne, legacy_start_exact; [|exact Hn].
  unfold cube_side. simpl in Hd. lia.
Qed.

(** C5, amended.  For every shape whose cube side is below [2 ^ 53], on
    every axis the legacy offset (the pad as a [float64], divided by
    [-2.0], truncated) is the isotropic offset [(n - extent) // 2]. *)
Theorem legacy_offset_equals_isotropic (a b c : nat) :
  let n := cube_side a b c in
  (Z.of_nat n < 2 ^ 53)%Z ->
  legacy_start (Z.of_nat n) (Z.of_nat a) = Ok (isotropic_start (Z.of_nat n) (Z.of_nat a)) /\
  legacy_start (Z.of_nat n) (Z.of_nat b) = Ok (isotropic_start (Z.of_nat n) (Z.of_nat b)) /\
  legacy_start (Z.of_nat n) (Z.of_nat c) = Ok (isotropic_start (Z.of_nat n) (Z.of_nat c)).
Proof.
  intros n Hn. unfold n, cube_side in *.
  repeat split; apply legacy_start_exact; lia.
Qed.

Lemma legacy_offset_equals_isotropic_witness :
  (Z.of_nat (cube_side 2 3 5) < 2 ^ 53)%Z /\
  Nat.odd (cube_side 2 3 5 - 2) = true /\
  legacy_start 5 2 = Ok (isotropic_start 5 2) /\
  legacy_start 5 3 = Ok (isotropic_start 5 3) /\
  legacy_start 5 5 = Ok (isotropic_start 5 5).
Proof.
  split; [reflexivity|]. split; [reflexivity|].
  apply (legacy_offset_equals_isotropic 2 3 5). reflexivity.
Defined.

(** ** Volumes whose maximum intensity is zero *)

(** C6, as stated, fails: an all-zero volume of one voxel goes through both
    loaders.  The maximum of the cube is [0.0], the factor [255 / 0.0] is an
    infinity, the rescaled voxel is a NaN, and the loaders return the cube
    cast to [uint8] with its side; no [DataError] is raised. *)
Lemma zero_volume_no_DataError :
  let data := [[[Fl.pzero]]] in
  let img := {| dataobj := data; zooms := (Fl.one, Fl.one, Fl.one) |} in
  amax data = Ok Fl.pzero /\
  rescale64 data = Ok [[[S754_nan]]] /\
  rescale32 data = Ok [[[S754_nan]]] /\
  load_and_prepare_image (L := reference_libraries) data (Fl.PyFloat Fl.one)
  = Ok ([[[U8 0]]], 1%Z) /\
  load_and_prepare_image_isotropic (L := reference_libraries) img (Fl.PyFloat Fl.one) None
  = Ok ([[[0%Z]]], 1%Z) /\
  load_and_prepare_image (L := reference_libraries) data (Fl.PyFloat Fl.one)
  <> Raise DataError /\
  load_and_prepare_image_isotropic (L := reference_libraries) img (Fl.PyFloat Fl.one) None
  <> Raise DataError.
Proof.
  repeat split; try (vm_compute; reflexivity); vm_compute; discriminate.
Qed.

(** C6, amended.  For every volume whose maximum intensity is a zero - the
    input volume on the anisotropic path (its cube side below [2 ^ 53]),
    the resampled volume on the isotropic path - and size factor 1,
    neither loader raises: the factor is an infinity, every rescaled
    intensity is a NaN or an infinity, and the loader returns that array
    cast to [uint8], a cube, together with the side of the cube. *)
Theorem zero_maximum_is_not_rejected {L : Libraries}
        (data : vol spec_float) (a b c : nat) (m : spec_float)
        (size : Fl.pynum) :
  has_shape3 a b c data = true -> 1 <= a -> 1 <= b -> 1 <= c ->
  amax data = Ok m -> Fl.is_zero m = true ->
  Fl.ne_one size = false ->
  let n := cube_side a b c in
  let special x := Fl.is_nan x || Fl.is_inf x = true in
  ((Z.of_nat n < 2 ^ 53)%Z ->
   exists cube scaled,
     pad_to_cube_legacy data = Ok (cube, Z.of_nat n) /\
     rescale64 cube = Ok scaled /\
     Forall special (ravel scaled) /\
     load_and_prepare_image data size =
     Ok (map3 U8 (map3 Fl.astype_uint8 scaled), Z.of_nat n) /\
     is_cube n (map3 U8 (map3 Fl.astype_uint8 scaled)) = true) /\
  (exists cube scaled,
     pad_to_cube_isotropic data = Ok (cube, Z.of_nat n) /\
     rescale32 cube = Ok scaled /\
     Forall special (ravel scaled) /\
     prepare_isotropic data size =
     Ok (map3 Fl.astype_uint8 scaled, Z.of_nat n) /\
     is_cube n (map3 Fl.astype_uint8 scaled) = true /\
     forall img target_spacing,
       zoom (dataobj img) (zoom_factors img target_spacing) = Ok data ->
       load_and_prepare_image_isotropic img size target_spacing
       = Ok (map3 Fl.astype_uint8 scaled, Z.of_nat n)).
Proof.
  intros Hd Ha Hb Hc Hm Hzero Hsize n special.
  assert (a <= n /\ b <= n /\ c <= n) as (Han & Hbn & Hcn)
      by (unfold n, cube_side; lia).
  pose proof (centre_fits n a Han) as Fa.
  pose proof (centre_fits n b Hbn) as Fb.
  pose proof (centre_fits n c Hcn) as Fc.
  assert (Hn1 : 1 <= n) by lia.
  split.
  - intros Hn.
    destruct (amax_embed3_zero (fun v => v) n (centre n a) (centre n b) (centre n c)
                a b c data m) as (m' & Hm' & Hz'); trivial; [tauto|].
    destruct (factor_of_zero m' Hz') as [Hinf _].
    destruct (Fl.div64 (Fl.f64_of_Z 255) m') as [|s| |] eqn:Hf; try discriminate.
    assert (Hs : rescale64 (embed3 (fun v => v) Fl.pzero n (centre n a)
                                   (centre n b) (centre n c) data)
                 = Ok (map3 (fun v => Fl.mul64 v (S754_infinity s))
                            (embed3 (fun v => v) Fl.pzero n (centre n a)
                                    (centre n b) (centre n c) data))).
    { unfold rescale64. rewrite Hm'. cbn [Py.bind]. now rewrite Hf. }
    eexists. eexists.
    split; [apply (pad_to_cube_legacy_spec a b c data Hd Ha Hb Hc Hn)|].
    split; [exact Hs|]. split; [|split].
    + rewrite ravel_map3. apply Forall_map, Forall_forall. intros x _.
      apply (mul_infinity_special Fl.prec64 Fl.emax64 x s).
    + unfold load_and_prepare_image.
      rewrite (pad_to_cube_legacy_spec a b c data Hd Ha Hb Hc Hn).
      fold n. cbn [Py.bind]. rewrite Hs. cbn [Py.bind].
      rewrite Hsize. cbn [Py.bind].
      rewrite int_times_unit_size by (trivial; lia). reflexivity.
    + unfold is_cube. rewrite !has_shape3_map3.
      exact (is_cube_embed3 (fun v => v) Fl.pzero n _ _ _ a b c data Hd Fa Fb Fc).
  - destruct (amax_embed3_zero Fl.to_f32 n (centre n a) (centre n b) (centre n c)
                a b c data m klass_to_f32) as (m' & Hm' & Hz'); trivial.
    destruct (factor_of_zero m' Hz') as [_ Hinf].
    destruct (Fl.div32 (Fl.f32_of_Z 255) m') as [|s| |] eqn:Hf; try discriminate.
    assert (Hs : rescale32 (embed3 Fl.to_f32 Fl.pzero n (centre n a)
                                   (centre n b) (centre n c) data)
                 = Ok (map3 (fun v => Fl.mul32 v (S754_infinity s))
                            (embed3 Fl.to_f32 Fl.pzero n (centre n a)
                                    (centre n b) (centre n c) data))).
    { unfold rescale32. rewrite Hm'. cbn [Py.bind]. now rewrite Hf. }
    assert (Hprep : prepare_isotropic data size
                    = Ok (map3 Fl.astype_uint8
                               (map3 (fun v => Fl.mul32 v (S754_infinity s))
                                     (embed3 Fl.to_f32 Fl.pzero n (centre n a)
                                             (centre n b) (centre n c) data)),
                          Z.of_nat n)).
    { unfold prepare_isotropic.
      rewrite (pad_to_cube_isotropic_spec a b c data Hd Ha Hb Hc).
      fold n. cbn [Py.bind]. rewrite Hs. cbn [Py.bind]. now rewrite Hsize. }
    eexists. eexists.
    split; [apply (pad_to_cube_isotropic_spec a b c data Hd Ha Hb Hc)|].
    split; [exact Hs|]. split; [|split; [|split]].
    + rewrite ravel_map3. apply Forall_map, Forall_forall. intros x _.
      apply (mul_infinity_special Fl.prec32 Fl.emax32 x s).
    + exact Hprep.
    + unfold is_cube. rewrite !has_shape3_map3.
      exact (is_cube_embed3 Fl.to_f32 Fl.pzero n _ _ _ a b c data Hd Fa Fb Fc).
    + intros img target_spacing Hzoom.
      unfold load_and_prepare_image_isotropic. rewrite Hzoom. exact Hprep.
Qed.

Lemma zero_maximum_is_not_rejected_witness :
  let data := [[[S754_zero false; Fl.f64_of_Z (-4)]]] in
  let img := {| dataobj := data; zooms := (Fl.one, Fl.one, Fl.one) |} in
  let special x := Fl.is_nan x || Fl.is_inf x = true in
  (has_shape3 1 1 2 data = true /\ amax data = Ok (S754_zero false) /\
   zoom (Libraries := reference_libraries) data (zoom_factors img None)
   = Ok data) /\
  (exists cube scaled,
     pad_to_cube_legacy data = Ok (cube, 2%Z) /\
     rescale64 cube = Ok scaled /\
     Forall special (ravel scaled) /\
     load_and_prepare_image (L := reference_libraries) data (Fl.PyInt 1) =
     Ok (map3 U8 (map3 Fl.astype_uint8 scaled), 2%Z) /\
     is_cube 2 (map3 U8 (map3 Fl.astype_uint8 scaled)) = true) /\
  (exists scaled,
     Forall special (ravel scaled) /\
     load_and_prepare_image_isotropic (L := reference_libraries) img
                                      (Fl.PyInt 1) None
     = Ok (map3 Fl.astype_uint8 scaled, 2%Z)) /\
  load_and_prepare_image_isotropic (L := reference_libraries) img
                                   (Fl.PyInt 1) None
  = Ok ([[[0; 0]; [0; 0]]; [[0; 0]; [0; 0]]]%Z, 2%Z).
Proof.
  split; [repeat split; vm_compute; reflexivity|].
  destruct (zero_maximum_is_not_rejected (L := reference_libraries)
              [[[S754_zero false; Fl.f64_of_Z (-4)]]] 1 1 2 (S754_zero false)
              (Fl.PyInt 1))
    as [Hlegacy (cube & scaled & _ & _ & Hspecial & _ & _ & Hload)];
    [reflexivity | lia | lia | lia | reflexivity | reflexivity | reflexivity |].
  split; [apply Hlegacy; reflexivity|]. split; [|vm_compute; reflexivity].
  exists scaled. split; [exact Hspecial|].
  apply Hload. vm_compute. reflexivity.
Defined.

(** ** RGB writer: volumes of different sides *)

(** C7.  Three non-degenerate volumes of sides 2, 2 and 1: the comparison
    of the sides fails, [maximum] stays unbound, and the call that reads it
    raises [UnboundLocalError], not a [DimensionMismatchError]. *)
Theorem rgb_mismatch_unbound_local :
  write_gif_rgb (L := reference_libraries)
                (ones 2 2 2) (ones 2 2 2) (ones 1 1 1) (Fl.PyInt 1) 1
  = Raise UnboundLocalError.
Proof. vm_compute. reflexivity. Qed.

(** Whenever the three loads return sides that are not all equal, the
    writer ends in that [UnboundLocalError]. *)
Lemma write_gif_rgb_mismatch {L : Libraries} (d1 d2 d3 : vol spec_float)
      (size : Fl.pynum) (frameskip : Z) (o1 o2 o3 : vol pixel) (m1 m2 m3 : Z) :
  load_and_prepare_image d1 size = Ok (o1, m1) ->
  load_and_prepare_image d2 size = Ok (o2, m2) ->
  load_and_prepare_image d3 size = Ok (o3, m3) ->
  ~ (m1 = m2 /\ m1 = m3) ->
  write_gif_rgb d1 d2 d3 size frameskip = Raise UnboundLocalError.
Proof.
  intros E1 E2 E3 Hne. unfold write_gif_rgb.
  rewrite E1, E2, E3. cbn [Py.bind].
  destruct ((m1 =? m2)%Z && (m1 =? m3)%Z) eqn:E; [|reflexivity].
  apply andb_true_iff in E as [Ea Eb].
  apply Z.eqb_eq in Ea, Eb. tauto.
Qed.

(** ** Colormaps *)

Lemma lookup_cmap_unregistered (name : String.string)
      (reg : list (String.string * (pixel -> rgba))) :
  existsb (fun e => String.eqb name (fst e)) reg = false ->
  lookup_cmap name reg = Raise ValueError.
Proof.
  induction reg as [|[k f] reg IH]; simpl; [reflexivity|].
  intros H. apply orb_false_iff in H as [Hk Hr].
  rewrite Hk. now apply IH.
Qed.

(** C8, as stated, fails: the name ["not_a_colormap"] is not registered,
    and the writer ends in the [ValueError] of the lookup, not in a
    [ConfigError]. *)
Lemma unknown_colormap_value_error :
  registered (L := reference_libraries) "not_a_colormap"%string = false /\
  apply_colormap (L := reference_libraries) "not_a_colormap"%string [[[U8 255]]] 1
  = Raise ValueError /\
  write_gif_pseudocolor (L := reference_libraries)
                        (ones 1 1 1) (Fl.PyInt 1) "not_a_colormap"%string 1
  = Raise ValueError /\
  write_gif_pseudocolor (L := reference_libraries)
                        (ones 1 1 1) (Fl.PyInt 1) "not_a_colormap"%string 1
  <> Raise ConfigError.
Proof.
  repeat split; try (vm_compute; reflexivity). vm_compute. discriminate.
Qed.

(** C8, amended.  For every colormap name that is not registered, colormap
    application fails with the [ValueError] of [get_cmap], and so does the
    pseudocolor writer once the volume is loaded and its mosaic built. *)
Theorem unknown_colormap_raises_ValueError {L : Libraries} (name : String.string) :
  registered name = false ->
  (forall new_img maximum,
      apply_colormap name new_img maximum = Raise ValueError) /\
  (forall data size frameskip out_img maximum new_img,
      load_and_prepare_image data size = Ok (out_img, maximum) ->
      create_mosaic_normal out_img maximum frameskip = Ok new_img ->
      write_gif_pseudocolor data size name frameskip = Raise ValueError).
Proof.
  intros Hreg.
  assert (Hg : get_cmap name = Raise ValueError)
    by now apply lookup_cmap_unregistered.
  assert (Ha : forall new_img maximum,
             apply_colormap name new_img maximum = Raise ValueError).
  { intros. unfold apply_colormap. now rewrite Hg. }
  split; trivial.
  intros data size frameskip out_img maximum new_img Hl Hm.
  unfold write_gif_pseudocolor. rewrite Hl. cbn [Py.bind].
  rewrite Hm. cbn [Py.bind]. apply Ha.
Qed.

Lemma unknown_colormap_raises_ValueError_witness :
  registered (L := reference_libraries) "no_such_map"%string = false /\
  (forall new_img maximum,
      apply_colormap (L := reference_libraries) "no_such_map"%string new_img maximum
      = Raise ValueError) /\
  (forall data size frameskip out_img maximum new_img,
      load_and_prepare_image (L := reference_libraries) data size = Ok (out_img, maximum) ->
      create_mosaic_normal out_img maximum frameskip = Ok new_img ->
      write_gif_pseudocolor (L := reference_libraries) data size "no_such_map"%string frameskip
      = Raise ValueError).
Proof.
  split; [reflexivity|].
  apply (unknown_colormap_raises_ValueError (L := reference_libraries) "no_such_map"%string).
  reflexivity.
Defined.

(** ** RGB mosaic: the trailing frames *)

(** C9, as stated, fails: for three cubes of side 1 the composition returns
    4 frames, the combined frame and three zero frames, not the combined
    frame and one zero frame. *)
Lemma rgb_appends_three_frames_example :
  let zero_frame := full3 1 3 3 Fl.pzero in
  (exists combined,
      create_mosaic_RGB [[[1%Z]]] [[[2%Z]]] [[[3%Z]]] 1 1 =
      Ok [combined; zero_frame; zero_frame; zero_frame]) /\
  ~ (exists combined,
        create_mosaic_RGB [[[1%Z]]] [[[2%Z]]] [[[3%Z]]] 1 1 =
        Ok [combined; zero_frame]).
Proof.
  split.
  - eexists. vm_compute. reflexivity.
  - intros [combined H]. vm_compute in H. discriminate.
Qed.

(** C9, amended.  For three cubes of side [n >= 1] and stride 1 the RGB
    composition returns the [n] combined frames followed by exactly three
    all-zero frames.  Combined frame [t] has extents [(n, 3 * n, 3)]; its
    channels 0, 1 and 2 at a pixel are the values of frame [t] of the first,
    second and third normal mosaic at that pixel. *)
Theorem rgb_three_trailing_zero_frames {A : Type} {D : DType A}
        (v1 v2 v3 : vol A) (n : nat) :
  is_cube n v1 = true -> is_cube n v2 = true -> is_cube n v3 = true -> 1 <= n ->
  exists combined m1 m2 m3,
    create_mosaic_RGB v1 v2 v3 (Z.of_nat n) 1 =
    Ok (combined ++ repeat (full3 n (3 * n) 3 Fl.pzero) 3) /\
    length combined = n /\
    create_mosaic_normal v1 (Z.of_nat n) 1 = Ok m1 /\
    create_mosaic_normal v2 (Z.of_nat n) 1 = Ok m2 /\
    create_mosaic_normal v3 (Z.of_nat n) 1 = Ok m3 /\
    forall t f, nth_error combined t = Some f ->
      has_shape3 n (3 * n) 3 f = true /\
      forall r c, r < n -> c < 3 * n ->
        get3 f r c 0 = option_map to_float64 (get3 m1 t r c) /\
        get3 f r c 1 = option_map to_float64 (get3 m2 t r c) /\
        get3 f r c 2 = option_map to_float64 (get3 m3 t r c).
Proof.
  intros H1 H2 H3 Hn.
  eexists. eexists. eexists. eexists.
  split; [apply create_mosaic_RGB_spec; trivial|].
  split; [now rewrite length_map, length_seq|].
  split; [now apply mosaic_normal_unit_stride|].
  split; [now apply mosaic_normal_unit_stride|].
  split; [now apply mosaic_normal_unit_stride|].
  intros t f Hf.
  rewrite nth_error_map, nth_error_seq in Hf.
  destruct (t <? n) eqn:Et; [|discriminate].
  apply Nat.ltb_lt in Et. simpl in Hf. injection Hf as <-.
  pose proof (stack_at_shape v1 v2 v3 n H1 H2 H3 Hn t Et) as Hs.
  destruct (roll_spec 3 n (3 * n) _ Hs) as [Hr Hg]; [lia | lia |].
  split; [now rewrite has_shape3_map3|].
  intros r c Hrn Hc.
  rewrite !get3_map3, !Hg by trivial.
  assert (Hm : forall v : vol A, get3 (map (fun t => frame_at v (Z.of_nat n) (Z.of_nat t))
                                  (seq 0 n)) t r c
                         = get2 (frame_at v (Z.of_nat n) (Z.of_nat t)) r c).
  { intros v. unfold get3. rewrite nth_error_map, nth_error_seq.
    now replace (t <? n) with true by (symmetry; now apply Nat.ltb_lt). }
  rewrite !Hm. repeat split; reflexivity.
Qed.

Lemma rgb_three_trailing_zero_frames_witness :
  let v1 := numbered 2 in
  let v2 := map3 (fun z => (z + 8)%Z) (numbered 2) in
  let v3 := map3 (fun z => (z + 16)%Z) (numbered 2) in
  (is_cube 2 v1 = true /\ is_cube 2 v2 = true /\ is_cube 2 v3 = true) /\
  exists combined m1 m2 m3,
    create_mosaic_RGB v1 v2 v3 2 1 =
    Ok (combined ++ repeat (full3 2 (3 * 2) 3 Fl.pzero) 3) /\
    length combined = 2 /\
    create_mosaic_normal v1 2 1 = Ok m1 /\
    create_mosaic_normal v2 2 1 = Ok m2 /\
    create_mosaic_normal v3 2 1 = Ok m3 /\
    forall t f, nth_error combined t = Some f ->
      has_shape3 2 (3 * 2) 3 f = true /\
      forall r c, r < 2 -> c < 3 * 2 ->
        get3 f r c 0 = option_map to_float64 (get3 m1 t r c) /\
        get3 f r c 1 = option_map to_float64 (get3 m2 t r c) /\
        get3 f r c 2 = option_map to_float64 (get3 m3 t r c).
Proof.
  split; [repeat split; reflexivity|].
  apply (rgb_three_trailing_zero_frames
           (numbered 2)
           (map3 (fun z => (z + 8)%Z) (numbered 2))
           (map3 (fun z => (z + 16)%Z) (numbered 2)) 2);
    [reflexivity | reflexivity | reflexivity | lia].
Defined.

(** ** The loaders return a cube of the returned side *)

(** C10.  Whatever the size factor, a loader that returns hands back an
    array that is a cube whose side is the returned maximum: after the
    legacy path's resize because the two products [size * maximum] and
    [maximum * size] agree, after the isotropic path's resize because the
    side is read back from the array, and without a resize because the
    padded cube has the side [maximum].  The volumes are arrays of extents
    at least 1 (for the isotropic path: the resampled volume), the cube
    side is below [2 ^ 53]. *)
Theorem loaders_return_cube {L : Libraries}
        (data : vol spec_float) (a b c : nat)
        (img : nifti) (target_spacing : option spec_float)
        (data_iso : vol spec_float) (a' b' c' : nat) (size : Fl.pynum) :
  has_shape3 a b c data = true -> 1 <= a -> 1 <= b -> 1 <= c ->
  (Z.of_nat (cube_side a b c) < 2 ^ 53)%Z ->
  zoom (dataobj img) (zoom_factors img target_spacing) = Ok data_iso ->
  has_shape3 a' b' c' data_iso = true -> 1 <= a' -> 1 <= b' -> 1 <= c' ->
  (forall out m,
      load_and_prepare_image data size = Ok (out, m) ->
      (0 <= m)%Z /\ is_cube (Z.to_nat m) out = true) /\
  (forall out m,
      load_and_prepare_image_isotropic img size target_spacing = Ok (out, m) ->
      (0 <= m)%Z /\ is_cube (Z.to_nat m) out = true).
Proof.
  intros Hd Ha Hb Hc Hn Hz Hd' Ha' Hb' Hc'. split.
  - intros out m. now apply (legacy_returns_cube a b c data Hd Ha Hb Hc).
  - intros out m. unfold load_and_prepare_image_isotropic.
    rewrite Hz. cbn [Py.bind].
    now apply (isotropic_returns_cube a' b' c' data_iso Hd' Ha' Hb' Hc').
Qed.

(** At size factor 1 both loaders do return. *)
Lemma loaders_return_at_unit_size {L : Libraries}
      (data : vol spec_float) (a b c : nat) :
  has_shape3 a b c data = true -> 1 <= a -> 1 <= b -> 1 <= c ->
  (Z.of_nat (cube_side a b c) < 2 ^ 53)%Z ->
  Py.returns (load_and_prepare_image data (Fl.PyFloat Fl.one)) = true /\
  Py.returns (prepare_isotropic data (Fl.PyFloat Fl.one)) = true.
Proof.
  intros Hd Ha Hb Hc Hn.
  set (n := cube_side a b c) in *.
  assert (a <= n /\ b <= n /\ c <= n) as (Han & Hbn & Hcn)
      by (unfold n, cube_side; lia).
  pose proof (centre_fits n a Han) as Fa.
  pose proof (centre_fits n b Hbn) as Fb.
  pose proof (centre_fits n c Hcn) as Fc.
  assert (Hn1 : 1 <= n) by lia.
  split.
  - unfold load_and_prepare_image.
    rewrite (pad_to_cube_legacy_spec a b c data Hd Ha Hb Hc Hn).
    fold n. cbn [Py.bind].
    pose proof (is_cube_embed3 (fun v => v) Fl.pzero n _ _ _ a b c data Hd Fa Fb Fc)
      as Hcube.
    destruct (rescale_returns _ Hcube Hn1) as [(w & -> & _) _].
    cbn [Py.bind].
    change (Fl.ne_one (Fl.PyFloat Fl.one)) with false. cbn [Py.bind].
    rewrite int_times_size_one by lia. reflexivity.
  - unfold prepare_isotropic.
    rewrite (pad_to_cube_isotropic_spec a b c data Hd Ha Hb Hc).
    fold n. cbn [Py.bind].
    pose proof (is_cube_embed3 Fl.to_f32 Fl.pzero n _ _ _ a b c data Hd Fa Fb Fc)
      as Hcube.
    destruct (rescale_returns _ Hcube Hn1) as [_ (w & -> & _)].
    reflexivity.
Qed.

Lemma loaders_return_cube_witness :
  let data := [[[Fl.f64_of_Z 1; Fl.f64_of_Z 2]; [Fl.f64_of_Z 3; Fl.f64_of_Z 4]]] in
  let img := {| dataobj := data; zooms := (Fl.one, Fl.one, Fl.one) |} in
  let size := Fl.PyFloat half in
  (has_shape3 1 2 2 data = true /\
   zoom (Libraries := reference_libraries) data (zoom_factors img None) = Ok data /\
   load_and_prepare_image (L := reference_libraries) data size
   = Ok ([[[F64 (Fl.div64 (Fl.f64_of_Z 63) (Fl.f64_of_Z 255))]]], 1%Z) /\
   load_and_prepare_image_isotropic (L := reference_libraries) img size None
   = Ok ([[[63%Z]]], 1%Z)) /\
  (forall out m,
      load_and_prepare_image (L := reference_libraries) data size = Ok (out, m) ->
      (0 <= m)%Z /\ is_cube (Z.to_nat m) out = true) /\
  (forall out m,
      load_and_prepare_image_isotropic (L := reference_libraries) img size None
      = Ok (out, m) ->
      (0 <= m)%Z /\ is_cube (Z.to_nat m) out = true).
Proof.
  split; [repeat split; vm_compute; reflexivity|].
  apply (loaders_return_cube (L := reference_libraries)
           [[[Fl.f64_of_Z 1; Fl.f64_of_Z 2]; [Fl.f64_of_Z 3; Fl.f64_of_Z 4]]] 1 2 2
           {| dataobj := [[[Fl.f64_of_Z 1; Fl.f64_of_Z 2]; [Fl.f64_of_Z 3; Fl.f64_of_Z 4]]];
              zooms := (Fl.one, Fl.one, Fl.one) |}
           None
           [[[Fl.f64_of_Z 1; Fl.f64_of_Z 2]; [Fl.f64_of_Z 3; Fl.f64_of_Z 4]]] 1 2 2
           (Fl.PyFloat half));
    [reflexivity | lia | lia | lia | reflexivity | vm_compute; reflexivity
     | reflexivity | lia | lia | lia].
Defined.

(* ===================================================================== *)
(** * Further properties of the mosaics                                   *)
(* ===================================================================== *)

Lemma map3_map3 {A B C : Type} (f : A -> B) (g : B -> C) (v : vol A) :
  map3 g (map3 f v) = map3 (fun x => g (f x)) v.
Proof.
  unfold map3, map2. rewrite map_map. apply map_ext; intros p.
  rewrite map_map. apply map_ext; intros r. apply map_map.
Qed.

Lemma map3_full3 {A B : Type} (f : A -> B) (a b c : nat) (z : A) :
  map3 f (full3 a b c z) = full3 a b c (f z).
Proof. unfold map3, map2, full3, full2. now rewrite !map_repeat. Qed.

Lemma firstn_seq (k s n : nat) : firstn k (seq s n) = seq s (Nat.min k n).
Proof.
  revert s n. induction k as [|k IH]; intros s [|n]; simpl; trivial.
  now rewrite IH.
Qed.

Lemma clip_nat (n i : nat) : Py.clip n (Z.of_nat i) = Nat.min i n.
Proof.
  unfold Py.clip. destruct (Z.of_nat i <? 0)%Z eqn:E; lia.
Qed.

Lemma length_getslice {X : Type} (l : list X) (i w : nat) :
  length (Py.getslice l (Z.of_nat i) (Z.of_nat i + Z.of_nat w))
  = Nat.min w (length l - i).
Proof.
  unfold Py.getslice. rewrite <- Nat2Z.inj_add, !clip_nat.
  rewrite length_firstn, length_skipn. lia.
Qed.

Lemma getslice_window {X : Type} (l : list X) (i w : nat) :
  i + w <= length l ->
  Py.getslice l (Z.of_nat i) (Z.of_nat i + Z.of_nat w) = firstn w (skipn i l).
Proof.
  intros H. unfold Py.getslice. rewrite <- Nat2Z.inj_add, !clip_nat.
  replace (Nat.min (i + w) (length l) - Nat.min i (length l)) with w by lia.
  now replace (Nat.min i (length l)) with i by lia.
Qed.

Lemma forallb_false_In {X : Type} (p : X -> bool) (l : list X) (x : X) :
  In x l -> p x = false -> forallb p l = false.
Proof.
  intros Hin Hp. destruct (forallb p l) eqn:E; trivial.
  rewrite forallb_forall in E. rewrite (E x Hin) in Hp. discriminate.
Qed.

Lemma mapM_raise {X Y : Type} (f : X -> result Y) (pre post : list X) (x : X)
      (e : Py.exn) :
  (forall y, In y pre -> exists z, f y = Ok z) -> f x = Raise e ->
  Py.mapM f (pre ++ x :: post) = Raise e.
Proof.
  intros Hpre Hx. induction pre as [|y pre IH]; simpl.
  - now rewrite Hx.
  - destruct (Hpre y) as [z Hz]; [now left|]. rewrite Hz. simpl.
    rewrite IH; [reflexivity|]. intros y' Hy'. apply Hpre. now right.
Qed.

Section StackFacts.
Context {A : Type}.

(** A non-empty list of stacks of one shape goes through [np.array],
    [np.rollaxis] and the allocation of the zero frames. *)
Lemma stacks_rolled (stacks : list (vol A)) (k h w : nat) :
  stacks <> [] ->
  (forall s, In s stacks -> has_shape3 k h w s = true) ->
  1 <= k -> 1 <= h -> 1 <= w ->
  array_of_stacks stacks = Ok stacks /\
  rollaxis_1_4 stacks = Ok (map roll stacks) /\
  exists l, last_item (map roll stacks) = Ok l /\
            zeros3_like l = repeat (full3 h w k Fl.pzero) 3.
Proof.
  intros Hne Hall Hk Hh Hw.
  destruct stacks as [|s0 rest]; [congruence|].
  assert (Hs0 : has_shape3 k h w s0 = true) by (apply Hall; now left).
  split; [|split].
  - unfold array_of_stacks.
    rewrite (shape3_of_has_shape k h w s0 Hs0 Hk Hh).
    now rewrite (proj2 (forallb_forall _ _) Hall).
  - unfold rollaxis_1_4.
    apply has_shape3_spec in Hs0 as [Hl _]. rewrite Hl.
    destruct k; [lia|reflexivity].
  - set (rolled := map roll (s0 :: rest)).
    assert (Hr : forall s, In s rolled -> has_shape3 h w k s = true).
    { intros s Hs. apply in_map_iff in Hs as (s' & <- & Hs').
      now apply roll_spec; auto. }
    assert (Hlen : 1 <= length rolled) by (unfold rolled; simpl; lia).
    destruct (nth_error_lt_Some rolled (length rolled - 1)) as [l Hl]; [lia|].
    exists l. unfold last_item. rewrite index_last by trivial.
    cbn [Py.bind]. rewrite Hl. split; [reflexivity|].
    unfold zeros3_like.
    rewrite (shape3_of_has_shape h w k l); trivial.
    apply Hr. eapply nth_error_In; eauto.
Qed.

End StackFacts.

(** ** The depth mosaic *)

Section DepthFacts.
Context {A : Type} {D : DType A}.
Context (v : vol A) (n : nat).
Hypothesis Hv : is_cube n v = true.

Lemma window_at_shape (t : nat) :
  t + 3 <= n -> has_shape3 3 n (3 * n) (window_at v n t) = true.
Proof.
  intros Ht. apply has_shape3_spec. unfold window_at.
  rewrite length_map, length_seq. split; trivial.
  apply Forall_map, Forall_forall. intros i Hi. apply in_seq in Hi.
  apply frame_at_shape; trivial. lia.
Qed.

Lemma window_of_mosaic (t : nat) :
  t + 3 <= n ->
  Py.getslice (map (fun i => frame_at v (Z.of_nat n) (Z.of_nat i)) (seq 0 n))
              (Z.of_nat t * 1) (Z.of_nat t * 1 + 3)
  = window_at v n t.
Proof.
  intros Ht. rewrite Z.mul_1_r. change 3%Z with (Z.of_nat 3).
  rewrite getslice_window by (rewrite length_map, length_seq; lia).
  rewrite skipn_map, firstn_map, skipn_seq, firstn_seq.
  unfold window_at. do 2 f_equal. lia.
Qed.

Lemma create_mosaic_depth_unit_stride :
  4 <= n ->
  create_mosaic_depth v (Z.of_nat n) 1 =
  Ok (map (fun t => map3 (fun x => Fl.astype_uint8 (to_float64 x))
                         (roll (window_at v n t)))
          (seq 0 (n - 3))
      ++ repeat (full3 n (3 * n) 3 0%Z) 3).
Proof.
  intros Hn. unfold create_mosaic_depth.
  rewrite (mosaic_normal_unit_stride n ltac:(lia) v Hv). cbn [Py.bind].
  rewrite range_spec by lia. cbn [Py.bind]. cbv zeta.
  unfold ceil_div. replace (Z.of_nat n - 3 + 1 - 1)%Z with (Z.of_nat (n - 3)) by lia.
  rewrite Z.div_1_r, Nat2Z.id, map_map.
  rewrite (map_ext_in _ (window_at v n)).
  2:{ intros t Ht. apply in_seq in Ht. apply window_of_mosaic. lia. }
  destruct (stacks_rolled (map (window_at v n) (seq 0 (n - 3))) 3 n (3 * n))
    as (Harr & Hroll & l & Hlast & Hzeros); try lia.
  { destruct (n - 3) eqn:E; [lia|]. discriminate. }
  { intros s Hs. apply in_map_iff in Hs as (t & <- & Ht).
    apply in_seq in Ht. apply window_at_shape. lia. }
  rewrite Harr. cbn [Py.bind]. rewrite Hroll. cbn [Py.bind].
  rewrite Hlast. cbn [Py.bind]. rewrite Hzeros.
  rewrite map_app, !map_map, map_repeat, map3_full3.
  f_equal. f_equal. apply map_ext. intros t. apply map3_map3.
Qed.

Lemma create_mosaic_depth_small (frameskip : Z) :
  1 <= n <= 3 -> (1 <= frameskip)%Z ->
  create_mosaic_depth v (Z.of_nat n) frameskip = Raise AxisError.
Proof.
  intros Hn Hfs. unfold create_mosaic_depth.
  rewrite create_mosaic_normal_spec by (trivial; lia). cbn [Py.bind].
  unfold Py.range at 1. cbn [Z.eqb].
  unfold Py.range_len. cbn [Z.ltb Z.compare].
  destruct (0 <? Z.of_nat n - 3)%Z eqn:E; [lia|].
  reflexivity.
Qed.

Lemma create_mosaic_depth_ragged (frameskip : Z) :
  5 <= n -> (2 <= frameskip)%Z ->
  create_mosaic_depth v (Z.of_nat n) frameskip = Raise ValueError.
Proof.
  intros Hn Hfs. unfold create_mosaic_depth.
  rewrite create_mosaic_normal_spec by (trivial; lia). cbn [Py.bind].
  rewrite range_spec by lia. cbn [Py.bind]. cbv zeta.
  unfold ceil_div at 2.
  replace (Z.of_nat n - 3 + 1 - 1)%Z with (Z.of_nat (n - 3)) by lia.
  rewrite Z.div_1_r, Nat2Z.id, map_map.
  set (F := Z.to_nat (ceil_div (Z.of_nat n) frameskip)).
  set (M := map (fun t => frame_at v (Z.of_nat n) (Z.of_nat t * frameskip)) (seq 0 F)).
  assert (HF : 1 <= F <= n - 2).
  { assert (Hd : (0 < frameskip)%Z) by lia.
    destruct (ceil_div_least (Z.of_nat n) frameskip Hd) as [Hup Hleast].
    pose proof (Hleast (Z.of_nat n - 2)%Z ltac:(nia)).
    pose proof (ceil_div_nonneg (Z.of_nat n) frameskip ltac:(lia) ltac:(lia)).
    assert (ceil_div (Z.of_nat n) frameskip <> 0)%Z by nia.
    unfold F. lia. }
  assert (HM : length M = F) by (unfold M; now rewrite length_map, length_seq).
  assert (HMs : forall f, In f M -> has_shape2 n (3 * n) f = true).
  { intros f Hf. apply in_map_iff in Hf as (t & <- & Ht). apply in_seq in Ht.
    apply frame_at_shape; trivial. apply range_index_bound; lia. }
  set (slice := fun t : nat => Py.getslice M (Z.of_nat t * 1) (Z.of_nat t * 1 + 3)).
  assert (Hlen : forall t, length (slice t) = Nat.min 3 (F - t)).
  { intros t. unfold slice. rewrite Z.mul_1_r. change 3%Z with (Z.of_nat 3).
    rewrite length_getslice. now rewrite HM. }
  change (map (fun x : nat => Py.getslice M (Z.of_nat x * 1) (Z.of_nat x * 1 + 3))
              (seq 0 (n - 3))) with (map slice (seq 0 (n - 3))).
  rewrite (seq_head (n - 3)) by lia. cbn [map].
  unfold array_of_stacks.
  destruct (shape3 (slice 0)) as [[k h] w] eqn:Hshape.
  assert (Hk : k = Nat.min 3 F).
  { unfold shape3 in Hshape. injection Hshape as <- _ _.
    rewrite Hlen. f_equal. lia. }
  rewrite (forallb_false_In _ _ (slice (n - 4))); [reflexivity| |].
  - right. apply in_map. apply in_seq. lia.
  - unfold has_shape3. rewrite Hlen.
    replace (Nat.min 3 (F - (n - 4)) =? k) with false; [reflexivity|].
    symmetry. apply Nat.eqb_neq. lia.
Qed.

End DepthFacts.

(** X1.  For a cube of side [n >= 4] and stride 1 the depth mosaic has the
    [n] frames of the normal mosaic: frame [t < n - 3] has extents
    [(n, 3 * n, 3)] and its channels 0, 1, 2 at a pixel are the values
    (converted to [uint8]) of the normal frames [t], [t + 1], [t + 2] at
    that pixel; the last three frames are zero. *)
Theorem depth_mosaic_unit_stride {A : Type} {D : DType A} (v : vol A) (n : nat) :
  is_cube n v = true -> 4 <= n ->
  exists depth normal,
    create_mosaic_depth v (Z.of_nat n) 1 = Ok depth /\
    create_mosaic_normal v (Z.of_nat n) 1 = Ok normal /\
    length depth = n /\ length normal = n /\
    skipn (n - 3) depth = repeat (full3 n (3 * n) 3 0%Z) 3 /\
    forall t f, t < n - 3 -> nth_error depth t = Some f ->
      has_shape3 n (3 * n) 3 f = true /\
      forall r c ch, r < n -> c < 3 * n -> ch < 3 ->
        get3 f r c ch =
        option_map (fun x => Fl.astype_uint8 (to_float64 x))
                   (get3 normal (t + ch) r c).
Proof.
  intros Hv Hn.
  eexists. eexists.
  split; [now apply create_mosaic_depth_unit_stride|].
  split; [apply mosaic_normal_unit_stride; trivial; lia|].
  split; [rewrite length_app, length_map, length_seq, repeat_length; lia|].
  split; [now rewrite length_map, length_seq|].
  split.
  { rewrite skipn_app, length_map, length_seq, Nat.sub_diag.
    rewrite skipn_all2 by (rewrite length_map, length_seq; lia).
    reflexivity. }
  intros t f Ht Hf.
  rewrite nth_error_app1 in Hf by (rewrite length_map, length_seq; lia).
  rewrite nth_error_map, nth_error_seq in Hf.
  replace (t <? n - 3) with true in Hf by (symmetry; now apply Nat.ltb_lt).
  simpl in Hf. injection Hf as <-.
  pose proof (window_at_shape v n Hv t ltac:(lia)) as Hw.
  destruct (roll_spec 3 n (3 * n) _ Hw) as [Hr Hg]; [lia | lia |].
  split; [now rewrite has_shape3_map3|].
  intros r c ch Hrn Hc Hch.
  rewrite get3_map3, Hg by trivial. f_equal.
  unfold get3, window_at.
  rewrite !nth_error_map, !nth_error_seq.
  replace (ch <? 3) with true by (symmetry; now apply Nat.ltb_lt).
  replace (t + ch <? n) with true by (symmetry; apply Nat.ltb_lt; lia).
  reflexivity.
Qed.

Lemma depth_mosaic_unit_stride_witness :
  is_cube 4 (numbered 4) = true /\
  exists depth normal,
    create_mosaic_depth (numbered 4) 4 1 = Ok depth /\
    create_mosaic_normal (numbered 4) 4 1 = Ok normal /\
    length depth = 4 /\ length normal = 4 /\
    skipn (4 - 3) depth = repeat (full3 4 (3 * 4) 3 0%Z) 3 /\
    forall t f, t < 4 - 3 -> nth_error depth t = Some f ->
      has_shape3 4 (3 * 4) 3 f = true /\
      forall r c ch, r < 4 -> c < 3 * 4 -> ch < 3 ->
        get3 f r c ch =
        option_map (fun x => Fl.astype_uint8 (to_float64 x))
                   (get3 normal (t + ch) r c).
Proof.
  split; [reflexivity|].
  apply (depth_mosaic_unit_stride (numbered 4) 4); [reflexivity | lia].
Defined.

(** X2.  For a cube of side 1, 2 or 3 the depth mosaic does not exist,
    whatever the stride: [range(maximum - 3)] is empty, the empty list is
    an array of rank 1, and [np.rollaxis] raises [AxisError]. *)
Theorem depth_mosaic_small_side {A : Type} {D : DType A}
        (v : vol A) (n : nat) (frameskip : Z) :
  is_cube n v = true -> 1 <= n <= 3 -> (1 <= frameskip)%Z ->
  create_mosaic_depth v (Z.of_nat n) frameskip = Raise AxisError.
Proof. intros Hv Hn Hfs. now apply create_mosaic_depth_small. Qed.

Lemma depth_mosaic_small_side_witness :
  is_cube 3 (numbered 3) = true /\
  create_mosaic_depth (numbered 3) 3 2 = Raise AxisError.
Proof.
  split; [reflexivity|].
  apply (depth_mosaic_small_side (numbered 3) 3 2); [reflexivity | lia | lia].
Defined.

(** X3.  For a cube of side [n >= 5] and a stride of 2 or more the depth
    mosaic does not exist either: the windows [new_img[i:i + 3]] for
    [i < n - 3] run off the end of the shorter normal mosaic, the list of
    stacks is ragged, and [np.array] raises [ValueError]. *)
Theorem depth_mosaic_ragged {A : Type} {D : DType A}
        (v : vol A) (n : nat) (frameskip : Z) :
  is_cube n v = true -> 5 <= n -> (2 <= frameskip)%Z ->
  create_mosaic_depth v (Z.of_nat n) frameskip = Raise ValueError.
Proof. intros Hv Hn Hfs. now apply create_mosaic_depth_ragged. Qed.

Lemma depth_mosaic_ragged_witness :
  is_cube 5 (numbered 5) = true /\
  create_mosaic_depth (numbered 5) 5 3 = Raise ValueError.
Proof.
  split; [reflexivity|].
  apply (depth_mosaic_ragged (numbered 5) 5 3); [reflexivity | lia | lia].
Defined.

(** ** Strides that the RGB and pseudocolor variants do not follow *)

Lemma index0_out_of_range {A : Type} (l : vol A) (i : Z) :
  (Z.of_nat (length l) <= i)%Z -> index0 l i = Raise IndexError.
Proof.
  intros H. unfold index0, Py.index.
  destruct (i <? 0)%Z eqn:E; [lia|].
  destruct (0 <=? i)%Z; destruct (i <? Z.of_nat (length l))%Z eqn:E2;
    try reflexivity; lia.
Qed.

Lemma seq_split (k n : nat) :
  k < n -> seq 0 n = seq 0 k ++ k :: seq (S k) (n - S k).
Proof.
  intros H. replace n with (k + S (n - S k)) at 1 by lia.
  now rewrite seq_app.
Qed.

Lemma stride_shortens (n : nat) (frameskip : Z) :
  2 <= n -> (2 <= frameskip)%Z ->
  1 <= Z.to_nat (ceil_div (Z.of_nat n) frameskip) < n.
Proof.
  intros Hn Hfs.
  assert (Hd : (0 < frameskip)%Z) by lia.
  destruct (ceil_div_least (Z.of_nat n) frameskip Hd) as [Hup Hleast].
  pose proof (Hleast (Z.of_nat n - 1)%Z ltac:(nia)).
  pose proof (ceil_div_nonneg (Z.of_nat n) frameskip ltac:(lia) ltac:(lia)).
  assert (ceil_div (Z.of_nat n) frameskip <> 0)%Z by nia.
  lia.
Qed.

Lemma create_mosaic_RGB_short {A : Type} {D : DType A}
      (v1 v2 v3 : vol A) (n : nat) (frameskip : Z) :
  is_cube n v1 = true -> is_cube n v2 = true -> is_cube n v3 = true ->
  2 <= n -> (2 <= frameskip)%Z ->
  create_mosaic_RGB v1 v2 v3 (Z.of_nat n) frameskip = Raise IndexError.
Proof.
  intros H1 H2 H3 Hn Hfs. unfold create_mosaic_RGB.
  rewrite !create_mosaic_normal_spec by (trivial; lia). cbn [Py.bind].
  rewrite range_spec by lia. cbn [Py.bind].
  replace (ceil_div (Z.of_nat n) 1) with (Z.of_nat n)
    by (unfold ceil_div; rewrite Z.div_1_r; lia).
  rewrite Nat2Z.id.
  pose proof (stride_shortens n frameskip Hn Hfs) as HF.
  set (F := Z.to_nat (ceil_div (Z.of_nat n) frameskip)) in *.
  rewrite (seq_split F n) by lia. rewrite map_app. cbn [map].
  rewrite mapM_raise with (e := IndexError); [reflexivity| |].
  - intros i Hi. apply in_map_iff in Hi as (t & <- & Ht). apply in_seq in Ht.
    rewrite Z.mul_1_r.
    assert (Hi : forall v : vol A,
               index0 (map (fun t => frame_at v (Z.of_nat n) (Z.of_nat t * frameskip))
                           (seq 0 F)) (Z.of_nat t)
               = Ok (frame_at v (Z.of_nat n) (Z.of_nat t * frameskip))).
    { intros v. apply index0_nth. rewrite nth_error_map, nth_error_seq.
      now replace (t <? F) with true by (symmetry; apply Nat.ltb_lt; lia). }
    rewrite !Hi. cbn [Py.bind]. eauto.
  - rewrite Z.mul_1_r.
    rewrite index0_out_of_range; [reflexivity|].
    rewrite length_map, length_seq. lia.
Qed.

(** X4.  For three cubes of side [n >= 2] and a stride of 2 or more the RGB
    composition raises [IndexError]: it reads the frames [0 .. n-1] of
    mosaics that have only [ceil (n / frameskip)] frames. *)
Theorem rgb_mosaic_stride_index_error {A : Type} {D : DType A}
        (v1 v2 v3 : vol A) (n : nat) (frameskip : Z) :
  is_cube n v1 = true -> is_cube n v2 = true -> is_cube n v3 = true ->
  2 <= n -> (2 <= frameskip)%Z ->
  create_mosaic_RGB v1 v2 v3 (Z.of_nat n) frameskip = Raise IndexError.
Proof. intros H1 H2 H3 Hn Hfs. now apply create_mosaic_RGB_short. Qed.

Lemma rgb_mosaic_stride_index_error_witness :
  is_cube 2 (numbered 2) = true /\
  create_mosaic_RGB (numbered 2) (numbered 2) (numbered 2) 2 2 = Raise IndexError.
Proof.
  split; [reflexivity|].
  apply (rgb_mosaic_stride_index_error (numbered 2) (numbered 2) (numbered 2) 2 2);
    [reflexivity | reflexivity | reflexivity | lia | lia].
Defined.

Lemma map_nth_seq {X : Type} (l : list X) (d : X) (m : nat) :
  m <= length l -> map (fun t => nth t l d) (seq 0 m) = firstn m l.
Proof.
  revert l. induction m as [|m IH]; intros l Hm; [reflexivity|].
  destruct l as [|x l]; simpl in Hm; [lia|].
  simpl. f_equal. rewrite <- seq_shift, map_map. apply IH. lia.
Qed.

Lemma apply_colormap_spec {L : Libraries} (name : String.string)
      (cmap : pixel -> rgba) (new_img : vol pixel) (maximum : Z) :
  get_cmap name = Ok cmap ->
  ((1 <= maximum <= Z.of_nat (length new_img))%Z ->
   apply_colormap name new_img maximum =
   Ok (map (map2 (rgb8 cmap)) (firstn (Z.to_nat maximum) new_img))) /\
  ((Z.of_nat (length new_img) < maximum)%Z ->
   apply_colormap name new_img maximum = Raise IndexError) /\
  ((maximum <= 0)%Z ->
   apply_colormap name new_img maximum = Raise AxisError).
Proof.
  intros Hc. unfold apply_colormap. rewrite Hc. cbn [Py.bind].
  split; [|split].
  - intros Hm. rewrite range_spec by lia. cbn [Py.bind].
    replace (ceil_div maximum 1) with maximum
      by (unfold ceil_div; rewrite Z.div_1_r; lia).
    set (m := Z.to_nat maximum).
    rewrite (mapM_map _ (fun i => map2 cmap (nth (Z.to_nat i) new_img []))).
    + cbn [Py.bind]. rewrite map_map.
      rewrite (map_ext _ (fun t => map2 cmap (nth t new_img [])))
        by (intros t; now rewrite Z.mul_1_r, Nat2Z.id).
      rewrite <- (map_map (fun t => nth t new_img []) (map2 cmap)).
      rewrite map_nth_seq by lia.
      destruct (firstn m new_img) as [|f fs] eqn:Ef.
      * assert (length (firstn m new_img) = m) by (apply firstn_length_le; lia).
        rewrite Ef in H. simpl in H. lia.
      * cbn [map]. f_equal. rewrite <- !map_cons.
        rewrite map_map. apply map_ext. intros fr.
        unfold map2. rewrite map_map. apply map_ext. intros row.
        rewrite map_map. apply map_ext. intros p.
        unfold rgb8. now destruct (cmap p) as [[[r g] b] a].
    + intros i Hi. apply in_map_iff in Hi as (t & <- & Ht). apply in_seq in Ht.
      rewrite Z.mul_1_r, Nat2Z.id.
      assert (Hlt : t < length new_img) by lia.
      rewrite (index0_nth new_img t (nth t new_img []));
        [reflexivity|now apply nth_error_nth'].
  - intros Hm. rewrite range_spec by lia. cbn [Py.bind].
    replace (ceil_div maximum 1) with maximum
      by (unfold ceil_div; rewrite Z.div_1_r; lia).
    rewrite (seq_split (length new_img)) by lia.
    rewrite map_app. cbn [map].
    rewrite mapM_raise with (e := IndexError); [reflexivity| |].
    + intros i Hi. apply in_map_iff in Hi as (t & <- & Ht). apply in_seq in Ht.
      rewrite Z.mul_1_r.
      rewrite (index0_nth new_img t (nth t new_img []));
        [cbn [Py.bind]; eauto|apply nth_error_nth'; lia].
    + rewrite Z.mul_1_r, index0_out_of_range; [reflexivity|lia].
  - intros Hm. unfold Py.range. cbn [Z.eqb].
    unfold Py.range_len. cbn [Z.ltb Z.compare].
    destruct (0 <? maximum)%Z eqn:E; [lia|]. reflexivity.
Qed.

(** X5.  With a registered colormap, colormap application returns the
    first [maximum] frames of the mosaic, every pixel mapped through the
    colormap, its alpha dropped and the rest scaled to [uint8]; a mosaic
    with fewer than [maximum] frames is an [IndexError], a [maximum] below
    1 an [AxisError]. *)
Theorem colormap_frames {L : Libraries} (name : String.string)
        (cmap : pixel -> rgba) (new_img : vol pixel) (maximum : Z) :
  get_cmap name = Ok cmap ->
  ((1 <= maximum <= Z.of_nat (length new_img))%Z ->
   apply_colormap name new_img maximum =
   Ok (map (map2 (rgb8 cmap)) (firstn (Z.to_nat maximum) new_img))) /\
  ((Z.of_nat (length new_img) < maximum)%Z ->
   apply_colormap name new_img maximum = Raise IndexError) /\
  ((maximum <= 0)%Z ->
   apply_colormap name new_img maximum = Raise AxisError).
Proof. intros Hc. now apply apply_colormap_spec. Qed.

Lemma colormap_frames_witness :
  get_cmap (L := reference_libraries) "gray"%string = Ok grey_ramp /\
  (apply_colormap (L := reference_libraries) "gray"%string [[[U8 255; U8 0]]] 1 =
   Ok (map (map2 (rgb8 grey_ramp)) (firstn (Z.to_nat 1) [[[U8 255; U8 0]]]))) /\
  (apply_colormap (L := reference_libraries) "gray"%string [[[U8 255; U8 0]]] 2 =
   Raise IndexError) /\
  (apply_colormap (L := reference_libraries) "gray"%string [[[U8 255; U8 0]]] 0 =
   Raise AxisError).
Proof.
  split; [reflexivity|].
  pose proof (colormap_frames (L := reference_libraries) "gray"%string grey_ramp
                [[[U8 255; U8 0]]]) as H.
  split; [apply (H 1%Z eq_refl); simpl; lia|].
  split; [apply (H 2%Z eq_refl); simpl; lia|].
  apply (H 0%Z eq_refl). lia.
Defined.

(** ** Strides and sides the normal mosaic is not meant for *)

(** X6.  The normal mosaic does not check its arguments: a stride of 0 is
    the [ValueError] of [range]; a negative stride gives an empty mosaic
    and no error; for a cube of side [n] a [maximum] above [n] is an
    [IndexError]. *)
Theorem mosaic_normal_unchecked_arguments {A : Type} (v : vol A) (maximum frameskip : Z) :
  (frameskip = 0%Z -> create_mosaic_normal v maximum frameskip = Raise ValueError) /\
  ((frameskip < 0)%Z -> (0 <= maximum)%Z ->
   create_mosaic_normal v maximum frameskip = Ok []) /\
  (forall n, is_cube n v = true -> 1 <= n -> (Z.of_nat n < maximum)%Z ->
             (1 <= frameskip)%Z ->
             create_mosaic_normal v maximum frameskip = Raise IndexError).
Proof.
  split; [|split].
  - intros ->. reflexivity.
  - intros Hfs Hm. unfold create_mosaic_normal, Py.range.
    destruct (frameskip =? 0)%Z eqn:E; [lia|].
    unfold Py.range_len.
    destruct (0 <? frameskip)%Z eqn:E1; [lia|].
    destruct (maximum <? 0)%Z eqn:E2; [lia|].
    reflexivity.
  - intros n Hv Hn Hm Hfs. unfold create_mosaic_normal.
    rewrite range_spec by lia. cbn [Py.bind].
    assert (Hc : 1 <= Z.to_nat (ceil_div maximum frameskip)).
    { assert (Hd : (0 < frameskip)%Z) by lia.
      destruct (ceil_div_least maximum frameskip Hd) as [Hup _].
      pose proof (ceil_div_nonneg maximum frameskip ltac:(lia) Hfs).
      assert (ceil_div maximum frameskip <> 0)%Z by nia. lia. }
    rewrite (seq_head _ Hc). cbn [map].
    change (Z.of_nat 0 * frameskip)%Z with 0%Z.
    enough (Hf : mosaic_frame v maximum 0 = Raise IndexError)
      by (cbn [Py.mapM Py.bind]; now rewrite Hf).
    unfold mosaic_frame. unfold is_cube in Hv.
    destruct (index0_spec v 0%Z Hv ltac:(lia)) as (p & -> & _ & _).
    cbn [Py.bind]. unfold index1.
    rewrite (shape3_of_has_shape n n n v Hv) by lia. cbn [fst snd].
    unfold Py.index.
    destruct (maximum - 0 - 1 <? 0)%Z eqn:E; [lia|].
    destruct (0 <=? maximum - 0 - 1)%Z;
      destruct (maximum - 0 - 1 <? Z.of_nat n)%Z eqn:E2; try reflexivity; lia.
Qed.

Lemma mosaic_normal_unchecked_arguments_witness :
  create_mosaic_normal (numbered 2) 2 0 = Raise ValueError /\
  create_mosaic_normal (numbered 2) 2 (-1) = Ok [] /\
  create_mosaic_normal (numbered 2) 3 1 = Raise IndexError.
Proof.
  split; [apply (mosaic_normal_unchecked_arguments (numbered 2) 2 0); reflexivity|].
  split; [apply (mosaic_normal_unchecked_arguments (numbered 2) 2 (-1)); lia|].
  apply (mosaic_normal_unchecked_arguments (numbered 2) 3 1) with (n := 2);
    [reflexivity | lia | lia | lia].
Defined.

(** ** The legacy loader, voxel by voxel *)

Lemma pad_axis_full {X : Type} (z : X) (n : nat) (mid : list X) :
  length mid = n -> pad_axis z n 0 mid = mid.
Proof.
  intros H. unfold pad_axis. rewrite H, Nat.sub_0_r, Nat.sub_diag.
  simpl. apply app_nil_r.
Qed.

Lemma embed3_cube {A B : Type} (cast : B -> A) (z : A) (n : nat) (data : vol B) :
  is_cube n data = true -> embed3 cast z n 0 0 0 data = map3 cast data.
Proof.
  intros Hd. apply has_shape3_spec in Hd as [Hl Hall].
  unfold embed3. rewrite pad_axis_full by now rewrite length_map.
  unfold map3, map2. apply map_ext_in. intros p Hp.
  rewrite Forall_forall in Hall.
  pose proof (Hall p Hp) as Hs. apply has_shape2_spec in Hs as [Hlp Hrows].
  rewrite pad_axis_full by now rewrite length_map.
  apply map_ext_in. intros r Hr.
  rewrite Forall_forall in Hrows.
  apply pad_axis_full. rewrite length_map. now apply Hrows.
Qed.

(** X7.  At size factor 1, the [int] or the [float], the legacy loader
    returns a [uint8] cube of side [n = max a b c] in which the voxel of
    the volume at [(i, j, k)] sits at [(i + sx, j + sy, k + sz)],
    [s = (n - extent) / 2] rounded down,
    multiplied by [255 / max] (the maximum of the padded cube) and cast;
    every voxel outside that block is 0.  The cast gives the integer part
    of a product where that is a byte, and 0 where it does not fit a
    signed integer of 32 bits. *)
Theorem legacy_loader_voxels {L : Libraries}
        (data : vol spec_float) (a b c : nat) (size : Fl.pynum) :
  has_shape3 a b c data = true -> 1 <= a -> 1 <= b -> 1 <= c ->
  (Z.of_nat (cube_side a b c) < 2 ^ 53)%Z ->
  Fl.ne_one size = false ->
  let n := cube_side a b c in
  let sx := (n - a) / 2 in
  let sy := (n - b) / 2 in
  let sz := (n - c) / 2 in
  exists cube m out,
    pad_to_cube_legacy data = Ok (cube, Z.of_nat n) /\
    amax cube = Ok m /\
    load_and_prepare_image data size = Ok (out, Z.of_nat n) /\
    is_cube n out = true /\
    (forall i j k, i < n -> j < n -> k < n ->
       get3 out i j k =
       if inside sx a i && inside sy b j && inside sz c k
       then option_map
              (fun x => U8 (Fl.astype_uint8
                              (Fl.mul64 x (Fl.div64 (Fl.f64_of_Z 255) m))))
              (get3 data (i - sx) (j - sy) (k - sz))
       else Some (U8 0)) /\
    (forall i j k x s mt e,
       i < a -> j < b -> k < c ->
       get3 data i j k = Some x ->
       Fl.mul64 x (Fl.div64 (Fl.f64_of_Z 255) m) = S754_finite s mt e ->
       ((0 <= Fl.trunc s mt e <= 255)%Z ->
        get3 out (i + sx) (j + sy) (k + sz) = Some (U8 (Fl.trunc s mt e))) /\
       ((Fl.trunc s mt e < - 2 ^ 31 \/ 2 ^ 31 <= Fl.trunc s mt e)%Z ->
        get3 out (i + sx) (j + sy) (k + sz) = Some (U8 0))).
Proof.
  intros Hd Ha Hb Hc Hn Hsize n sx sy sz.
  change sx with (centre n a). change sy with (centre n b).
  change sz with (centre n c).
  assert (a <= n /\ b <= n /\ c <= n) as (Han & Hbn & Hcn)
      by (unfold n, cube_side; lia).
  pose proof (centre_fits n a Han) as Fa.
  pose proof (centre_fits n b Hbn) as Fb.
  pose proof (centre_fits n c Hcn) as Fc.
  pose proof (is_cube_embed3 (fun x => x) Fl.pzero n _ _ _ a b c data Hd Fa Fb Fc)
    as Hcube.
  assert (Hn1 : 1 <= n) by lia.
  destruct (amax_nonempty _ Hcube Hn1) as [m Hm].
  set (factor := Fl.div64 (Fl.f64_of_Z 255) m).
  set (out := map3 U8 (map3 Fl.astype_uint8
                 (map3 (fun v => Fl.mul64 v factor)
                    (embed3 (fun x => x) Fl.pzero n (centre n a) (centre n b)
                            (centre n c) data)))).
  assert (Hget : forall i j k, i < n -> j < n -> k < n ->
            get3 out i j k =
            if inside (centre n a) a i && inside (centre n b) b j
               && inside (centre n c) c k
            then option_map
                   (fun x => U8 (Fl.astype_uint8 (Fl.mul64 x factor)))
                   (get3 data (i - centre n a) (j - centre n b) (k - centre n c))
            else Some (U8 0)).
  { intros i j k Hi Hj Hk. unfold out.
    rewrite !get3_map3.
    rewrite (get3_embed3 (fun x => x) Fl.pzero n _ _ _ a b c data Hd Fa Fb Fc)
      by trivial.
    destruct (inside (centre n a) a i && inside (centre n b) b j
              && inside (centre n c) c k).
    - now destruct (get3 data (i - centre n a) (j - centre n b) (k - centre n c)).
    - cbn [option_map]. unfold Fl.mul64. now rewrite astype_mul_zero. }
  eexists. exists m, out.
  split; [apply (pad_to_cube_legacy_spec a b c data Hd Ha Hb Hc Hn)|].
  split; [exact Hm|].
  split.
  { unfold load_and_prepare_image.
    rewrite (pad_to_cube_legacy_spec a b c data Hd Ha Hb Hc Hn).
    fold n. cbn [Py.bind]. unfold rescale64. rewrite Hm. cbn [Py.bind].
    rewrite Hsize. cbn [Py.bind].
    rewrite int_times_unit_size by (trivial; lia). reflexivity. }
  split; [unfold is_cube, out; rewrite !has_shape3_map3; exact Hcube|].
  split; [exact Hget|].
  intros i j k x s mt e Hi Hj Hk Hx Hprod.
  assert (Hat : get3 out (i + centre n a) (j + centre n b) (k + centre n c)
                = Some (U8 (Fl.astype_uint8 (S754_finite s mt e)))).
  { rewrite Hget by lia. unfold inside.
    replace (centre n a <=? i + centre n a) with true
      by (symmetry; apply Nat.leb_le; lia).
    replace (i + centre n a <? centre n a + a) with true
      by (symmetry; apply Nat.ltb_lt; lia).
    replace (centre n b <=? j + centre n b) with true
      by (symmetry; apply Nat.leb_le; lia).
    replace (j + centre n b <? centre n b + b) with true
      by (symmetry; apply Nat.ltb_lt; lia).
    replace (centre n c <=? k + centre n c) with true
      by (symmetry; apply Nat.leb_le; lia).
    replace (k + centre n c <? centre n c + c) with true
      by (symmetry; apply Nat.ltb_lt; lia).
    cbn [andb]. rewrite !Nat.add_sub, Hx. cbn [option_map].
    fold factor in Hprod. now rewrite Hprod. }
  rewrite Hat. split.
  - intros Hbyte. now rewrite astype_in_range.
  - intros Hout. now rewrite astype_out_of_range.
Qed.

Lemma legacy_loader_voxels_witness :
  let data := [[[Fl.f64_of_Z (-10000000); Fl.f64_of_Z 1]]] in
  has_shape3 1 1 2 data = true /\
  (exists out,
     load_and_prepare_image (L := reference_libraries) data (Fl.PyInt 1)
     = Ok (out, 2%Z) /\
     is_cube 2 out = true /\
     get3 out 0 0 0 = Some (U8 0) /\ get3 out 0 0 1 = Some (U8 255) /\
     get3 out 1 0 1 = Some (U8 0)) /\
  load_and_prepare_image (L := reference_libraries) data (Fl.PyInt 1)
  = Ok (map3 U8 [[[0; 255]; [0; 0]]; [[0; 0]; [0; 0]]]%Z, 2%Z).
Proof.
  split; [reflexivity|]. split; [|vm_compute; reflexivity].
  destruct (legacy_loader_voxels (L := reference_libraries)
              [[[Fl.f64_of_Z (-10000000); Fl.f64_of_Z 1]]] 1 1 2 (Fl.PyInt 1))
    as (cube & m & out & Hpad & Hm & Hload & Hcube & Hget & Hvox);
    [reflexivity | lia | lia | lia | reflexivity | reflexivity |].
  exists out. split; [exact Hload|]. split; [exact Hcube|].
  vm_compute in Hpad. injection Hpad as <-.
  vm_compute in Hm. injection Hm as <-.
  split; [|split].
  - destruct (Hvox 0 0 0 (Fl.f64_of_Z (-10000000)) true
                   5347737600000000%positive (-21)%Z
                   ltac:(lia) ltac:(lia) ltac:(lia) eq_refl
                   ltac:(vm_compute; reflexivity)) as [_ H].
    apply H. vm_compute. left. reflexivity.
  - destruct (Hvox 0 0 1 (Fl.f64_of_Z 1) false
                   8972014882652160%positive (-45)%Z
                   ltac:(lia) ltac:(lia) ltac:(lia) eq_refl
                   ltac:(vm_compute; reflexivity)) as [H _].
    apply H. vm_compute. split; discriminate.
  - rewrite (Hget 1 0 1) by (vm_compute; lia). reflexivity.
Defined.

(** X8.  A volume that is already a cube is not padded: the legacy path
    keeps it as it is, the isotropic path only converts it to [float32]. *)
Theorem cubic_volume_not_padded (data : vol spec_float) (n : nat) :
  is_cube n data = true -> 1 <= n -> (Z.of_nat n < 2 ^ 53)%Z ->
  pad_to_cube_legacy data = Ok (data, Z.of_nat n) /\
  pad_to_cube_isotropic data = Ok (map3 Fl.to_f32 data, Z.of_nat n).
Proof.
  intros Hd Hn Hb.
  assert (Hs : cube_side n n n = n) by (unfold cube_side; lia).
  assert (Hc : centre n n = 0) by (unfold centre; now rewrite Nat.sub_diag).
  split.
  - rewrite (pad_to_cube_legacy_spec n n n data Hd Hn Hn Hn) by now rewrite Hs.
    rewrite Hs, Hc, embed3_cube by trivial.
    do 2 f_equal. unfold map3, map2.
    rewrite <- (map_id data) at 2. apply map_ext. intros p.
    rewrite <- (map_id p) at 2. apply map_ext. intros r. apply map_id.
  - rewrite (pad_to_cube_isotropic_spec n n n data Hd Hn Hn Hn).
    now rewrite Hs, Hc, embed3_cube.
Qed.

Lemma cubic_volume_not_padded_witness :
  is_cube 2 (ones 2 2 2) = true /\
  pad_to_cube_legacy (ones 2 2 2) = Ok (ones 2 2 2, 2%Z) /\
  pad_to_cube_isotropic (ones 2 2 2) = Ok (map3 Fl.to_f32 (ones 2 2 2), 2%Z).
Proof.
  split; [reflexivity|].
  apply (cubic_volume_not_padded (ones 2 2 2) 2); [reflexivity | lia | reflexivity].
Defined.

(* ===================================================================== *)
(** * The writers, from the volume to the frames                          *)
(* ===================================================================== *)

Lemma rectangular_spec {A : Type} (v : vol A) :
  rectangular v = true ->
  exists a b c, has_shape3 a b c v = true /\ 1 <= a /\ 1 <= b /\ 1 <= c /\
                side v = cube_side a b c.
Proof.
  unfold rectangular, side. destruct (shape3 v) as [[a b] c]. intros H.
  apply andb_true_iff in H as [H Hc]. apply andb_true_iff in H as [H Hb].
  apply andb_true_iff in H as [H Ha].
  exists a, b, c. repeat split; trivial; now apply Nat.leb_le.
Qed.

Lemma legacy_loaded_cube {L : Libraries} (data : vol spec_float)
      (size : Fl.pynum) (out : vol pixel) (m : Z) :
  rectangular data = true -> (Z.of_nat (side data) < 2 ^ 53)%Z ->
  load_and_prepare_image data size = Ok (out, m) ->
  (0 <= m)%Z /\ is_cube (Z.to_nat m) out = true.
Proof.
  intros Hr Hb Hl.
  destruct (rectangular_spec data Hr) as (a & b & c & Hd & Ha & Hb' & Hc & Hs).
  rewrite Hs in Hb.
  exact (legacy_returns_cube a b c data Hd Ha Hb' Hc size out m Hb Hl).
Qed.

Lemma is_cube_zero {A : Type} (v : vol A) : is_cube 0 v = true -> v = [].
Proof.
  intros H. apply has_shape3_spec in H as [H _]. now destruct v.
Qed.

Lemma mosaic_normal_zero {A : Type} (v : vol A) (frameskip : Z) :
  (1 <= frameskip)%Z -> create_mosaic_normal v 0 frameskip = Ok [].
Proof.
  intros Hfs. unfold create_mosaic_normal. rewrite range_spec by lia.
  unfold ceil_div. rewrite Z.div_small by lia. reflexivity.
Qed.

Lemma mosaic_normal_frames {A : Type} (v : vol A) (m frameskip : Z) :
  (0 <= m)%Z -> is_cube (Z.to_nat m) v = true -> (1 <= frameskip)%Z ->
  exists frames,
    create_mosaic_normal v m frameskip = Ok frames /\
    Z.of_nat (length frames) = ceil_div m frameskip /\
    Forall (fun f => has_shape2 (Z.to_nat m) (3 * Z.to_nat m) f = true) frames.
Proof.
  intros Hm Hv Hfs.
  remember (Z.to_nat m) as n eqn:En.
  assert (Hmn : m = Z.of_nat n) by lia. clear En. subst m.
  destruct (Nat.eq_dec n 0) as [->|Hne].
  - change (Z.of_nat 0) with 0%Z.
    rewrite mosaic_normal_zero by trivial. exists []. repeat split.
    + unfold ceil_div. now rewrite Z.div_small by lia.
    + constructor.
  - rewrite create_mosaic_normal_spec by (trivial; lia).
    eexists. split; [reflexivity|]. split.
    + rewrite length_map, length_seq.
      pose proof (ceil_div_nonneg (Z.of_nat n) frameskip Hm Hfs). lia.
    + apply Forall_map, Forall_forall. intros t Ht. apply in_seq in Ht.
      apply frame_at_shape; trivial.
      apply range_index_bound; lia.
Qed.

Lemma has_shape3_full3 {A : Type} (a b c : nat) (z : A) :
  has_shape3 a b c (full3 a b c z) = true.
Proof.
  apply has_shape3_spec. unfold full3. rewrite repeat_length. split; trivial.
  apply Forall_forall. intros p Hp. apply repeat_spec in Hp. subst p.
  apply has_shape2_full2.
Qed.

Lemma mosaic_depth_zero {A : Type} {D : DType A} (v : vol A) (frameskip : Z) :
  (1 <= frameskip)%Z -> create_mosaic_depth v 0 frameskip = Raise AxisError.
Proof.
  intros Hfs. unfold create_mosaic_depth.
  now rewrite mosaic_normal_zero by trivial.
Qed.

Lemma mosaic_RGB_zero {A : Type} {D : DType A} (v1 v2 v3 : vol A) (frameskip : Z) :
  (1 <= frameskip)%Z -> create_mosaic_RGB v1 v2 v3 0 frameskip = Raise AxisError.
Proof.
  intros Hfs. unfold create_mosaic_RGB.
  now rewrite !mosaic_normal_zero by trivial.
Qed.

(** X9.  The grayscale writer cannot fail between the loader and the
    encoder: when the resampled volume is rectangular and the isotropic
    loader returns a cube of side [m], [write_gif_normal] hands over
    [ceil (m / frameskip)] frames of [m] rows and [3 * m] columns, for
    every size factor and every stride of 1 or more (no frame when
    [m = 0]). *)
Theorem write_gif_normal_frames {L : Libraries} (img : nifti)
        (data_iso : vol spec_float) (size : Fl.pynum) (frameskip : Z)
        (out : vol Z) (m : Z) :
  zoom (dataobj img) (zoom_factors img None) = Ok data_iso ->
  rectangular data_iso = true ->
  load_and_prepare_image_isotropic img size None = Ok (out, m) ->
  (1 <= frameskip)%Z ->
  exists frames,
    write_gif_normal img size frameskip = Ok frames /\
    Z.of_nat (length frames) = ceil_div m frameskip /\
    Forall (fun f => has_shape2 (Z.to_nat m) (3 * Z.to_nat m) f = true) frames.
Proof.
  intros Hz Hr Hl Hfs. unfold write_gif_normal. rewrite Hl. cbn [Py.bind].
  unfold load_and_prepare_image_isotropic in Hl. rewrite Hz in Hl.
  cbn [Py.bind] in Hl.
  destruct (rectangular_spec data_iso Hr) as (a & b & c & Hd & Ha & Hb & Hc & _).
  destruct (isotropic_returns_cube a b c data_iso Hd Ha Hb Hc size out m Hl)
    as [Hm Hcube].
  now apply mosaic_normal_frames.
Qed.

Lemma write_gif_normal_frames_witness :
  let img := {| dataobj := ones 1 2 3; zooms := (Fl.one, Fl.one, Fl.one) |} in
  rectangular (ones 1 2 3) = true /\
  exists frames,
    write_gif_normal (L := reference_libraries) img (Fl.PyInt 1) 2 = Ok frames /\
    Z.of_nat (length frames) = ceil_div 3 2 /\
    Forall (fun f => has_shape2 (Z.to_nat 3) (3 * Z.to_nat 3) f = true) frames.
Proof.
  split; [reflexivity|].
  eapply (write_gif_normal_frames (L := reference_libraries)
            {| dataobj := ones 1 2 3; zooms := (Fl.one, Fl.one, Fl.one) |}
            (ones 1 2 3) (Fl.PyInt 1) 2);
    [vm_compute; reflexivity | reflexivity | vm_compute; reflexivity | lia].
Defined.

(** X10.  The depth writer, by the side [m] of the cube the legacy loader
    returns: a side of 3 or less is an [AxisError]; from a side of 4 and
    with stride 1 it hands over [m] frames of extents [(m, 3 * m, 3)];
    from a side of 5 every stride of 2 or more is a [ValueError]. *)
Theorem write_gif_depth_outcomes {L : Libraries} (data : vol spec_float)
        (size : Fl.pynum) (frameskip : Z) (out : vol pixel) (m : Z) :
  rectangular data = true -> (Z.of_nat (side data) < 2 ^ 53)%Z ->
  load_and_prepare_image data size = Ok (out, m) ->
  (1 <= frameskip)%Z ->
  ((m <= 3)%Z -> write_gif_depth data size frameskip = Raise AxisError) /\
  ((4 <= m)%Z -> frameskip = 1%Z ->
   exists frames,
     write_gif_depth data size frameskip = Ok frames /\
     Z.of_nat (length frames) = m /\
     Forall (fun f => has_shape3 (Z.to_nat m) (3 * Z.to_nat m) 3 f = true)
            frames) /\
  ((5 <= m)%Z -> (2 <= frameskip)%Z ->
   write_gif_depth data size frameskip = Raise ValueError).
Proof.
  intros Hr Hb Hl Hfs.
  destruct (legacy_loaded_cube data size out m Hr Hb Hl) as [Hm Hcube].
  unfold write_gif_depth. rewrite Hl. cbn [Py.bind].
  remember (Z.to_nat m) as n eqn:En.
  assert (Hn : m = Z.of_nat n) by lia. clear En. subst m.
  split; [|split].
  - intros Hle. destruct (Nat.eq_dec n 0) as [->|Hne].
    + now apply mosaic_depth_zero.
    + apply create_mosaic_depth_small; trivial; lia.
  - intros Hge ->.
    rewrite create_mosaic_depth_unit_stride by (trivial; lia).
    eexists. split; [reflexivity|]. split.
    + rewrite length_app, length_map, length_seq, repeat_length. lia.
    + apply Forall_app. split.
      * apply Forall_map, Forall_forall. intros t Ht. apply in_seq in Ht.
        rewrite has_shape3_map3.
        apply roll_spec; try lia. apply window_at_shape; trivial. lia.
      * apply Forall_forall. intros f Hf. apply repeat_spec in Hf. subst f.
        apply has_shape3_full3.
  - intros Hge Hfs2. apply create_mosaic_depth_ragged; trivial; lia.
Qed.

Lemma write_gif_depth_outcomes_witness :
  rectangular (ones 1 1 5) = true /\
  write_gif_depth (L := reference_libraries) (ones 1 1 5) (Fl.PyInt 1) 2
  = Raise ValueError /\
  write_gif_depth (L := reference_libraries) (ones 1 2 3) (Fl.PyInt 1) 2
  = Raise AxisError.
Proof.
  split; [reflexivity|]. split.
  - edestruct (write_gif_depth_outcomes (L := reference_libraries)
                 (ones 1 1 5) (Fl.PyInt 1) 2) as (_ & _ & H);
      [reflexivity | reflexivity | vm_compute; reflexivity | lia |].
    apply H; lia.
  - edestruct (write_gif_depth_outcomes (L := reference_libraries)
                 (ones 1 2 3) (Fl.PyInt 1) 2) as (H & _ & _);
      [reflexivity | reflexivity | vm_compute; reflexivity | lia |].
    apply H; lia.
Defined.

(** X11.  The RGB writer, for three volumes that the legacy loader turns
    into cubes of one side [m]: a side of 0 is an [AxisError]; with stride
    1 and a side of 1 or more it hands over [m + 3] frames of extents
    [(m, 3 * m, 3)]; from a side of 2 every stride of 2 or more is an
    [IndexError]. *)
Theorem write_gif_rgb_outcomes {L : Libraries} (d1 d2 d3 : vol spec_float)
        (size : Fl.pynum) (frameskip : Z) (o1 o2 o3 : vol pixel) (m : Z) :
  rectangular d1 = true -> (Z.of_nat (side d1) < 2 ^ 53)%Z ->
  rectangular d2 = true -> (Z.of_nat (side d2) < 2 ^ 53)%Z ->
  rectangular d3 = true -> (Z.of_nat (side d3) < 2 ^ 53)%Z ->
  load_and_prepare_image d1 size = Ok (o1, m) ->
  load_and_prepare_image d2 size = Ok (o2, m) ->
  load_and_prepare_image d3 size = Ok (o3, m) ->
  (1 <= frameskip)%Z ->
  (m = 0%Z -> write_gif_rgb d1 d2 d3 size frameskip = Raise AxisError) /\
  ((1 <= m)%Z -> frameskip = 1%Z ->
   exists frames,
     write_gif_rgb d1 d2 d3 size frameskip = Ok frames /\
     Z.of_nat (length frames) = (m + 3)%Z /\
     Forall (fun f => has_shape3 (Z.to_nat m) (3 * Z.to_nat m) 3 f = true)
            frames) /\
  ((2 <= m)%Z -> (2 <= frameskip)%Z ->
   write_gif_rgb d1 d2 d3 size frameskip = Raise IndexError).
Proof.
  intros Hr1 Hb1 Hr2 Hb2 Hr3 Hb3 Hl1 Hl2 Hl3 Hfs.
  destruct (legacy_loaded_cube d1 size o1 m Hr1 Hb1 Hl1) as [Hm Hc1].
  destruct (legacy_loaded_cube d2 size o2 m Hr2 Hb2 Hl2) as [_ Hc2].
  destruct (legacy_loaded_cube d3 size o3 m Hr3 Hb3 Hl3) as [_ Hc3].
  unfold write_gif_rgb. rewrite Hl1, Hl2, Hl3. cbn [Py.bind].
  rewrite Z.eqb_refl. cbn [andb].
  remember (Z.to_nat m) as n eqn:En.
  assert (Hn : m = Z.of_nat n) by lia. clear En. subst m.
  split; [|split].
  - intros H0. rewrite H0. now apply mosaic_RGB_zero.
  - intros Hge ->.
    rewrite (create_mosaic_RGB_spec o1 o2 o3 n Hc1 Hc2 Hc3) by lia.
    eexists. split; [reflexivity|]. split.
    + rewrite length_app, length_map, length_seq, repeat_length. lia.
    + apply Forall_app. split.
      * apply Forall_map, Forall_forall. intros t Ht. apply in_seq in Ht.
        rewrite has_shape3_map3.
        apply roll_spec; try lia. apply stack_at_shape; trivial; lia.
      * apply Forall_forall. intros f Hf. apply repeat_spec in Hf. subst f.
        apply has_shape3_full3.
  - intros Hge Hfs2. apply create_mosaic_RGB_short; trivial; lia.
Qed.

Lemma write_gif_rgb_outcomes_witness :
  rectangular (ones 1 1 2) = true /\ rectangular (ones 2 1 1) = true /\
  rectangular (ones 2 2 2) = true /\
  write_gif_rgb (L := reference_libraries) (ones 1 1 2) (ones 2 1 1) (ones 2 2 2)
                (Fl.PyInt 1) 2
  = Raise IndexError.
Proof.
  split; [reflexivity|]. split; [reflexivity|]. split; [reflexivity|].
  edestruct (write_gif_rgb_outcomes (L := reference_libraries)
               (ones 1 1 2) (ones 2 1 1) (ones 2 2 2) (Fl.PyInt 1) 2)
    as (_ & _ & H);
    [reflexivity | reflexivity | reflexivity | reflexivity | reflexivity
     | reflexivity | vm_compute; reflexivity | vm_compute; reflexivity
     | vm_compute; reflexivity | lia |].
  apply H; lia.
Defined.

(** X12.  The pseudocolor writer with a registered colormap, by the side
    [m] of the cube the legacy loader returns: a side of 0 is an
    [AxisError]; with stride 1 and a side of 1 or more it hands over the
    [m] frames of the normal mosaic, every pixel mapped through the
    colormap; from a side of 2 every stride of 2 or more is an
    [IndexError]. *)
Theorem write_gif_pseudocolor_outcomes {L : Libraries} (data : vol spec_float)
        (size : Fl.pynum) (colormap : String.string) (cmap : pixel -> rgba)
        (frameskip : Z) (out : vol pixel) (m : Z) :
  rectangular data = true -> (Z.of_nat (side data) < 2 ^ 53)%Z ->
  load_and_prepare_image data size = Ok (out, m) ->
  get_cmap colormap = Ok cmap ->
  (1 <= frameskip)%Z ->
  (m = 0%Z ->
   write_gif_pseudocolor data size colormap frameskip = Raise AxisError) /\
  ((1 <= m)%Z -> frameskip = 1%Z ->
   exists normal,
     create_mosaic_normal out m 1 = Ok normal /\
     Z.of_nat (length normal) = m /\
     write_gif_pseudocolor data size colormap frameskip
     = Ok (map (map2 (rgb8 cmap)) normal)) /\
  ((2 <= m)%Z -> (2 <= frameskip)%Z ->
   write_gif_pseudocolor data size colormap frameskip = Raise IndexError).
Proof.
  intros Hr Hb Hl Hc Hfs.
  destruct (legacy_loaded_cube data size out m Hr Hb Hl) as [Hm Hcube].
  unfold write_gif_pseudocolor. rewrite Hl. cbn [Py.bind].
  destruct (mosaic_normal_frames out m frameskip Hm Hcube Hfs)
    as (frames & Hf & Hlen & _).
  rewrite Hf. cbn [Py.bind].
  destruct (apply_colormap_spec colormap cmap frames m Hc) as (Hok & Hidx & Hax).
  split; [|split].
  - intros ->. apply Hax. lia.
  - intros Hge ->. exists frames. rewrite Hf.
    assert (Hlm : Z.of_nat (length frames) = m).
    { rewrite Hlen. unfold ceil_div. rewrite Z.div_1_r. lia. }
    split; [reflexivity|]. split; [exact Hlm|].
    rewrite Hok by lia. do 2 f_equal.
    apply firstn_all2. lia.
  - intros Hge Hfs2. apply Hidx. rewrite Hlen.
    pose proof (stride_shortens (Z.to_nat m) frameskip ltac:(lia) Hfs2) as Hs.
    rewrite Z2Nat.id in Hs by trivial.
    pose proof (ceil_div_nonneg m frameskip Hm Hfs). lia.
Qed.

Lemma write_gif_pseudocolor_outcomes_witness :
  rectangular (ones 1 1 2) = true /\
  get_cmap (L := reference_libraries) "gray"%string = Ok grey_ramp /\
  write_gif_pseudocolor (L := reference_libraries) (ones 1 1 2) (Fl.PyInt 1)
                        "gray"%string 2
  = Raise IndexError.
Proof.
  split; [reflexivity|]. split; [reflexivity|].
  edestruct (write_gif_pseudocolor_outcomes (L := reference_libraries)
               (ones 1 1 2) (Fl.PyInt 1) "gray"%string grey_ramp 2)
    as (_ & _ & H);
    [reflexivity | reflexivity | vm_compute; reflexivity | reflexivity | lia |].
  apply H; lia.
Defined.

(* ===================================================================== *)
(** * File names                                                          *)
(* ===================================================================== *)

Lemma str_eqb_eq (s t : Str.str) : Str.eqb s t = true <-> s = t.
Proof.
  revert t. induction s as [|c s IH]; intros [|d t]; simpl; split;
    try congruence; try reflexivity.
  - intros H. apply andb_true_iff in H as [H1 H2].
    apply Ascii.eqb_eq in H1. apply IH in H2. congruence.
  - intros [= -> ->]. apply andb_true_iff. split.
    + apply Ascii.eqb_refl.
    + now apply IH.
Qed.

Lemma str_eqb_neq (s t : Str.str) : Str.eqb s t = false <-> s <> t.
Proof.
  split.
  - intros H E. apply str_eqb_eq in E. congruence.
  - intros H. destruct (Str.eqb s t) eqn:E; trivial.
    apply str_eqb_eq in E. contradiction.
Qed.

Lemma occurs_app (ch : Ascii.ascii) (s t : Str.str) :
  Str.occurs ch (s ++ t) = Str.occurs ch s || Str.occurs ch t.
Proof. unfold Str.occurs. apply existsb_app. Qed.

Lemma split_once_absent (ch : Ascii.ascii) (s : Str.str) :
  Str.occurs ch s = false -> Str.split_once ch s = [s].
Proof.
  induction s as [|c s IH]; simpl; [reflexivity|].
  intros H. apply orb_false_iff in H as [H1 H2].
  rewrite H1, (IH H2). reflexivity.
Qed.

Lemma split_once_first (ch : Ascii.ascii) (b e : Str.str) :
  Str.occurs ch b = false -> Str.split_once ch (b ++ ch :: e) = [b; e].
Proof.
  induction b as [|c b IH]; simpl.
  - intros _. now rewrite Ascii.eqb_refl.
  - intros H. apply orb_false_iff in H as [H1 H2].
    rewrite H1, (IH H2). reflexivity.
Qed.

Lemma occurs_split (ch : Ascii.ascii) (s : Str.str) :
  Str.occurs ch s = true ->
  exists b e, s = b ++ ch :: e /\ Str.occurs ch b = false.
Proof.
  induction s as [|c s IH]; simpl; [discriminate|].
  destruct (Ascii.eqb c ch) eqn:E.
  - intros _. apply Ascii.eqb_eq in E. subst c. now exists [], s.
  - simpl. intros H. destruct (IH H) as (b & e & -> & Hb).
    exists (c :: b), e. split; [reflexivity|]. simpl. now rewrite E.
Qed.

Lemma split_nonempty (ch : Ascii.ascii) (s : Str.str) : Str.split ch s <> [].
Proof.
  destruct s as [|c s]; simpl; [discriminate|].
  destruct (Ascii.eqb c ch); [discriminate|].
  destruct (Str.split ch s); discriminate.
Qed.

Lemma split_absent (ch : Ascii.ascii) (s : Str.str) :
  Str.occurs ch s = false -> Str.split ch s = [s].
Proof.
  induction s as [|c s IH]; simpl; [reflexivity|].
  intros H. apply orb_false_iff in H as [H1 H2].
  rewrite H1, (IH H2). reflexivity.
Qed.

Lemma split_app (ch : Ascii.ascii) (s t : Str.str) :
  Str.occurs ch s = false ->
  Str.split ch (s ++ ch :: t) = s :: Str.split ch t.
Proof.
  induction s as [|c s IH]; simpl.
  - intros _. now rewrite Ascii.eqb_refl.
  - intros H. apply orb_false_iff in H as [H1 H2].
    rewrite H1, (IH H2). reflexivity.
Qed.

(** No component of a split contains the separator. *)
Lemma split_components (ch : Ascii.ascii) (s : Str.str) :
  Forall (fun c => Str.occurs ch c = false) (Str.split ch s).
Proof.
  induction s as [|c s IH]; simpl; [repeat constructor|].
  destruct (Ascii.eqb c ch) eqn:E; [now constructor|].
  destruct (Str.split ch s) as [|h t];
    [repeat constructor; simpl; now rewrite E|].
  inversion IH; subst. constructor; trivial. simpl. now rewrite E.
Qed.

Lemma join_cons (sep : Str.str) (c : Str.str) (l : list Str.str) :
  l <> [] -> Str.join sep (c :: l) = c ++ sep ++ Str.join sep l.
Proof. destruct l; [congruence|reflexivity]. Qed.

Lemma split_join (ch : Ascii.ascii) (l : list Str.str) :
  l <> [] -> Forall (fun c => Str.occurs ch c = false) l ->
  Str.split ch (Str.join [ch] l) = l.
Proof.
  induction l as [|c l IH]; [congruence|]. intros _ H.
  inversion H as [|? ? Hc Hl]; subst.
  destruct l as [|d l]; [now apply split_absent|].
  rewrite join_cons by discriminate. cbn [app].
  rewrite split_app by trivial. f_equal. apply IH; [discriminate|trivial].
Qed.

Lemma join_snoc (sep : Str.str) (l : list Str.str) (f : Str.str) :
  l <> [] -> Str.join sep (l ++ [f]) = Str.join sep l ++ sep ++ f.
Proof.
  induction l as [|c l IH]; [congruence|]. intros _.
  destruct l as [|d l]; [reflexivity|].
  change ((c :: d :: l) ++ [f]) with (c :: ((d :: l) ++ [f])).
  rewrite (join_cons sep c ((d :: l) ++ [f])) by discriminate.
  rewrite IH by discriminate.
  rewrite (join_cons sep c (d :: l)) by discriminate.
  now rewrite <- !app_assoc.
Qed.

Lemma through_last_absent (ch : Ascii.ascii) (f : Str.str) :
  Str.occurs ch f = false -> Str.through_last ch f = [].
Proof.
  destruct f as [|c f]; simpl; [reflexivity|].
  intros H. now rewrite H.
Qed.

Lemma through_last_app (ch : Ascii.ascii) (s f : Str.str) :
  Str.occurs ch f = false -> Str.through_last ch (s ++ ch :: f) = s ++ [ch].
Proof.
  intros Hf. induction s as [|c s IH]; simpl.
  - rewrite Ascii.eqb_refl. simpl. now rewrite through_last_absent.
  - rewrite occurs_app. simpl. rewrite Ascii.eqb_refl, !orb_true_r.
    now rewrite IH.
Qed.

Lemma rstrip_keep (ch c : Ascii.ascii) (s : Str.str) :
  Ascii.eqb c ch = false -> Str.rstrip ch (s ++ [c]) = s ++ [c].
Proof.
  intros Hc. induction s as [|d s IH]; simpl.
  - now rewrite Hc.
  - rewrite IH. destruct (s ++ [c]) eqn:E; [|reflexivity].
    now destruct s.
Qed.

Lemma rstrip_snoc (ch : Ascii.ascii) (s : Str.str) :
  Str.rstrip ch (s ++ [ch]) = Str.rstrip ch s.
Proof.
  induction s as [|d s IH]; simpl.
  - now rewrite Ascii.eqb_refl.
  - now rewrite IH.
Qed.

Lemma plain_spec (c : Str.str) :
  plain c = true ->
  c <> [] /\ c <> [PosixPath.extsep] /\
  c <> [PosixPath.extsep; PosixPath.extsep] /\
  Str.occurs PosixPath.sep c = false.
Proof.
  unfold plain. intros H.
  apply andb_true_iff in H as [H H4]. apply andb_true_iff in H as [H H3].
  apply andb_true_iff in H as [H1 H2].
  apply negb_true_iff in H1, H2, H3, H4.
  apply str_eqb_neq in H1, H2, H3. auto.
Qed.

Lemma normpath_step_plain (i : nat) (acc : list Str.str) (c : Str.str) :
  plain c = true -> PosixPath.normpath_step i acc c = acc ++ [c].
Proof.
  intros H. apply plain_spec in H as (H1 & H2 & H3 & _).
  apply str_eqb_neq in H1, H2, H3.
  unfold PosixPath.normpath_step. now rewrite H1, H2, H3.
Qed.

Lemma normpath_fold_plain (i : nat) (comps acc : list Str.str) :
  forallb plain comps = true ->
  fold_left (PosixPath.normpath_step i) comps acc = acc ++ comps.
Proof.
  revert acc. induction comps as [|c comps IH]; intros acc H; simpl.
  - now rewrite app_nil_r.
  - simpl in H. apply andb_true_iff in H as [Hc H].
    rewrite normpath_step_plain by trivial. rewrite IH by trivial.
    now rewrite <- app_assoc.
Qed.

(** A plain component ends with, and starts with, a character that is not
    the separator. *)
Lemma plain_ends (c : Str.str) :
  plain c = true ->
  (exists s x, c = s ++ [x] /\ Ascii.eqb x PosixPath.sep = false) /\
  (exists x s, c = x :: s /\ Ascii.eqb x PosixPath.sep = false).
Proof.
  intros H. apply plain_spec in H as (H1 & _ & _ & H4). split.
  - destruct (exists_last H1) as (s & x & ->).
    exists s, x. split; trivial.
    rewrite occurs_app in H4. apply orb_false_iff in H4 as [_ H4].
    simpl in H4. now apply orb_false_iff in H4 as [H4 _].
  - destruct c as [|x s]; [congruence|]. exists x, s. split; trivial.
    simpl in H4. now apply orb_false_iff in H4 as [H4 _].
Qed.

Lemma join_plain_ends (l : list Str.str) :
  l <> [] -> forallb plain l = true ->
  (exists s x, Str.join [PosixPath.sep] l = s ++ [x] /\
               Ascii.eqb x PosixPath.sep = false) /\
  (exists x s, Str.join [PosixPath.sep] l = x :: s /\
               Ascii.eqb x PosixPath.sep = false).
Proof.
  intros Hne H. split.
  - destruct (exists_last Hne) as (l' & c & ->).
    rewrite forallb_app in H. apply andb_true_iff in H as [_ H].
    simpl in H. rewrite andb_true_r in H.
    destruct (proj1 (plain_ends c H)) as (s & x & -> & Hx).
    destruct l' as [|d l'].
    + exists s, x. now split.
    + rewrite join_snoc by discriminate.
      exists (Str.join [PosixPath.sep] (d :: l') ++ [PosixPath.sep] ++ s), x.
      split; trivial. now rewrite <- !app_assoc.
  - destruct l as [|c l]; [congruence|].
    simpl in H. apply andb_true_iff in H as [H _].
    destruct (proj2 (plain_ends c H)) as (x & s & -> & Hx).
    destruct l as [|d l].
    + exists x, s. now split.
    + rewrite join_cons by discriminate. exists x. eexists.
      split; [reflexivity|trivial].
Qed.

Lemma plain_no_sep (l : list Str.str) :
  forallb plain l = true ->
  Forall (fun c => Str.occurs PosixPath.sep c = false) l.
Proof.
  intros H. apply Forall_forall. intros c Hc.
  rewrite forallb_forall in H. now apply plain_spec, H.
Qed.

Section PlainPaths.
Variables (dirs : list Str.str) (f : Str.str).
Hypothesis Hdirs : forallb plain dirs = true.
Hypothesis Hf : plain f = true.

Let comps := dirs ++ [f].

Lemma comps_plain : forallb plain comps = true.
Proof. unfold comps. rewrite forallb_app, Hdirs. simpl. now rewrite Hf. Qed.

Lemma comps_nonempty : comps <> [].
Proof. unfold comps. now destruct dirs. Qed.

Lemma normpath_relative :
  PosixPath.normpath (Str.join [PosixPath.sep] comps)
  = Str.join [PosixPath.sep] comps.
Proof.
  destruct (proj2 (join_plain_ends comps comps_nonempty comps_plain))
    as (x & s & E & Hx).
  unfold PosixPath.normpath. rewrite E. cbn [Str.eqb Str.startswith].
  rewrite (Ascii.eqb_sym PosixPath.sep x), Hx. cbn [andb].
  rewrite <- E. rewrite split_join by
      (auto using comps_nonempty, plain_no_sep, comps_plain).
  rewrite normpath_fold_plain by apply comps_plain.
  cbn [app repeat]. rewrite E. reflexivity.
Qed.

Lemma normpath_absolute :
  PosixPath.normpath (PosixPath.sep :: Str.join [PosixPath.sep] comps)
  = PosixPath.sep :: Str.join [PosixPath.sep] comps.
Proof.
  destruct (proj2 (join_plain_ends comps comps_nonempty comps_plain))
    as (x & s & E & Hx).
  unfold PosixPath.normpath. cbn [Str.eqb]. rewrite E.
  cbn [Str.startswith].
  rewrite Ascii.eqb_refl, (Ascii.eqb_sym PosixPath.sep x), Hx. cbn [andb].
  rewrite <- E. cbn [Str.split]. rewrite Ascii.eqb_refl.
  rewrite split_join by
      (auto using comps_nonempty, plain_no_sep, comps_plain).
  cbn [fold_left].
  change (PosixPath.normpath_step 1 [] []) with (@nil Str.str).
  rewrite normpath_fold_plain by apply comps_plain.
  reflexivity.
Qed.

Lemma last_split_relative :
  last (Str.split PosixPath.sep (Str.join [PosixPath.sep] comps)) [] = f.
Proof.
  rewrite split_join by
      (auto using comps_nonempty, plain_no_sep, comps_plain).
  apply last_last.
Qed.

Lemma last_split_absolute :
  last (Str.split PosixPath.sep
          (PosixPath.sep :: Str.join [PosixPath.sep] comps)) [] = f.
Proof.
  cbn [Str.split]. rewrite Ascii.eqb_refl.
  rewrite split_join by
      (auto using comps_nonempty, plain_no_sep, comps_plain).
  change ([] :: comps) with ([[]] ++ comps). unfold comps.
  rewrite app_assoc. apply last_last.
Qed.

Lemma dirname_joined (root : Str.str) :
  root = [] \/ root = [PosixPath.sep] ->
  PosixPath.dirname (root ++ Str.join [PosixPath.sep] comps)
  = root ++ Str.join [PosixPath.sep] dirs.
Proof.
  intros Hroot.
  destruct (plain_spec f Hf) as (_ & _ & _ & Hsep).
  unfold PosixPath.dirname, comps.
  destruct dirs as [|d ds] eqn:Ed.
  - cbn [app Str.join]. destruct Hroot as [-> | ->].
    + cbn [app]. now rewrite through_last_absent.
    + change ([PosixPath.sep] ++ f) with ([] ++ PosixPath.sep :: f).
      rewrite through_last_app by trivial. reflexivity.
  - rewrite <- Ed in *.
    assert (Hne : dirs <> []) by (rewrite Ed; discriminate).
    rewrite join_snoc by trivial.
    replace (root ++ Str.join [PosixPath.sep] dirs ++ [PosixPath.sep] ++ f)
      with ((root ++ Str.join [PosixPath.sep] dirs) ++ PosixPath.sep :: f)
      by (now rewrite <- app_assoc).
    rewrite through_last_app by trivial.
    destruct (join_plain_ends dirs Hne Hdirs) as [(s & x & E & Hx) _].
    rewrite E.
    assert (Hhead : Str.eqb ((root ++ s ++ [x]) ++ [PosixPath.sep]) [] = false).
    { apply str_eqb_neq. now destruct (root ++ s ++ [x]). }
    rewrite Hhead. cbn [negb andb].
    rewrite !forallb_app. cbn [forallb]. rewrite Hx.
    rewrite !andb_false_r. cbn [negb].
    rewrite rstrip_snoc. rewrite app_assoc. now apply rstrip_keep.
Qed.

End PlainPaths.

Lemma parse_filename_eq (filepath : Str.str) :
  parse_filename filepath =
  match Str.split_once PosixPath.extsep
          (last (Str.split PosixPath.sep (PosixPath.normpath filepath)) []) with
  | [basename; ext] =>
      Ok (PosixPath.dirname (PosixPath.normpath filepath), basename, ext)
  | _ => Raise ValueError
  end.
Proof.
  unfold parse_filename.
  destruct (Str.split PosixPath.sep (PosixPath.normpath filepath)) eqn:E;
    [|reflexivity].
  now apply split_nonempty in E.
Qed.

(** X13.  [parse_filename] cuts the last component of the normalised path
    at its first dot: a component without a dot is a [ValueError];
    otherwise the base name is the part before the first dot (it holds no
    dot), the extension is all that follows it, and base name, dot and
    extension make up the component.  The component holds no separator. *)
Theorem parse_filename_first_dot (filepath : Str.str) :
  let filename :=
    last (Str.split PosixPath.sep (PosixPath.normpath filepath)) [] in
  Str.occurs PosixPath.sep filename = false /\
  (Str.occurs PosixPath.extsep filename = false ->
   parse_filename filepath = Raise ValueError) /\
  (Str.occurs PosixPath.extsep filename = true ->
   exists basename ext,
     parse_filename filepath
     = Ok (PosixPath.dirname (PosixPath.normpath filepath), basename, ext) /\
     filename = basename ++ PosixPath.extsep :: ext /\
     Str.occurs PosixPath.extsep basename = false).
Proof.
  intros filename. rewrite parse_filename_eq. fold filename.
  split; [|split].
  - pose proof (split_nonempty PosixPath.sep (PosixPath.normpath filepath)) as Hne.
    pose proof (split_components PosixPath.sep (PosixPath.normpath filepath))
      as Hall.
    rewrite Forall_forall in Hall. apply Hall.
    destruct (exists_last Hne) as (l & c & E). unfold filename. rewrite E.
    rewrite last_last. apply in_or_app. right. now left.
  - intros H. now rewrite split_once_absent.
  - intros H.
    destruct (occurs_split PosixPath.extsep filename H) as (b & e & E & Hb).
    exists b, e. rewrite E. now rewrite split_once_first.
Qed.

Lemma parse_filename_first_dot_witness :
  parse_filename (Str.lit "/john/home/image"%string) = Raise ValueError /\
  exists basename ext,
    parse_filename (Str.lit "/john/./home//sub-01.T1w.nii.gz"%string)
    = Ok (PosixPath.dirname
            (PosixPath.normpath (Str.lit "/john/./home//sub-01.T1w.nii.gz"%string)),
          basename, ext) /\
    last (Str.split PosixPath.sep
            (PosixPath.normpath (Str.lit "/john/./home//sub-01.T1w.nii.gz"%string))) []
    = basename ++ PosixPath.extsep :: ext /\
    Str.occurs PosixPath.extsep basename = false.
Proof.
  split.
  - apply (parse_filename_first_dot (Str.lit "/john/home/image"%string)).
    reflexivity.
  - apply (parse_filename_first_dot
             (Str.lit "/john/./home//sub-01.T1w.nii.gz"%string)).
    reflexivity.
Defined.

(** X14.  Round trip: for a path made of components that normalisation
    keeps (none empty, [.] or [..]), relative or from the root, whose last
    component is a dot-free base name, a dot and an extension,
    [parse_filename] returns the directory part, that base name and that
    extension. *)
Theorem parse_filename_round_trip (absolute : bool) (dirs : list Str.str)
        (basename ext : Str.str) :
  forallb plain dirs = true ->
  plain (basename ++ PosixPath.extsep :: ext) = true ->
  Str.occurs PosixPath.extsep basename = false ->
  let root := if absolute then [PosixPath.sep] else [] in
  parse_filename
    (root ++ Str.join [PosixPath.sep]
                      (dirs ++ [basename ++ PosixPath.extsep :: ext]))
  = Ok (root ++ Str.join [PosixPath.sep] dirs, basename, ext).
Proof.
  intros Hdirs Hf Hb root. rewrite parse_filename_eq.
  set (f := basename ++ PosixPath.extsep :: ext) in *.
  assert (Hn : PosixPath.normpath (root ++ Str.join [PosixPath.sep] (dirs ++ [f]))
               = root ++ Str.join [PosixPath.sep] (dirs ++ [f])).
  { unfold root. destruct absolute.
    - now apply normpath_absolute.
    - now apply normpath_relative. }
  rewrite Hn.
  assert (Hl : last (Str.split PosixPath.sep
                       (root ++ Str.join [PosixPath.sep] (dirs ++ [f]))) [] = f).
  { unfold root. destruct absolute.
    - now apply last_split_absolute.
    - now apply last_split_relative. }
  rewrite Hl.
  rewrite dirname_joined by (trivial; unfold root; destruct absolute; auto).
  unfold f. now rewrite split_once_first.
Qed.

Lemma parse_filename_round_trip_witness :
  parse_filename (Str.lit "/john/home/image.nii.gz"%string)
  = Ok (Str.lit "/john/home"%string, Str.lit "image"%string,
        Str.lit "nii.gz"%string).
Proof.
  apply (parse_filename_round_trip true
           [Str.lit "john"%string; Str.lit "home"%string]
           (Str.lit "image"%string) (Str.lit "nii.gz"%string)); reflexivity.
Defined.

(* ===================================================================== *)
(** * The encoder shim                                                    *)
(* ===================================================================== *)

Lemma tuple_gt_release (major minor patch : Z) :
  tuple_gt [major; minor; patch] [2; 28]%Z = true <->
  (2 < major)%Z \/ (major = 2%Z /\ (28 <= minor)%Z).
Proof.
  cbn [tuple_gt].
  destruct (major =? 2)%Z eqn:E1.
  - apply Z.eqb_eq in E1. destruct (minor =? 28)%Z eqn:E2.
    + apply Z.eqb_eq in E2. split; [lia|reflexivity].
    + apply Z.eqb_neq in E2. rewrite Z.ltb_lt. lia.
  - apply Z.eqb_neq in E1. rewrite Z.ltb_lt. lia.
Qed.

Lemma duration_table :
  forallb (fun n =>
             match Fl.py_int (Fl.div64 (Fl.f64_of_Z 1000)
                                       (Fl.f64_of_Z (Z.of_nat n))) with
             | Ok ms => (ms =? 1000 / Z.of_nat n)%Z
             | Raise _ => false
             end)
          (seq 1 1000) = true.
Proof. vm_compute. reflexivity. Qed.

Lemma duration_exact (fps : Z) :
  (1 <= fps <= 1000)%Z ->
  Fl.py_int (Fl.div64 (Fl.f64_of_Z 1000) (Fl.f64_of_Z fps)) = Ok (1000 / fps)%Z.
Proof.
  intros H. pose proof duration_table as T.
  rewrite forallb_forall in T.
  specialize (T (Z.to_nat fps)). rewrite Z2Nat.id in T by lia.
  destruct (Fl.py_int (Fl.div64 (Fl.f64_of_Z 1000) (Fl.f64_of_Z fps)))
    as [ms|e].
  - f_equal. apply Z.eqb_eq. apply T. apply in_seq. lia.
  - discriminate T. apply in_seq. lia.
Qed.

(** X15.  [mimwrite_] for a release [major.minor.patch] of imageio.  From
    2.28.0 on (every 2.28.x counts as newer than 2.28, a tuple of three
    against a tuple of two) the frame rate becomes a frame duration: for
    a rate from 1 to 1000 it is [1000 div fps] milliseconds, at least 1;
    a rate of 0 is a [ZeroDivisionError].  Before 2.28 the rate is passed
    on as it is, 0 included. *)
Theorem mimwrite_timing (major minor patch fps : Z) :
  let version := [major; minor; patch] in
  ((2 < major)%Z \/ (major = 2%Z /\ (28 <= minor)%Z) ->
   (fps = 0%Z -> mimwrite_ version fps = inr ZeroDivisionError) /\
   ((1 <= fps <= 1000)%Z ->
    mimwrite_ version fps = inl (Duration (1000 / fps)) /\
    (1 <= 1000 / fps)%Z)) /\
  ((major < 2)%Z \/ (major = 2%Z /\ (minor < 28)%Z) ->
   mimwrite_ version fps = inl (Fps fps)).
Proof.
  intros version. unfold mimwrite_. split.
  - intros Hv. apply (proj2 (tuple_gt_release major minor patch)) in Hv.
    fold version in Hv. rewrite Hv. split.
    + intros ->. reflexivity.
    + intros Hf. destruct (fps =? 0)%Z eqn:E; [lia|].
      rewrite duration_exact by trivial. split; [reflexivity|].
      apply Z.div_le_lower_bound; lia.
  - intros Hv.
    destruct (tuple_gt version [2; 28]%Z) eqn:E; [|reflexivity].
    apply (proj1 (tuple_gt_release major minor patch)) in E. lia.
Qed.

Lemma mimwrite_timing_witness :
  mimwrite_ [2; 28; 0]%Z 0 = inr ZeroDivisionError /\
  (mimwrite_ [2; 28; 0]%Z 18 = inl (Duration (1000 / 18)) /\
   (1 <= 1000 / 18)%Z) /\
  mimwrite_ [2; 27; 2]%Z 0 = inl (Fps 0).
Proof.
  split; [|split].
  - apply (mimwrite_timing 2 28 0 0); [lia | reflexivity].
  - apply (mimwrite_timing 2 28 0 18); lia.
  - apply (mimwrite_timing 2 27 2 0); lia.
Defined.

(* ===================================================================== *)
(** * Voxel sizes and intensities                                         *)
(* ===================================================================== *)






(** ** Volumes of bytes that use the full range *)

Lemma same_float_eq (x y : spec_float) : same_float x y = true -> x = y.
Proof.
  destruct x as [s|s| |s m e], y as [t|t| |t n f]; simpl; try discriminate;
    trivial.
  - intros H. apply Bool.eqb_prop in H. now subst.
  - intros H. apply Bool.eqb_prop in H. now subst.
  - intros H. apply andb_true_iff in H as [H He].
    apply andb_true_iff in H as [Hs Hm].
    apply Bool.eqb_prop in Hs. apply Pos.eqb_eq in Hm. apply Z.eqb_eq in He.
    now subst.
Qed.

Lemma byte_in_bytes (k : Z) : byte k -> In k bytes.
Proof.
  intros [H0 H1]. unfold bytes. apply in_map_iff.
  exists (Z.to_nat k). split; [lia|]. apply in_seq. lia.
Qed.

Lemma map_pad_axis {X Y : Type} (f : X -> Y) (z : X) (n before : nat)
      (mid : list X) :
  map f (pad_axis z n before mid) = pad_axis (f z) n before (map f mid).
Proof.
  unfold pad_axis. now rewrite !map_app, !map_repeat, length_map.
Qed.

Lemma map3_embed3 {A B C : Type} (h : A -> C) (cast : B -> A) (z : A)
      (n sx sy sz : nat) (data : vol B) :
  map3 h (embed3 cast z n sx sy sz data)
  = embed3 (fun x => h (cast x)) (h z) n sx sy sz data.
Proof.
  unfold map3, map2, embed3, full2.
  rewrite map_pad_axis, !map_repeat, map_map. f_equal.
  apply map_ext. intros p.
  rewrite map_pad_axis, map_repeat, map_map. f_equal.
  apply map_ext. intros r.
  now rewrite map_pad_axis, map_map.
Qed.

Lemma embed3_map3 {A B C : Type} (cast : B -> A) (g : C -> B) (z : A)
      (n sx sy sz : nat) (data : vol C) :
  embed3 cast z n sx sy sz (map3 g data)
  = embed3 (fun x => cast (g x)) z n sx sy sz data.
Proof.
  unfold map3, map2, embed3.
  rewrite map_map. f_equal. apply map_ext. intros p.
  rewrite map_map. f_equal. apply map_ext. intros r.
  now rewrite map_map.
Qed.

Lemma map3_ext_in {A B : Type} (f g : A -> B) (v : vol A) :
  (forall x, In x (ravel v) -> f x = g x) -> map3 f v = map3 g v.
Proof.
  intros H. unfold map3, map2.
  apply map_ext_in. intros p Hp. apply map_ext_in. intros r Hr.
  apply map_ext_in. intros x Hx. apply H.
  unfold ravel. apply in_concat. exists r. split; trivial.
  apply in_concat. eauto.
Qed.

Lemma map3_id {A : Type} (v : vol A) : map3 (fun x => x) v = v.
Proof.
  unfold map3, map2.
  rewrite <- (map_id v) at 2. apply map_ext. intros p.
  rewrite <- (map_id p) at 2. apply map_ext. intros r. apply map_id.
Qed.

Lemma fold_max_bytes (ks : list Z) (k : Z) :
  byte k -> Forall byte ks ->
  byte (fold_left Z.max ks k) /\
  (In 255%Z (k :: ks) -> fold_left Z.max ks k = 255%Z).
Proof.
  revert k. induction ks as [|j ks IH]; intros k Hk Hks; simpl.
  - split; trivial. intros [H|[]]. now subst.
  - inversion Hks as [|? ? Hj Hks']; subst.
    assert (Hm : byte (Z.max k j)) by (unfold byte in *; lia).
    destruct (IH (Z.max k j) Hm Hks') as [Hb H255]. split; trivial.
    intros [H|[H|H]].
    + apply H255. left. unfold byte in *. lia.
    + apply H255. left. unfold byte in *. lia.
    + apply H255. now right.
Qed.

Section ByteFloats.
Variable F : Z -> spec_float.
Hypothesis F_max :
  forall a b, byte a -> byte b -> Fl.maximum (F a) (F b) = F (Z.max a b).

Lemma fold_maximum_bytes (ks : list Z) (k : Z) :
  byte k -> Forall byte ks ->
  fold_left Fl.maximum (map F ks) (F k) = F (fold_left Z.max ks k).
Proof.
  revert k. induction ks as [|j ks IH]; intros k Hk Hks; simpl; trivial.
  inversion Hks as [|? ? Hj Hks']; subst.
  rewrite F_max by trivial. apply IH; trivial.
  unfold byte in *. lia.
Qed.

Lemma amax_bytes (cube : vol Z) :
  Forall byte (ravel cube) -> In 255%Z (ravel cube) ->
  amax (map3 F cube) = Ok (F 255%Z).
Proof.
  intros Hall Hin. unfold amax. rewrite ravel_map3.
  destruct (ravel cube) as [|k ks]; [destruct Hin|].
  inversion Hall as [|? ? Hk Hks]; subst. cbn [map].
  rewrite fold_maximum_bytes by trivial.
  now rewrite (proj2 (fold_max_bytes ks k Hk Hks) Hin).
Qed.

End ByteFloats.

Lemma maximum_table64 :
  forallb (fun a =>
             forallb (fun b =>
                        same_float (Fl.maximum (Fl.f64_of_Z a) (Fl.f64_of_Z b))
                                   (Fl.f64_of_Z (Z.max a b)))
                     bytes)
          bytes = true.
Proof. vm_compute. reflexivity. Qed.

Lemma maximum_table32 :
  forallb (fun a =>
             forallb (fun b =>
                        same_float (Fl.maximum (f32_voxel a) (f32_voxel b))
                                   (f32_voxel (Z.max a b)))
                     bytes)
          bytes = true.
Proof. vm_compute. reflexivity. Qed.

Lemma rescale_table64 :
  forallb (fun k =>
             (Fl.astype_uint8
                (Fl.mul64 (Fl.f64_of_Z k)
                          (Fl.div64 (Fl.f64_of_Z 255) (Fl.f64_of_Z 255)))
              =? k)%Z)
          bytes = true.
Proof. vm_compute. reflexivity. Qed.

Lemma rescale_table32 :
  forallb (fun k =>
             (Fl.astype_uint8
                (Fl.mul32 (f32_voxel k)
                          (Fl.div32 (Fl.f32_of_Z 255) (f32_voxel 255)))
              =? k)%Z)
          bytes = true.
Proof. vm_compute. reflexivity. Qed.

Lemma maximum_bytes64 (a b : Z) :
  byte a -> byte b ->
  Fl.maximum (Fl.f64_of_Z a) (Fl.f64_of_Z b) = Fl.f64_of_Z (Z.max a b).
Proof.
  intros Ha Hb. pose proof maximum_table64 as T.
  rewrite forallb_forall in T. specialize (T a (byte_in_bytes a Ha)).
  rewrite forallb_forall in T. specialize (T b (byte_in_bytes b Hb)).
  now apply same_float_eq.
Qed.

Lemma maximum_bytes32 (a b : Z) :
  byte a -> byte b ->
  Fl.maximum (f32_voxel a) (f32_voxel b) = f32_voxel (Z.max a b).
Proof.
  intros Ha Hb. pose proof maximum_table32 as T.
  rewrite forallb_forall in T. specialize (T a (byte_in_bytes a Ha)).
  rewrite forallb_forall in T. specialize (T b (byte_in_bytes b Hb)).
  now apply same_float_eq.
Qed.

Section ByteVolumes.
Context {L : Libraries}.
Variables (ints : vol Z) (a b c : nat).
Hypothesis Hshape : has_shape3 a b c ints = true.
Hypothesis Ha : 1 <= a.
Hypothesis Hb : 1 <= b.
Hypothesis Hc : 1 <= c.
Hypothesis Hbytes : Forall byte (ravel ints).
Hypothesis Hfull : In 255%Z (ravel ints).

Let n := cube_side a b c.
Let padded : vol Z :=
  embed3 (fun k => k) 0%Z n (centre n a) (centre n b) (centre n c) ints.

Lemma padded_bytes : Forall byte (ravel padded).
Proof.
  apply Forall_forall. intros y Hy. unfold padded in Hy.
  apply In_ravel_embed3_inv in Hy as [->|(x & Hx & ->)].
  - unfold byte. lia.
  - rewrite Forall_forall in Hbytes. now apply Hbytes.
Qed.

Lemma padded_full : In 255%Z (ravel padded).
Proof.
  unfold padded.
  now apply (In_ravel_embed3 (fun k : Z => k) 0%Z n _ _ _ ints 255%Z).
Qed.

Lemma legacy_bytes (size : Fl.pynum) :
  Fl.ne_one size = false -> (Z.of_nat n < 2 ^ 53)%Z ->
  load_and_prepare_image (map3 Fl.f64_of_Z ints) size
  = Ok (map3 U8 padded, Z.of_nat n).
Proof.
  intros Hs Hn. unfold load_and_prepare_image.
  rewrite (pad_to_cube_legacy_spec a b c (map3 Fl.f64_of_Z ints))
    by (trivial; now rewrite has_shape3_map3).
  fold n. cbn [Py.bind].
  rewrite embed3_map3.
  change Fl.pzero with (Fl.f64_of_Z 0).
  rewrite <- (map3_embed3 Fl.f64_of_Z (fun k => k) 0%Z). fold padded.
  unfold rescale64.
  rewrite (amax_bytes Fl.f64_of_Z maximum_bytes64 padded padded_bytes padded_full).
  cbn [Py.bind]. rewrite Hs. cbn [Py.bind].
  rewrite int_times_unit_size by (trivial; lia). cbn [Py.bind].
  do 2 f_equal. rewrite !map3_map3.
  rewrite <- (map3_id padded) at 2. rewrite map3_map3.
  apply map3_ext_in. intros k Hk. f_equal.
  pose proof padded_bytes as Hall. rewrite Forall_forall in Hall.
  pose proof rescale_table64 as T. rewrite forallb_forall in T.
  apply Z.eqb_eq. apply T. apply byte_in_bytes. now apply Hall.
Qed.

Lemma isotropic_bytes (size : Fl.pynum) :
  Fl.ne_one size = false ->
  prepare_isotropic (map3 Fl.f64_of_Z ints) size = Ok (padded, Z.of_nat n).
Proof.
  intros Hs. unfold prepare_isotropic.
  rewrite (pad_to_cube_isotropic_spec a b c (map3 Fl.f64_of_Z ints))
    by (trivial; now rewrite has_shape3_map3).
  fold n. cbn [Py.bind].
  rewrite embed3_map3.
  change (fun x : Z => Fl.to_f32 (Fl.f64_of_Z x)) with f32_voxel.
  change Fl.pzero with (f32_voxel 0).
  rewrite <- (map3_embed3 f32_voxel (fun k => k) 0%Z). fold padded.
  unfold rescale32.
  rewrite (amax_bytes f32_voxel maximum_bytes32 padded padded_bytes padded_full).
  cbn [Py.bind]. rewrite Hs.
  do 2 f_equal. rewrite !map3_map3.
  rewrite <- (map3_id padded) at 2.
  apply map3_ext_in. intros k Hk.
  pose proof padded_bytes as Hall. rewrite Forall_forall in Hall.
  pose proof rescale_table32 as T. rewrite forallb_forall in T.
  apply Z.eqb_eq. apply T. apply byte_in_bytes. now apply Hall.
Qed.

End ByteVolumes.

(** X17.  A volume of integers from 0 to 255 that reaches 255 passes
    through both loaders unchanged at size factor 1: the factor
    [255 / max] is exactly 1, and the result is the volume itself, as
    [uint8], centred in a zero cube of side [max a b c]. *)
Theorem full_range_bytes_preserved {L : Libraries} (ints : vol Z)
        (a b c : nat) (size : Fl.pynum) :
  has_shape3 a b c ints = true -> 1 <= a -> 1 <= b -> 1 <= c ->
  (Z.of_nat (cube_side a b c) < 2 ^ 53)%Z ->
  Forall byte (ravel ints) -> In 255%Z (ravel ints) ->
  Fl.ne_one size = false ->
  let n := cube_side a b c in
  let padded :=
    embed3 (fun k => k) 0%Z n (centre n a) (centre n b) (centre n c) ints in
  load_and_prepare_image (map3 Fl.f64_of_Z ints) size
  = Ok (map3 U8 padded, Z.of_nat n) /\
  prepare_isotropic (map3 Fl.f64_of_Z ints) size = Ok (padded, Z.of_nat n).
Proof.
  intros Hs Ha Hb Hc Hn Hbytes Hfull Hsize n padded. split.
  - now apply legacy_bytes.
  - now apply isotropic_bytes.
Qed.

Lemma full_range_bytes_preserved_witness :
  load_and_prepare_image (L := reference_libraries)
    (map3 Fl.f64_of_Z [[[7; 255]]]%Z) (Fl.PyInt 1)
  = Ok (map3 U8 [[[7; 255]; [0; 0]]; [[0; 0]; [0; 0]]]%Z, 2%Z) /\
  prepare_isotropic (L := reference_libraries)
    (map3 Fl.f64_of_Z [[[7; 255]]]%Z) (Fl.PyInt 1)
  = Ok ([[[7; 255]; [0; 0]]; [[0; 0]; [0; 0]]]%Z, 2%Z).
Proof.
  apply (full_range_bytes_preserved (L := reference_libraries)
           [[[7; 255]]]%Z 1 1 2 (Fl.PyInt 1));
    try reflexivity; try lia.
  - repeat constructor; unfold byte; lia.
  - simpl. auto.
Defined.
